(** * Knowsy: the game actions of [useGameActions] over the Supabase schema

    A shallow embedding of the ten actions of the [useGameActions] hook
    ([createGame], [joinGame], [startRound], [selectTopic],
    [submitVIPRanking], [submitGuess], [startReveal], [revealNext],
    [calculateScores], [rotateVIP], [passVIP]) together with the part of
    the SQL migration they run against.

    Modelling decisions.
    - A table is the list of its rows in insertion order; [joined_at] and
      [created_at] are that order.  Columns that no action reads (the
      surrogate [id] of [game_players], [rankings] and [guesses], the
      timestamps, [avatar_url]) are left out.
    - A [uuid] is a natural number.  As a key of a JavaScript object a uuid
      is its text form, which is never an array index, so [Object.keys]
      lists such keys in insertion order.
    - [UNIQUE] and [PRIMARY KEY] constraints and the [FOREIGN KEY]s into
      [games], [rounds], [topics] and [topic_items] are checked by the
      inserts.  The [auth.users] table and the row-level-security policies
      belong to the identity provider: they depend on the calling session,
      which is no argument of any action, and are taken to let the
      statement through.
    - Every [await supabase...] is one request.  A request may fail in
      transit; the [faults] of the world say which of the coming
      requests do.  supabase-js reports a failure in the [error] field of
      the response and does not throw.
    - Integers are [Z].  The [INTEGER] columns hold 32-bit integers: the
      two statements that write a number the code has computed, the
      player's new score and the next reveal index, are refused when the
      number is out of that range.  Numbers that are passed on as they
      were given (the settings of a game, positions, round numbers) are
      taken to fit their columns. *)

From Stdlib Require Import List ZArith Lia Bool String Ascii Arith.
From Stdlib Require Import Permutation Sorted.
Import ListNotations.

Set Implicit Arguments.

(** ** Rows *)

Definition uuid := nat.

Inductive game_status := waiting | playing | finished.

Inductive round_status :=
  topic_selection | vip_ranking | player_guessing | revealing | complete.

Module Games.
Record row := mk {
  id : uuid;
  code : string;
  creator_id : uuid;
  current_vip_id : option uuid;
  status : game_status;
  target_score : Z;
  points_per_correct : Z;
  bonus_all_correct : Z;
  penalty_all_wrong : Z }.

Definition set_status (s : game_status) (g : row) : row :=
  mk (id g) (code g) (creator_id g) (current_vip_id g) s (target_score g)
     (points_per_correct g) (bonus_all_correct g) (penalty_all_wrong g).

Definition set_current_vip_id (v : option uuid) (g : row) : row :=
  mk (id g) (code g) (creator_id g) v (status g) (target_score g)
     (points_per_correct g) (bonus_all_correct g) (penalty_all_wrong g).
End Games.

Module GamePlayers.
Record row := mk {
  game_id : uuid;
  user_id : uuid;
  username : string;
  score : Z }.

Definition set_score (s : Z) (p : row) : row :=
  mk (game_id p) (user_id p) (username p) s.
End GamePlayers.

Module Rounds.
Record row := mk {
  id : uuid;
  game_id : uuid;
  round_number : Z;
  topic_id : uuid;
  vip_id : uuid;
  status : round_status;
  reveal_index : Z }.

Definition set_status (s : round_status) (r : row) : row :=
  mk (id r) (game_id r) (round_number r) (topic_id r) (vip_id r) s
     (reveal_index r).

Definition set_reveal_index (i : Z) (r : row) : row :=
  mk (id r) (game_id r) (round_number r) (topic_id r) (vip_id r)
     (status r) i.
End Rounds.

Module Rankings.
Record row := mk {
  round_id : uuid;
  item_id : uuid;
  position : Z }.
End Rankings.

Module Guesses.
Record row := mk {
  round_id : uuid;
  user_id : uuid;
  item_id : uuid;
  position : Z;
  is_correct : option bool }.
End Guesses.

Module TopicItems.
Record row := mk {
  id : uuid;
  topic_id : uuid;
  name : string;
  position : Z }.
End TopicItems.

Module Profiles.
Record row := mk {
  id : uuid;
  username : string }.
End Profiles.

(** ** The database *)

Record database := mkdb {
  games : list Games.row;
  game_players : list GamePlayers.row;
  rounds : list Rounds.row;
  rankings : list Rankings.row;
  guesses : list Guesses.row;
  topic_items : list TopicItems.row;
  topics : list uuid;
  profiles : list Profiles.row;
  next_uuid : uuid }.

Definition with_games (gs : list Games.row) (d : database) : database :=
  mkdb gs (game_players d) (rounds d) (rankings d) (guesses d)
       (topic_items d) (topics d) (profiles d) (next_uuid d).

Definition with_game_players (ps : list GamePlayers.row) (d : database)
  : database :=
  mkdb (games d) ps (rounds d) (rankings d) (guesses d)
       (topic_items d) (topics d) (profiles d) (next_uuid d).

Definition with_rounds (rs : list Rounds.row) (d : database) : database :=
  mkdb (games d) (game_players d) rs (rankings d) (guesses d)
       (topic_items d) (topics d) (profiles d) (next_uuid d).

Definition with_rankings (ks : list Rankings.row) (d : database) : database :=
  mkdb (games d) (game_players d) (rounds d) ks (guesses d)
       (topic_items d) (topics d) (profiles d) (next_uuid d).

Definition with_guesses (qs : list Guesses.row) (d : database) : database :=
  mkdb (games d) (game_players d) (rounds d) (rankings d) qs
       (topic_items d) (topics d) (profiles d) (next_uuid d).

Definition with_next_uuid (n : uuid) (d : database) : database :=
  mkdb (games d) (game_players d) (rounds d) (rankings d) (guesses d)
       (topic_items d) (topics d) (profiles d) n.

(** ** Responses of the client *)

Inductive pg_error :=
| unique_violation
| foreign_key_violation
| numeric_value_out_of_range
| not_single_row
| unavailable.

(** The [{ data, error }] object every request resolves to. *)
Record response (A : Type) := mkresp {
  data : option A;
  error : option pg_error }.

Definition ok {A} (a : A) : response A := mkresp (Some a) None.
Definition fail {A} (e : pg_error) : response A := mkresp None (Some e).
Definition no_content {A} : response A := mkresp None None.

(** [.single()]: exactly one row, or an error. *)
Definition single {A} (rows : list A) : response A :=
  match rows with
  | [x] => ok x
  | _ => fail not_single_row
  end.

(** [.maybeSingle()]: no row gives [data = null] without an error. *)
Definition maybeSingle {A} (rows : list A) : response A :=
  match rows with
  | [] => no_content
  | [x] => ok x
  | _ => fail not_single_row
  end.

Definition query (A : Type) := database -> response A * database.

Definition select {A} (f : database -> response A) : query A :=
  fun d => (f d, d).

(** The values of an [INTEGER] column. *)
Definition int4 (z : Z) : bool :=
  (-2147483648 <=? z)%Z && (z <=? 2147483647)%Z.

(** [has_dup eqb l]: two entries of [l] agree under [eqb]. *)
Fixpoint has_dup {A} (eqb : A -> A -> bool) (l : list A) : bool :=
  match l with
  | [] => false
  | x :: t => existsb (eqb x) t || has_dup eqb t
  end.

(** *** games *)

Definition games_by_id (gid : uuid) (d : database) : list Games.row :=
  filter (fun g => Games.id g =? gid) (games d).

Definition games_by_code (c : string) (d : database) : list Games.row :=
  filter (fun g => String.eqb (Games.code g) c) (games d).

(** [insert(...).select().single()] on [games]: [code] is [UNIQUE], [id]
    is the primary key drawn by [gen_random_uuid()]. *)
Definition insert_game (new : uuid -> Games.row) : query Games.row :=
  fun d =>
    let g := new (next_uuid d) in
    if existsb (fun g' => String.eqb (Games.code g') (Games.code g)) (games d)
       || existsb (fun g' => Games.id g' =? Games.id g) (games d)
    then (fail unique_violation, d)
    else (ok g, with_next_uuid (S (next_uuid d)) (with_games (games d ++ [g]) d)).

Definition update_games (gid : uuid) (f : Games.row -> Games.row)
  : query unit :=
  fun d =>
    (no_content,
     with_games (map (fun g => if Games.id g =? gid then f g else g) (games d)) d).

(** *** game_players *)

Definition players_of_game (gid : uuid) (d : database)
  : list GamePlayers.row :=
  filter (fun p => GamePlayers.game_id p =? gid) (game_players d).

Definition player_rows (gid uid : uuid) (d : database)
  : list GamePlayers.row :=
  filter (fun p => (GamePlayers.game_id p =? gid)
                   && (GamePlayers.user_id p =? uid)) (game_players d).

Definition insert_game_player (p : GamePlayers.row) : query unit :=
  fun d =>
    if existsb (fun g => Games.id g =? GamePlayers.game_id p) (games d)
    then
      if existsb (fun p' => (GamePlayers.game_id p' =? GamePlayers.game_id p)
                            && (GamePlayers.user_id p' =? GamePlayers.user_id p))
                 (game_players d)
      then (fail unique_violation, d)
      else (no_content, with_game_players (game_players d ++ [p]) d)
    else (fail foreign_key_violation, d).

(** [update({ score: s })]: a number that is no [INTEGER] is refused. *)
Definition update_player_score (gid uid : uuid) (s : Z) : query unit :=
  fun d =>
    if int4 s
    then (no_content,
          with_game_players
            (map (fun p => if (GamePlayers.game_id p =? gid)
                              && (GamePlayers.user_id p =? uid)
                           then GamePlayers.set_score s p else p)
                 (game_players d)) d)
    else (fail numeric_value_out_of_range, d).

(** *** profiles *)

Definition profile_by_id (uid : uuid) (d : database) : list Profiles.row :=
  filter (fun p => Profiles.id p =? uid) (profiles d).

(** *** rounds *)

Definition rounds_by_id (rid : uuid) (d : database) : list Rounds.row :=
  filter (fun r => Rounds.id r =? rid) (rounds d).

Definition insert_round (new : uuid -> Rounds.row) : query Rounds.row :=
  fun d =>
    let r := new (next_uuid d) in
    if negb (existsb (fun g => Games.id g =? Rounds.game_id r) (games d))
       || negb (existsb (Nat.eqb (Rounds.topic_id r)) (topics d))
    then (fail foreign_key_violation, d)
    else if existsb (fun r' => (Rounds.game_id r' =? Rounds.game_id r)
                               && (Rounds.round_number r' =? Rounds.round_number r)%Z)
                    (rounds d)
            || existsb (fun r' => Rounds.id r' =? Rounds.id r) (rounds d)
    then (fail unique_violation, d)
    else (ok r, with_next_uuid (S (next_uuid d)) (with_rounds (rounds d ++ [r]) d)).

(** [update(...).eq('id', rid)] with a change [f] of the status, or of
    the reveal index to a number that fits the column. *)
Definition update_rounds (rid : uuid) (f : Rounds.row -> Rounds.row)
  : query unit :=
  fun d =>
    (no_content,
     with_rounds (map (fun r => if Rounds.id r =? rid then f r else r) (rounds d)) d).

(** [update({ reveal_index: i })]: a number that is no [INTEGER] is
    refused. *)
Definition update_reveal_index (rid : uuid) (i : Z) : query unit :=
  fun d =>
    if int4 i
    then update_rounds rid (Rounds.set_reveal_index i) d
    else (fail numeric_value_out_of_range, d).

(** *** rankings *)

Definition rankings_of_round (rid : uuid) (d : database)
  : list Rankings.row :=
  filter (fun k => Rankings.round_id k =? rid) (rankings d).

Definition same_ranking_key (a b : Rankings.row) : bool :=
  (Rankings.round_id a =? Rankings.round_id b)
  && ((Rankings.item_id a =? Rankings.item_id b)
      || (Rankings.position a =? Rankings.position b)%Z).

Definition ranking_refs_ok (d : database) (k : Rankings.row) : bool :=
  existsb (fun r => Rounds.id r =? Rankings.round_id k) (rounds d)
  && existsb (fun i => TopicItems.id i =? Rankings.item_id k) (topic_items d).

(** One [INSERT] statement for the whole array: all rows or none.
    [UNIQUE(round_id, item_id)] and [UNIQUE(round_id, position)] hold
    among the new rows and against the stored ones. *)
Definition insert_rankings (ks : list Rankings.row) : query unit :=
  fun d =>
    if negb (forallb (ranking_refs_ok d) ks)
    then (fail foreign_key_violation, d)
    else if has_dup same_ranking_key ks
            || existsb (fun k => existsb (same_ranking_key k) (rankings d)) ks
    then (fail unique_violation, d)
    else (no_content, with_rankings (rankings d ++ ks) d).

(** *** guesses *)

Definition guesses_of_round (rid : uuid) (d : database) : list Guesses.row :=
  filter (fun q => Guesses.round_id q =? rid) (guesses d).

Definition same_guess_key (a b : Guesses.row) : bool :=
  (Guesses.round_id a =? Guesses.round_id b)
  && (Guesses.user_id a =? Guesses.user_id b)
  && ((Guesses.item_id a =? Guesses.item_id b)
      || (Guesses.position a =? Guesses.position b)%Z).

Definition guess_refs_ok (d : database) (q : Guesses.row) : bool :=
  existsb (fun r => Rounds.id r =? Guesses.round_id q) (rounds d)
  && existsb (fun i => TopicItems.id i =? Guesses.item_id q) (topic_items d).

Definition insert_guesses (qs : list Guesses.row) : query unit :=
  fun d =>
    if negb (forallb (guess_refs_ok d) qs)
    then (fail foreign_key_violation, d)
    else if has_dup same_guess_key qs
            || existsb (fun q => existsb (same_guess_key q) (guesses d)) qs
    then (fail unique_violation, d)
    else (no_content, with_guesses (guesses d ++ qs) d).

(** ** The world and the two layers of computation *)

Record world := mkworld {
  db : database;
  faults : list bool;       (* [true]: the next request is lost *)
  console : list string;    (* [console.error] *)
  toasts : list string }.   (* [description] of each toast *)

Definition with_db (d : database) (w : world) : world :=
  mkworld d (faults w) (console w) (toasts w).

(** What a [try] block can end with. *)
Inductive exn :=
| PgError (e : pg_error)
| JsError (msg : string)
| TypeError.

Inductive outcome (A : Type) :=
| Return (a : A)
| Throw (e : exn).
Arguments Throw {A} e.

(** An [async] function that always resolves. *)
Definition M (A : Type) := world -> A * world.

(** The body of a [try] block. *)
Definition T (A : Type) := M (outcome A).

Definition ret {A} (a : A) : T A := fun w => (Return a, w).

Definition throw {A} (e : exn) : T A := fun w => (Throw e, w).

Definition bind {A B} (m : T A) (k : A -> T B) : T B :=
  fun w =>
    match m w with
    | (Return a, w') => k a w'
    | (Throw e, w') => (Throw e, w')
    end.

Notation "x <- c ;; k" := (bind c (fun x => k))
  (at level 61, c at next level, right associativity).
Notation "c ;; k" := (bind c (fun _ => k))
  (at level 61, right associativity).

Definition lift {A} (m : M A) : T A :=
  fun w => let (a, w') := m w in (Return a, w').

Definition try_catch {A} (body : T A) (handler : exn -> M A) : M A :=
  fun w =>
    match body w with
    | (Return a, w') => (a, w')
    | (Throw e, w') => handler e w'
    end.

(** One round trip to the database. *)
Definition request {A} (q : query A) : T (response A) :=
  fun w =>
    match faults w with
    | true :: fs =>
        (Return (fail unavailable), mkworld (db w) fs (console w) (toasts w))
    | false :: fs =>
        let (r, d) := q (db w) in (Return r, mkworld d fs (console w) (toasts w))
    | [] =>
        let (r, d) := q (db w) in (Return r, with_db d w)
    end.

Definition console_error (msg : string) : M unit :=
  fun w => (tt, mkworld (db w) (faults w) (console w ++ [msg]) (toasts w)).

(** [console.error(msg, error); toast({ description }); return v]. *)
Definition report {A} (msg description : string) (v : A) : M A :=
  fun w =>
    (v, mkworld (db w) (faults w) (console w ++ [msg])
                (toasts w ++ [description])).

(** [for (const x of xs) { await body(x) }]. *)
Fixpoint for_of {A} (xs : list A) (body : A -> T unit) : T unit :=
  match xs with
  | [] => ret tt
  | x :: t => body x ;; for_of t body
  end.

(** ** JavaScript values used by the actions *)

Local Open Scope string_scope.

(** [s.substring(from, to)] for [from <= to]. *)
Definition js_substring (from to : nat) (s : string) : string :=
  String.substring from (to - from) s.

Definition upper_char (c : ascii) : ascii :=
  let n := nat_of_ascii c in
  if (97 <=? n)%nat && (n <=? 122)%nat then ascii_of_nat (n - 32) else c.

Fixpoint toUpperCase (s : string) : string :=
  match s with
  | EmptyString => EmptyString
  | String c t => String (upper_char c) (toUpperCase t)
  end.

(** Line 15, with [r] the text [Math.random().toString(36)]. *)
Definition join_code (r : string) : string :=
  toUpperCase (js_substring 2 8 r).

(** [profile?.username || 'Player'] *)
Definition username_or_Player (p : option Profiles.row) : string :=
  match p with
  | Some pr => if String.eqb (Profiles.username pr) "" then "Player"
               else Profiles.username pr
  | None => "Player"
  end.

Local Open Scope Z_scope.

(** A plain object with uuid keys and number values: its own properties in
    insertion order. *)
Definition object := list (uuid * Z).

Fixpoint obj_get (o : object) (k : uuid) : option Z :=
  match o with
  | [] => None
  | (k', v) :: t => if (k' =? k)%nat then Some v else obj_get t k
  end.

(** [o[k] = v]: an existing property keeps its place, a new one goes last. *)
Fixpoint obj_set (o : object) (k : uuid) (v : Z) : object :=
  match o with
  | [] => [(k, v)]
  | (k', v') :: t =>
      if (k' =? k)%nat then (k', v) :: t else (k', v') :: obj_set t k v
  end.

(** [o[k] += d] on a property that is present. *)
Definition obj_add (o : object) (k : uuid) (d : Z) : object :=
  match obj_get o k with
  | Some v => obj_set o k (v + d)
  | None => o
  end.

Definition obj_keys (o : object) : list uuid := map fst o.

(** Truthiness of a nullable boolean column. *)
Definition truthy (b : option bool) : bool :=
  match b with
  | Some true => true
  | _ => false
  end.

(** [players.findIndex(pred)]: the first index, or -1. *)
Fixpoint findIndex {A} (pred : A -> bool) (l : list A) : Z :=
  match l with
  | [] => -1
  | x :: t =>
      if pred x then 0
      else let i := findIndex pred t in if i <? 0 then -1 else i + 1
  end.

(** [a % b] for [a >= 0]; [None] is [NaN]. *)
Definition js_rem (a b : Z) : option Z :=
  if b =? 0 then None else Some (Z.rem a b).

(** [l[i]] with [i] a number or [NaN]. *)
Definition js_index {A} (l : list A) (i : option Z) : option A :=
  match i with
  | Some n => if n <? 0 then None else nth_error l (Z.to_nat n)
  | None => None
  end.

(** ** Scoring (lines 324-348 and 214-224) *)

(** The body of the first [guesses.forEach]. *)
Definition tally (ppc : Z) (o : object) (guess : Guesses.row) : object :=
  let u := Guesses.user_id guess in
  let o1 := match obj_get o u with
            | None | Some 0 => obj_set o u 0
            | Some _ => o
            end in
  if truthy (Guesses.is_correct guess) then obj_add o1 u ppc else o1.

(** The body of the [Object.keys(scoreUpdates).forEach]. *)
Definition adjust (bonus penalty : Z) (gs : list Guesses.row)
           (o : object) (userId : uuid) : object :=
  let userGuesses := filter (fun g => (Guesses.user_id g =? userId)%nat) gs in
  let allCorrect := forallb (fun g => truthy (Guesses.is_correct g)) userGuesses in
  let allWrong :=
    forallb (fun g => negb (truthy (Guesses.is_correct g))) userGuesses in
  if allCorrect then obj_add o userId bonus
  else if allWrong then obj_add o userId penalty
  else o.

(** [scoreUpdates] as it stands when the update loop starts. *)
Definition scoreUpdates (game : Games.row) (gs : list Guesses.row) : object :=
  let o := fold_left (tally (Games.points_per_correct game)) gs [] in
  fold_left (adjust (Games.bonus_all_correct game)
                    (Games.penalty_all_wrong game) gs)
            (obj_keys o) o.

(** An entry of the [guesses] argument of [submitGuess], or of the
    [rankings] argument of [submitVIPRanking]. *)
Record placement := mkplacement {
  itemId : uuid;
  position : Z }.

(** [correctRanking?.position === g.position] *)
Definition is_correct_against (rks : list Rankings.row) (g : placement)
  : bool :=
  match find (fun r => (Rankings.item_id r =? itemId g)%nat) rks with
  | Some r => Rankings.position r =? position g
  | None => false
  end.

Definition guessesWithCorrectness (roundId userId : uuid)
           (rks : list Rankings.row) (gs : list placement)
  : list Guesses.row :=
  map (fun g => Guesses.mk roundId userId (itemId g) (position g)
                           (Some (is_correct_against rks g))) gs.

(** ** The actions *)

Module Settings.
Record t := mk {
  target_score : option Z;
  points_per_correct : option Z;
  bonus_all_correct : option Z;
  penalty_all_wrong : option Z }.
End Settings.

(** A column of [...settings], or the column's [DEFAULT]. *)
Definition setting (f : Settings.t -> option Z) (s : option Settings.t)
           (default : Z) : Z :=
  match s with
  | Some t => match f t with Some v => v | None => default end
  | None => default
  end.

(** [r] is the text [Math.random().toString(36)] of line 15. *)
Definition createGame (r : string) (userId : uuid)
           (settings : option Settings.t) : M (option Games.row) :=
  try_catch
    (let code := join_code r in
     res <- request (insert_game (fun id =>
              Games.mk id code userId (Some userId) waiting
                (setting Settings.target_score settings 1000)
                (setting Settings.points_per_correct settings 100)
                (setting Settings.bonus_all_correct settings 200)
                (setting Settings.penalty_all_wrong settings (-50)))) ;;
     match error res, data res with
     | Some e, _ => throw (PgError e)
     | None, None => throw TypeError
     | None, Some game =>
         profile <- request (select (fun d => single (profile_by_id userId d))) ;;
         ins <- request (insert_game_player
                  (GamePlayers.mk (Games.id game) userId
                     (username_or_Player (data profile)) 0)) ;;
         match error ins with
         | Some e => throw (PgError e)
         | None => ret (Some game)
         end
     end)
    (fun _ => report "Error creating game:" "Failed to create game" None).

(** The game object of [joinGame] has the one column [id]. *)
Definition joinGame (code : string) (userId : uuid) : M (option uuid) :=
  try_catch
    (res <- request (select (fun d =>
              single (map Games.id (games_by_code code d)))) ;;
     match error res, data res with
     | Some _, _ => throw (JsError "Game not found")
     | None, None => throw TypeError
     | None, Some game =>
         existing <- request (select (fun d =>
                       maybeSingle (player_rows game userId d))) ;;
         match data existing with
         | Some _ => ret (Some game)
         | None =>
             profile <- request (select (fun d =>
                          single (profile_by_id userId d))) ;;
             ins <- request (insert_game_player
                      (GamePlayers.mk game userId
                         (username_or_Player (data profile)) 0)) ;;
             match error ins with
             | Some e => throw (PgError e)
             | None => ret (Some game)
             end
         end
     end)
    (fun _ => report "Error joining game:" "Failed to join game" None).

Definition startRound (gameId vipId : uuid) (roundNumber : Z) : M bool :=
  try_catch
    (request (update_games gameId (Games.set_status playing)) ;;
     ret true)
    (fun _ => report "Error starting round:" "Failed to start round" false).

Definition selectTopic (gameId topicId vipId : uuid) (roundNumber : Z)
  : M (option Rounds.row) :=
  try_catch
    (res <- request (insert_round (fun id =>
              Rounds.mk id gameId roundNumber topicId vipId vip_ranking 0)) ;;
     match error res with
     | Some e => throw (PgError e)
     | None => ret (data res)
     end)
    (fun _ => report "Error selecting topic:" "Failed to select topic" None).

Definition submitVIPRanking (roundId : uuid) (rankings : list placement)
  : M bool :=
  try_catch
    (ins <- request (insert_rankings
              (map (fun r => Rankings.mk roundId (itemId r) (position r))
                   rankings)) ;;
     match error ins with
     | Some e => throw (PgError e)
     | None =>
         upd <- request (update_rounds roundId
                           (Rounds.set_status player_guessing)) ;;
         match error upd with
         | Some e => throw (PgError e)
         | None => ret true
         end
     end)
    (fun _ => report "Error submitting VIP ranking:"
                     "Failed to submit ranking" false).

Definition submitGuess (roundId userId : uuid) (guesses : list placement)
  : M bool :=
  try_catch
    (res <- request (select (fun d => ok (rankings_of_round roundId d))) ;;
     match data res with
     | None => throw (JsError "Rankings not found")
     | Some rankings =>
         ins <- request (insert_guesses
                  (guessesWithCorrectness roundId userId rankings guesses)) ;;
         match error ins with
         | Some e => throw (PgError e)
         | None => ret true
         end
     end)
    (fun _ => report "Error submitting guess:" "Failed to submit guess" false).

Definition startReveal (roundId : uuid) : M bool :=
  try_catch
    (upd <- request (update_rounds roundId
               (fun r => Rounds.set_reveal_index 1
                           (Rounds.set_status revealing r))) ;;
     match error upd with
     | Some e => throw (PgError e)
     | None => ret true
     end)
    (fun _ => report "Error starting reveal:" "Failed to start reveal" false).

(** The body of the [for ... of Object.entries(scoreUpdates)] loop. *)
Definition apply_score_update (gameId : uuid) (entry : uuid * Z) : T unit :=
  let (userId, scoreChange) := entry in
  res <- request (select (fun d => single (player_rows gameId userId d))) ;;
  match data res with
  | Some player =>
      request (update_player_score gameId userId
                 (GamePlayers.score player + scoreChange)) ;;
      ret tt
  | None => ret tt
  end.

(** [fullGame?.target_score || 1000] *)
Definition targetScore_of (fullGame : option Games.row) : Z :=
  match fullGame with
  | Some g => if Games.target_score g =? 0 then 1000 else Games.target_score g
  | None => 1000
  end.

Definition calculateScores (roundId : uuid) : M unit :=
  try_catch
    (res <- request (select (fun d => single (rounds_by_id roundId d))) ;;
     match data res with
     | None => throw (JsError "Round not found")
     | Some round =>
     let gameId := Rounds.game_id round in
     res <- request (select (fun d => single (games_by_id gameId d))) ;;
     match data res with
     | None => throw (JsError "Game not found")
     | Some game =>
     res <- request (select (fun d => ok (guesses_of_round roundId d))) ;;
     match data res with
     | None => ret tt
     | Some guesses =>
     for_of (scoreUpdates game guesses) (apply_score_update gameId) ;;
     players <- request (select (fun d => ok (players_of_game gameId d))) ;;
     fullGame <- request (select (fun d => single (games_by_id gameId d))) ;;
     let targetScore := targetScore_of (data fullGame) in
     match data players with
     | Some ps =>
         if existsb (fun p => GamePlayers.score p >=? targetScore) ps
         then request (update_games gameId (Games.set_status finished)) ;;
              ret tt
         else ret tt
     | None => ret tt
     end
     end end end)
    (fun _ => console_error "Error calculating scores:").

Definition revealNext (roundId : uuid) (currentIndex totalItems : Z)
  : M bool :=
  try_catch
    (let nextIndex := currentIndex + 1 in
     (if nextIndex >? totalItems
      then request (update_rounds roundId (Rounds.set_status complete)) ;;
           lift (calculateScores roundId)
      else request (update_reveal_index roundId nextIndex) ;;
           ret tt) ;;
     ret true)
    (fun _ => report "Error revealing next:" "Failed to reveal next item" false).

Definition rotateVIP (gameId : uuid) (players : list GamePlayers.row)
  : M bool :=
  try_catch
    (res <- request (select (fun d => single (games_by_id gameId d))) ;;
     match data res with
     | None => ret false
     | Some game =>
         match Games.current_vip_id game with
         | None => ret false
         | Some vip =>
             let currentIndex :=
               findIndex (fun p => (GamePlayers.user_id p =? vip)%nat) players in
             let nextIndex :=
               js_rem (currentIndex + 1) (Z.of_nat (List.length players)) in
             match js_index players nextIndex with
             | None => throw TypeError
             | Some next =>
                 let nextVIP := GamePlayers.user_id next in
                 upd <- request (update_games gameId
                           (Games.set_current_vip_id (Some nextVIP))) ;;
                 match error upd with
                 | Some e => throw (PgError e)
                 | None => ret true
                 end
             end
         end
     end)
    (fun _ => fun w =>
       (false, mkworld (db w) (faults w)
                       (console w ++ ["Error rotating VIP:"%string]) (toasts w))).

Definition passVIP (gameId : uuid) (players : list GamePlayers.row) : M bool :=
  rotateVIP gameId players.

(** Every way the hook can be called. *)
Inductive action :=
| CreateGame (r : string) (userId : uuid) (settings : option Settings.t)
| JoinGame (code : string) (userId : uuid)
| StartRound (gameId vipId : uuid) (roundNumber : Z)
| SelectTopic (gameId topicId vipId : uuid) (roundNumber : Z)
| SubmitVIPRanking (roundId : uuid) (rankings : list placement)
| SubmitGuess (roundId userId : uuid) (guesses : list placement)
| StartReveal (roundId : uuid)
| RevealNext (roundId : uuid) (currentIndex totalItems : Z)
| RotateVIP (gameId : uuid) (players : list GamePlayers.row)
| PassVIP (gameId : uuid) (players : list GamePlayers.row).

(** The world after an action; the value it resolved to is dropped. *)
Definition perform (a : action) (w : world) : world :=
  match a with
  | CreateGame r u s => snd (createGame r u s w)
  | JoinGame c u => snd (joinGame c u w)
  | StartRound g v n => snd (startRound g v n w)
  | SelectTopic g t v n => snd (selectTopic g t v n w)
  | SubmitVIPRanking r ks => snd (submitVIPRanking r ks w)
  | SubmitGuess r u gs => snd (submitGuess r u gs w)
  | StartReveal r => snd (startReveal r w)
  | RevealNext r i n => snd (revealNext r i n w)
  | RotateVIP g ps => snd (rotateVIP g ps w)
  | PassVIP g ps => snd (passVIP g ps w)
  end.

(** ** What the claims speak of *)

Local Close Scope string_scope.

(** The guess [p] names the position the ranking gives to its item. *)
Definition matches_ranking (rks : list Rankings.row) (p : placement) : bool :=
  existsb (fun r => (Rankings.item_id r =? itemId p)%nat
                    && (Rankings.position r =? position p)) rks.

(** The guesses of player [u] among [gs], and how many are marked correct. *)
Definition guesses_by (u : uuid) (gs : list Guesses.row) : list Guesses.row :=
  filter (fun g => (Guesses.user_id g =? u)%nat) gs.

Definition correct_count (gs : list Guesses.row) : Z :=
  Z.of_nat (List.length (filter (fun g => truthy (Guesses.is_correct g)) gs)).

(** Bonus, penalty or nothing, from the number [k] of correct guesses out
    of [n]. *)
Definition all_or_nothing (game : Games.row) (k n : Z) : Z :=
  if k =? n then Games.bonus_all_correct game
  else if k =? 0 then Games.penalty_all_wrong game
  else 0.

(** Points the first pass adds for one guess row. *)
Definition tally_points (ppc : Z) (g : Guesses.row) : Z :=
  if truthy (Guesses.is_correct g) then ppc else 0.

(** What the second pass adds for player [u]. *)
Definition adjustment (bonus penalty : Z) (gs : list Guesses.row) (u : uuid)
  : Z :=
  if forallb (fun g => truthy (Guesses.is_correct g)) (guesses_by u gs)
  then bonus
  else if forallb (fun g => negb (truthy (Guesses.is_correct g)))
                  (guesses_by u gs)
  then penalty
  else 0.

(** The number of items of the round's topic. *)
Definition item_count (d : database) (r : Rounds.row) : Z :=
  Z.of_nat (List.length
    (filter (fun i => (TopicItems.topic_id i =? Rounds.topic_id r)%nat)
            (topic_items d))).

(** The world after one statement that went through. *)
Definition after {A} (q : query A) (w : world) : world :=
  with_db (snd (q (db w))) w.

(** The order [waiting < playing < finished]. *)
Definition rank (s : game_status) : nat :=
  match s with
  | waiting => 0
  | playing => 1
  | finished => 2
  end.

Definition is_StartRound (a : action) : bool :=
  match a with
  | StartRound _ _ _ => true
  | _ => false
  end.

(** [keeps R m]: running [m] takes every world to one related by [R]. *)
Definition keeps {A} (R : world -> world -> Prop) (m : M A) : Prop :=
  forall w, R w (snd (m w)).

(** Row by row, the [games] table keeps its ids and moves each status
    along [step]; rows may be added at the end. *)
Definition games_evolve (step : game_status -> game_status -> Prop)
           (w w' : world) : Prop :=
  forall i g,
    nth_error (games (db w)) i = Some g ->
    exists g', nth_error (games (db w')) i = Some g'
               /\ Games.id g' = Games.id g
               /\ step (Games.status g) (Games.status g').

Definition forward (s s' : game_status) : Prop := (rank s <= rank s')%nat.

Definition not_back_to_waiting (s s' : game_status) : Prop :=
  s' = waiting -> s = waiting.

(** No request is scheduled to fail. *)
Definition reliable (w w' : world) : Prop := faults w = [] -> faults w' = [].

(** The deltas [calculateScores] works out for a round, when its reads
    go through. *)
Definition round_deltas (roundId : uuid) (d : database) : object :=
  match rounds_by_id roundId d with
  | [round] =>
      match games_by_id (Rounds.game_id round) d with
      | [game] => scoreUpdates game (guesses_of_round roundId d)
      | _ => []
      end
  | _ => []
  end.

(** A player row before and after the score updates [su]: untouched, or
    raised once by the entry of its player. *)
Definition scored_or_not (su : object) (p p' : GamePlayers.row) : Prop :=
  p' = p
  \/ exists d, In (GamePlayers.user_id p, d) su
               /\ p' = GamePlayers.set_score (GamePlayers.score p + d) p.

(** The [games] table is left as it is. *)
Definition same_games (w w' : world) : Prop :=
  games (db w') = games (db w).

(** The [game_players] table is left as it is. *)
Definition same_players (w w' : world) : Prop :=
  game_players (db w') = game_players (db w).

(** Digits of base 36 as [toString(36)] writes them, and the characters
    a join code is made of. *)
Definition is_base36 (c : ascii) : bool :=
  let n := nat_of_ascii c in
  ((48 <=? n) && (n <=? 57) || (97 <=? n) && (n <=? 122))%nat.

Definition is_upper_alnum (c : ascii) : bool :=
  let n := nat_of_ascii c in
  ((48 <=? n) && (n <=? 57) || (65 <=? n) && (n <=? 90))%nat.

Fixpoint string_forall (f : ascii -> bool) (s : string) : bool :=
  match s with
  | EmptyString => true
  | String c t => f c && string_forall f t
  end.

(** ** A game played through

    Three players, a topic of three items, target score 300: the scenario
    the properties below are run on. *)

Module Example.

Definition alice : uuid := 1%nat.
Definition bob : uuid := 2%nat.
Definition carol : uuid := 3%nat.
Definition topic : uuid := 50%nat.
Definition itemA : uuid := 100%nat.
Definition itemB : uuid := 101%nat.
Definition itemC : uuid := 102%nat.
Definition the_game : uuid := 1000%nat.
Definition round1 : uuid := 1001%nat.

Definition seeded : database :=
  mkdb [] [] [] [] []
       [TopicItems.mk itemA topic "A"%string 1;
        TopicItems.mk itemB topic "B"%string 2;
        TopicItems.mk itemC topic "C"%string 3]
       [topic]
       [Profiles.mk alice "alice"%string; Profiles.mk bob "bob"%string;
        Profiles.mk carol "carol"%string]
       the_game.

Definition start : world := mkworld seeded [] [] [].

(** The rows the scenario goes through. *)
Definition game_row : Games.row :=
  Games.mk the_game "ABC123"%string alice (Some alice) waiting 300 100 200 (-50).
Definition bob_row : GamePlayers.row :=
  GamePlayers.mk the_game bob "bob"%string 0.
Definition carol_row : GamePlayers.row :=
  GamePlayers.mk the_game carol "carol"%string 0.
Definition round_row (s : round_status) (i : Z) : Rounds.row :=
  Rounds.mk round1 the_game 1 topic alice s i.

Definition config : Settings.t := Settings.mk (Some 300) None None None.

Definition created : world :=
  snd (createGame "0.abc123xyz"%string alice (Some config) start).
Definition bob_in : world := snd (joinGame "ABC123"%string bob created).
Definition joined : world := snd (joinGame "ABC123"%string carol bob_in).
Definition started : world := snd (startRound the_game alice 1 joined).
Definition chosen : world := snd (selectTopic the_game topic alice 1 started).

Definition vip_order : list placement :=
  [mkplacement itemA 0; mkplacement itemB 1; mkplacement itemC 2].

Definition ranked : world := snd (submitVIPRanking round1 vip_order chosen).

Definition vip_rows : list Rankings.row :=
  [Rankings.mk round1 itemA 0; Rankings.mk round1 itemB 1;
   Rankings.mk round1 itemC 2].

(** bob has one guess right, carol none. *)
Definition bob_order : list placement :=
  [mkplacement itemA 0; mkplacement itemB 2; mkplacement itemC 1].
Definition carol_order : list placement :=
  [mkplacement itemA 1; mkplacement itemB 2; mkplacement itemC 0].

Definition guessed : world :=
  snd (submitGuess round1 carol carol_order
         (snd (submitGuess round1 bob bob_order ranked))).
Definition revealed1 : world := snd (startReveal round1 guessed).
Definition revealed3 : world :=
  snd (revealNext round1 2 3 (snd (revealNext round1 1 3 revealed1))).
Definition scored : world := snd (revealNext round1 3 3 revealed3).

(** The last reveal step when the eighth request, the write of carol's
    score, is lost. *)
Definition flaky : world :=
  mkworld (db revealed3)
          [false; false; false; false; false; false; false; true] [] [].

(** The same round when bob has every guess right and wins. *)
Definition won : world :=
  let g := snd (submitGuess round1 carol carol_order
                  (snd (submitGuess round1 bob vip_order ranked))) in
  let r1 := snd (startReveal round1 g) in
  let r3 := snd (revealNext round1 2 3 (snd (revealNext round1 1 3 r1))) in
  snd (revealNext round1 3 3 r3).

End Example.

(** ** The state hook and the screens

    [useGameState] reads the game, its players in join order and its
    latest round; the screens derive what they show from these. *)

(** [array.sort(cmp)]: the stable sort by a comparator. *)
Fixpoint insert_sorted {A} (cmp : A -> A -> Z) (x : A) (l : list A) : list A :=
  match l with
  | [] => [x]
  | y :: t => if cmp x y <=? 0 then x :: l else y :: insert_sorted cmp x t
  end.

Definition js_sort {A} (cmp : A -> A -> Z) (l : list A) : list A :=
  fold_right (insert_sorted cmp) [] l.

(** The query of [fetchCurrentRound]:
    [.eq('game_id', gameId).order('round_number', { ascending: false })
     .limit(1).maybeSingle()]. *)
Definition latest_round (gameId : uuid) (d : database) : response Rounds.row :=
  maybeSingle
    (firstn 1
       (js_sort (fun a b => Rounds.round_number b - Rounds.round_number a)
                (filter (fun r => (Rounds.game_id r =? gameId)%nat) (rounds d)))).

(** [fetchCurrentRound]: the value given to [setCurrentRound]; with no
    [gameId] the state stays as it is, and an error is thrown on. *)
Definition fetchCurrentRound (gameId : option uuid)
           (currentRound : option Rounds.row) : T (option Rounds.row) :=
  match gameId with
  | None => ret currentRound
  | Some g =>
      res <- request (select (latest_round g)) ;;
      match error res with
      | Some e => throw (PgError e)
      | None => ret (data res)
      end
  end.

(** A player as the screens hold it: [id] is the key of the
    [game_players] row. *)
Module Player.
Record t := mk {
  id : uuid;
  user_id : uuid;
  username : string;
  score : Z }.
End Player.

Module Scoreboard.
Record PlayerWithRoundPoints := mk {
  id : uuid;
  username : string;
  score : Z;
  previousScore : Z;
  roundPoints : Z }.

(** [calculateRoundPoints] of the round scoreboard: the value given to
    [setPlayersWithPoints]. *)
Definition calculateRoundPoints (players : list Player.t)
  : list PlayerWithRoundPoints :=
  js_sort (fun a b => score b - score a)
          (map (fun p => mk (Player.id p) (Player.username p) (Player.score p)
                            0 (Player.score p))
               players).

Definition checkForWinner (game : option Games.row)
           (playersWithPoints : list PlayerWithRoundPoints) : bool :=
  match game with
  | None => false
  | Some g => existsb (fun p => score p >=? Games.target_score g)
                      playersWithPoints
  end.
End Scoreboard.

(** The two counters of the guessing screen. *)
Record submission_status := mksubmission {
  hasSubmitted : bool;
  submittedCount : nat }.

(** [checkSubmissionStatus] of the guessing screen: the status after the
    call. *)
Definition checkSubmissionStatus (currentRound : option Rounds.row)
           (user : option uuid) (st : submission_status) : M submission_status :=
  match currentRound, user with
  | Some round, Some u =>
      try_catch
        (res <- request (select (fun d =>
                  ok (map Guesses.user_id
                          (guesses_of_round (Rounds.id round) d)))) ;;
         match error res with
         | Some e => throw (PgError e)
         | None =>
             let userIds := match data res with Some l => l | None => [] end in
             ret (mksubmission (existsb (Nat.eqb u) userIds)
                               (List.length (nodup Nat.eq_dec userIds)))
         end)
        (fun _ w =>
           (st, mkworld (db w) (faults w)
                        (console w ++ ["Error checking submission:"%string])
                        (toasts w)))
  | _, _ => fun w => (st, w)
  end.

(** [guesses.filter(g => g.position === ranking.position + 1)] of the
    reveal screen: the guesses listed on the card of a ranking row.  The
    screen's guess objects carry the [position] of the guess rows. *)
Definition positionGuesses (ranking : Rankings.row)
           (guesses : list Guesses.row) : list Guesses.row :=
  filter (fun g => Guesses.position g =? Rankings.position ranking + 1)
         guesses.

(** The values [===] compares in [GameContext]. *)
Inductive js_value :=
| js_undefined
| js_null
| js_string (s : uuid).

Definition strict_eq (a b : js_value) : bool :=
  match a, b with
  | js_undefined, js_undefined => true
  | js_null, js_null => true
  | js_string x, js_string y => (x =? y)%nat
  | _, _ => false
  end.

(** [game?.current_vip_id === user?.id] *)
Definition isVIP (game : option Games.row) (user : option uuid) : bool :=
  strict_eq
    (match game with
     | None => js_undefined
     | Some g => match Games.current_vip_id g with
                 | None => js_null
                 | Some v => js_string v
                 end
     end)
    (match user with None => js_undefined | Some u => js_string u end).

(** [game?.creator_id === user?.id] *)
Definition isCreator (game : option Games.row) (user : option uuid) : bool :=
  strict_eq
    (match game with
     | None => js_undefined
     | Some g => js_string (Games.creator_id g)
     end)
    (match user with None => js_undefined | Some u => js_string u end).

(** ** What the further properties speak of *)

(** [rotateVIP] called [k] times in a row with the same players. *)
Fixpoint rotate_times (k : nat) (gameId : uuid)
         (players : list GamePlayers.row) (w : world) : world :=
  match k with
  | O => w
  | S k' => rotate_times k' gameId players (snd (rotateVIP gameId players w))
  end.

(** A player row of game [gameId] after the score updates [su]: the delta
    of its player is added when the sum is an [INTEGER]. *)
Definition credited (gameId : uuid) (su : object) (p : GamePlayers.row)
  : GamePlayers.row :=
  if (GamePlayers.game_id p =? gameId)%nat
  then match obj_get su (GamePlayers.user_id p) with
       | Some d => if int4 (GamePlayers.score p + d)
                   then GamePlayers.set_score (GamePlayers.score p + d) p
                   else p
       | None => p
       end
  else p.

(** One entry of the score updates, on the whole table: the update is
    refused when the sum is no [INTEGER]. *)
Definition credit_entry (gameId : uuid) (ps : list GamePlayers.row)
           (e : uuid * Z) : list GamePlayers.row :=
  map (fun p => if (GamePlayers.game_id p =? gameId)%nat
                   && (GamePlayers.user_id p =? fst e)%nat
                   && int4 (GamePlayers.score p + snd e)
                then GamePlayers.set_score (GamePlayers.score p + snd e) p
                else p) ps.

Definition is_RevealNext (a : action) : bool :=
  match a with
  | RevealNext _ _ _ => true
  | _ => false
  end.

Definition is_CreateGame (a : action) : bool :=
  match a with
  | CreateGame _ _ _ => true
  | _ => false
  end.

(** The action resolved to its value of failure: null or false. *)
Definition failed (a : action) (w : world) : bool :=
  match a with
  | CreateGame r u s =>
      match fst (createGame r u s w) with None => true | Some _ => false end
  | JoinGame c u =>
      match fst (joinGame c u w) with None => true | Some _ => false end
  | StartRound g v n => negb (fst (startRound g v n w))
  | SelectTopic g t v n =>
      match fst (selectTopic g t v n w) with None => true | Some _ => false end
  | SubmitVIPRanking r ks => negb (fst (submitVIPRanking r ks w))
  | SubmitGuess r u gs => negb (fst (submitGuess r u gs w))
  | StartReveal r => negb (fst (startReveal r w))
  | RevealNext r i n => negb (fst (revealNext r i n w))
  | RotateVIP g ps => negb (fst (rotateVIP g ps w))
  | PassVIP g ps => negb (fst (passVIP g ps w))
  end.

(** Rows stay where they are and [same] relates each to what it has
    become; rows may be added at the end. *)
Definition rows_evolve {A} (same : A -> A -> Prop) (l l' : list A) : Prop :=
  forall i x, nth_error l i = Some x ->
              exists x', nth_error l' i = Some x' /\ same x x'.

(** The columns of a game no action writes. *)
Definition same_game_setup (g g' : Games.row) : Prop :=
  Games.id g' = Games.id g
  /\ Games.code g' = Games.code g
  /\ Games.creator_id g' = Games.creator_id g
  /\ Games.target_score g' = Games.target_score g
  /\ Games.points_per_correct g' = Games.points_per_correct g
  /\ Games.bonus_all_correct g' = Games.bonus_all_correct g
  /\ Games.penalty_all_wrong g' = Games.penalty_all_wrong g.

(** The columns of a round no action writes. *)
Definition same_round_identity (r r' : Rounds.row) : Prop :=
  Rounds.id r' = Rounds.id r
  /\ Rounds.game_id r' = Rounds.game_id r
  /\ Rounds.round_number r' = Rounds.round_number r
  /\ Rounds.topic_id r' = Rounds.topic_id r
  /\ Rounds.vip_id r' = Rounds.vip_id r.

(** The columns of a player row no action writes. *)
Definition same_player_identity (p p' : GamePlayers.row) : Prop :=
  GamePlayers.game_id p' = GamePlayers.game_id p
  /\ GamePlayers.user_id p' = GamePlayers.user_id p
  /\ GamePlayers.username p' = GamePlayers.username p.

(** Rankings and guesses stored before are still there, in place. *)
Definition history_kept (d d' : database) : Prop :=
  (exists ks, rankings d' = (rankings d ++ ks)%list)
  /\ (exists qs, guesses d' = (guesses d ++ qs)%list).

(** Topics, their items and the profiles are as they were. *)
Definition reference_kept (d d' : database) : Prop :=
  topic_items d' = topic_items d
  /\ topics d' = topics d
  /\ profiles d' = profiles d.

Definition games_setup_kept (d d' : database) : Prop :=
  rows_evolve same_game_setup (games d) (games d').

Definition rounds_kept (d d' : database) : Prop :=
  rows_evolve same_round_identity (rounds d) (rounds d').

Definition players_kept (d d' : database) : Prop :=
  rows_evolve same_player_identity (game_players d) (game_players d').

(** The player rows stored before are untouched. *)
Definition players_frozen (d d' : database) : Prop :=
  exists new, game_players d' = (game_players d ++ new)%list.

(** A game with target score 0, played up to the last reveal step: bob
    has every guess right. *)
Module ZeroTarget.

Definition config : Settings.t := Settings.mk (Some 0) None None None.

Definition created : world :=
  snd (createGame "0.abc123xyz"%string Example.alice (Some config)
                  Example.start).

Definition game_row : Games.row :=
  Games.mk Example.the_game "ABC123"%string Example.alice (Some Example.alice)
           playing 0 100 200 (-50).

Definition guessed : world :=
  let joined := snd (joinGame "ABC123"%string Example.bob created) in
  let started := snd (startRound Example.the_game Example.alice 1 joined) in
  let chosen :=
    snd (selectTopic Example.the_game Example.topic Example.alice 1 started) in
  let ranked :=
    snd (submitVIPRanking Example.round1 Example.vip_order chosen) in
  snd (submitGuess Example.round1 Example.bob Example.vip_order ranked).

End ZeroTarget.

(** * Properties *)

(** ** Objects *)

Lemma obj_get_set o k v k' :
  obj_get (obj_set o k v) k' = if (k =? k')%nat then Some v else obj_get o k'.
Proof.
  induction o as [|[a b] t IH]; simpl.
  - destruct (Nat.eqb_spec k k'); reflexivity.
  - destruct (Nat.eqb_spec a k) as [->|Hak]; simpl.
    + destruct (Nat.eqb_spec k k'); reflexivity.
    + rewrite IH. destruct (Nat.eqb_spec a k') as [->|Hak'].
      * destruct (Nat.eqb_spec k k'); congruence.
      * reflexivity.
Qed.

Lemma obj_get_add o k d k' :
  obj_get (obj_add o k d) k' =
  if (k =? k')%nat then option_map (fun v => v + d) (obj_get o k')
  else obj_get o k'.
Proof.
  unfold obj_add. destruct (obj_get o k) as [v|] eqn:E.
  - rewrite obj_get_set. destruct (Nat.eqb_spec k k') as [<-|]; [|reflexivity].
    rewrite E. reflexivity.
  - destruct (Nat.eqb_spec k k') as [<-|]; [|reflexivity].
    rewrite E. reflexivity.
Qed.

Lemma obj_get_In_keys o k : In k (obj_keys o) <-> obj_get o k <> None.
Proof.
  induction o as [|[a b] t IH]; simpl.
  - intuition congruence.
  - destruct (Nat.eqb_spec a k) as [->|Hak].
    + split; [congruence | auto].
    + rewrite <- IH. intuition congruence.
Qed.

Lemma obj_keys_set_present o k v :
  In k (obj_keys o) -> obj_keys (obj_set o k v) = obj_keys o.
Proof.
  induction o as [|[a b] t IH]; simpl; [tauto|].
  intros H. destruct (Nat.eqb_spec a k) as [->|Hak]; simpl; [reflexivity|].
  f_equal. apply IH. destruct H; congruence.
Qed.

Lemma obj_keys_set_absent o k v :
  ~ In k (obj_keys o) -> obj_keys (obj_set o k v) = obj_keys o ++ [k].
Proof.
  induction o as [|[a b] t IH]; simpl; [reflexivity|].
  intros H. destruct (Nat.eqb_spec a k) as [->|Hak]; simpl; [tauto|].
  f_equal. apply IH. tauto.
Qed.

Lemma obj_keys_add o k d : obj_keys (obj_add o k d) = obj_keys o.
Proof.
  unfold obj_add. destruct (obj_get o k) eqn:E; [|reflexivity].
  apply obj_keys_set_present, obj_get_In_keys. congruence.
Qed.

Lemma NoDup_snoc {A} (l : list A) (x : A) :
  NoDup l -> ~ In x l -> NoDup (l ++ [x]).
Proof.
  intros Hl Hx. induction Hl as [|a l Ha Hl IH]; simpl.
  - constructor; [tauto | constructor].
  - constructor.
    + rewrite in_app_iff. simpl in *. intuition congruence.
    + apply IH. simpl in Hx. tauto.
Qed.

Lemma obj_keys_set_NoDup o k v :
  NoDup (obj_keys o) -> NoDup (obj_keys (obj_set o k v)).
Proof.
  intros H. destruct (in_dec Nat.eq_dec k (obj_keys o)) as [Hin|Hout].
  - rewrite obj_keys_set_present; assumption.
  - rewrite obj_keys_set_absent by assumption. apply NoDup_snoc; assumption.
Qed.

(** ** The two passes of the scoring *)

Lemma tally_get ppc o g u :
  obj_get (tally ppc o g) u =
  if (Guesses.user_id g =? u)%nat
  then Some (match obj_get o u with Some v => v | None => 0 end
             + tally_points ppc g)
  else obj_get o u.
Proof.
  unfold tally, tally_points.
  set (o1 := match obj_get o (Guesses.user_id g) with
             | Some 0 | None => obj_set o (Guesses.user_id g) 0
             | Some _ => o
             end).
  assert (H1 : forall k, obj_get o1 k =
                 if (Guesses.user_id g =? k)%nat
                 then Some (match obj_get o k with Some v => v | None => 0 end)
                 else obj_get o k).
  { intros k. subst o1.
    destruct (Nat.eqb_spec (Guesses.user_id g) k) as [<-|Hk].
    - destruct (obj_get o (Guesses.user_id g)) as [[|p|p]|] eqn:E;
        rewrite ?obj_get_set, ?Nat.eqb_refl, ?E; reflexivity.
    - destruct (obj_get o (Guesses.user_id g)) as [[|p|p]|] eqn:E;
        rewrite ?obj_get_set; try reflexivity;
        destruct (Nat.eqb_spec (Guesses.user_id g) k); congruence. }
  destruct (truthy (Guesses.is_correct g)).
  - rewrite obj_get_add, H1.
    destruct (Nat.eqb_spec (Guesses.user_id g) u); reflexivity.
  - rewrite H1. destruct (Nat.eqb_spec (Guesses.user_id g) u);
      [rewrite Z.add_0_r|]; reflexivity.
Qed.

Lemma tally_keys_NoDup ppc o g :
  NoDup (obj_keys o) -> NoDup (obj_keys (tally ppc o g)).
Proof.
  intros H. unfold tally.
  assert (H1 : NoDup (obj_keys
            match obj_get o (Guesses.user_id g) with
            | Some 0 | None => obj_set o (Guesses.user_id g) 0
            | Some _ => o
            end)).
  { destruct (obj_get o (Guesses.user_id g)) as [[|p|p]|];
      auto using obj_keys_set_NoDup. }
  destruct (truthy (Guesses.is_correct g)); [|exact H1].
  rewrite obj_keys_add. exact H1.
Qed.

Lemma fold_tally_keys_NoDup ppc gs o :
  NoDup (obj_keys o) -> NoDup (obj_keys (fold_left (tally ppc) gs o)).
Proof.
  revert o. induction gs as [|g gs IH]; simpl; intros o H; [exact H|].
  apply IH, tally_keys_NoDup, H.
Qed.

Lemma correct_count_cons g gs :
  correct_count (g :: gs) =
  (if truthy (Guesses.is_correct g) then 1 else 0) + correct_count gs.
Proof.
  unfold correct_count. simpl. destruct (truthy (Guesses.is_correct g));
    simpl List.length; lia.
Qed.

Lemma fold_tally_get ppc gs o u :
  obj_get (fold_left (tally ppc) gs o) u =
  match obj_get o u, guesses_by u gs with
  | None, [] => None
  | None, _ => Some (correct_count (guesses_by u gs) * ppc)
  | Some v, _ => Some (v + correct_count (guesses_by u gs) * ppc)
  end.
Proof.
  revert o. induction gs as [|g gs IH]; intros o.
  - simpl. destruct (obj_get o u); [f_equal; cbn; lia | reflexivity].
  - cbn [fold_left]. rewrite IH, tally_get. unfold guesses_by in *.
    cbn [filter]. destruct (Nat.eqb_spec (Guesses.user_id g) u) as [<-|Hne].
    + fold (guesses_by (Guesses.user_id g) gs).
      rewrite correct_count_cons. unfold tally_points.
      destruct (obj_get o (Guesses.user_id g)),
        (truthy (Guesses.is_correct g)); f_equal; lia.
    + reflexivity.
Qed.

Lemma adjust_get bonus penalty gs o k u :
  obj_get (adjust bonus penalty gs o k) u =
  if (k =? u)%nat
  then option_map (fun v => v + adjustment bonus penalty gs u) (obj_get o u)
  else obj_get o u.
Proof.
  unfold adjust, adjustment.
  destruct (Nat.eqb_spec k u) as [->|Hne].
  - fold (guesses_by u gs).
    destruct (forallb _ (guesses_by u gs));
      [|destruct (forallb _ (guesses_by u gs))];
      rewrite ?obj_get_add, ?Nat.eqb_refl; try reflexivity.
    destruct (obj_get o u); simpl; [f_equal; lia | reflexivity].
  - fold (guesses_by k gs).
    destruct (forallb _ (guesses_by k gs));
      [|destruct (forallb _ (guesses_by k gs))];
      rewrite ?obj_get_add; try reflexivity;
      destruct (Nat.eqb_spec k u); congruence.
Qed.

Lemma fold_adjust_get bonus penalty gs ks o u :
  NoDup ks ->
  obj_get (fold_left (adjust bonus penalty gs) ks o) u =
  if existsb (Nat.eqb u) ks
  then option_map (fun v => v + adjustment bonus penalty gs u) (obj_get o u)
  else obj_get o u.
Proof.
  intros Hks. revert o. induction Hks as [|k ks Hk Hks IH]; intros o.
  - reflexivity.
  - cbn [fold_left existsb]. rewrite IH, adjust_get.
    rewrite (Nat.eqb_sym u k).
    destruct (Nat.eqb_spec k u) as [->|Hne]; simpl; [|reflexivity].
    replace (existsb (Nat.eqb u) ks) with false; [reflexivity|].
    symmetry. apply not_true_is_false. rewrite existsb_exists.
    intros [x [Hx Hux]]. apply Nat.eqb_eq in Hux. subst x. contradiction.
Qed.

(** What [scoreUpdates] holds for a player, in terms of the stored flags. *)
Lemma scoreUpdates_get game gs u :
  obj_get (scoreUpdates game gs) u =
  match guesses_by u gs with
  | [] => None
  | _ => Some (correct_count (guesses_by u gs) * Games.points_per_correct game
               + adjustment (Games.bonus_all_correct game)
                            (Games.penalty_all_wrong game) gs u)
  end.
Proof.
  unfold scoreUpdates.
  set (o := fold_left (tally (Games.points_per_correct game)) gs []).
  assert (Ho : obj_get o u =
               match guesses_by u gs with
               | [] => None
               | _ => Some (correct_count (guesses_by u gs)
                            * Games.points_per_correct game)
               end).
  { subst o. rewrite fold_tally_get. reflexivity. }
  rewrite fold_adjust_get
    by (subst o; apply fold_tally_keys_NoDup; constructor).
  destruct (existsb (Nat.eqb u) (obj_keys o)) eqn:E.
  - rewrite Ho. destruct (guesses_by u gs); reflexivity.
  - rewrite Ho. destruct (guesses_by u gs) eqn:G; [reflexivity|].
    exfalso. apply not_true_iff_false in E. apply E.
    rewrite existsb_exists. exists u. split; [|apply Nat.eqb_refl].
    apply obj_get_In_keys. rewrite Ho. discriminate.
Qed.

Lemma scoreUpdates_keys_NoDup game gs : NoDup (obj_keys (scoreUpdates game gs)).
Proof.
  unfold scoreUpdates.
  set (o := fold_left (tally (Games.points_per_correct game)) gs []).
  assert (Ho : NoDup (obj_keys o))
    by (subst o; apply fold_tally_keys_NoDup; constructor).
  assert (Hk : forall ks o', obj_keys o' = obj_keys o ->
            obj_keys (fold_left (adjust (Games.bonus_all_correct game)
                        (Games.penalty_all_wrong game) gs) ks o') = obj_keys o).
  { induction ks as [|k ks IH]; intros o' Ho'; simpl; [exact Ho'|].
    apply IH. unfold adjust.
    repeat match goal with |- context [if ?b then _ else _] => destruct b end;
      rewrite ?obj_keys_add; exact Ho'. }
  rewrite Hk by reflexivity. exact Ho.
Qed.

(** ** The flags [submitGuess] stores *)

Lemma forallb_count {A} (f : A -> bool) (l : list A) :
  forallb f l = (List.length (filter f l) =? List.length l)%nat.
Proof.
  assert (Hle : forall l', (List.length (filter f l') <= List.length l')%nat)
    by (intros l'; apply filter_length_le).
  induction l as [|x t IH]; simpl; [reflexivity|].
  destruct (f x); simpl; [exact IH|].
  symmetry. apply Nat.eqb_neq. specialize (Hle t). lia.
Qed.

Lemma forallb_negb_count {A} (f : A -> bool) (l : list A) :
  forallb (fun x => negb (f x)) l = (List.length (filter f l) =? 0)%nat.
Proof.
  induction l as [|x t IH]; simpl; [reflexivity|].
  destruct (f x); simpl; [reflexivity | exact IH].
Qed.

Lemma adjustment_all_or_nothing game gs u :
  adjustment (Games.bonus_all_correct game) (Games.penalty_all_wrong game) gs u
  = all_or_nothing game (correct_count (guesses_by u gs))
                   (Z.of_nat (List.length (guesses_by u gs))).
Proof.
  unfold adjustment, all_or_nothing, correct_count.
  rewrite forallb_count, forallb_negb_count.
  set (k := List.length (filter _ (guesses_by u gs))).
  set (n := List.length (guesses_by u gs)).
  destruct (Nat.eqb_spec k n) as [Hkn|Hkn].
  - rewrite Hkn, Z.eqb_refl. reflexivity.
  - destruct (Z.eqb_spec (Z.of_nat k) (Z.of_nat n)) as [E|_]; [lia|].
    destruct (Nat.eqb_spec k 0) as [->|Hk]; [reflexivity|].
    destruct (Z.eqb_spec (Z.of_nat k) 0); [lia | reflexivity].
Qed.

Lemma is_correct_against_matches rks p :
  NoDup (map Rankings.item_id rks) ->
  is_correct_against rks p = matches_ranking rks p.
Proof.
  unfold is_correct_against, matches_ranking.
  induction rks as [|r rks IH]; simpl; intros Hnd; [reflexivity|].
  inversion Hnd as [|? ? Hr Hnd']; subst.
  destruct (Nat.eqb_spec (Rankings.item_id r) (itemId p)) as [E|E]; simpl.
  - replace (existsb _ rks) with false; [rewrite orb_false_r; reflexivity|].
    symmetry. apply not_true_is_false. rewrite existsb_exists.
    intros [x [Hx Hm]]. apply andb_prop in Hm. destruct Hm as [Hm _].
    apply Nat.eqb_eq in Hm. apply Hr. rewrite E, <- Hm.
    apply in_map, Hx.
  - apply IH, Hnd'.
Qed.

Lemma correct_count_stored roundId u rks ps :
  NoDup (map Rankings.item_id rks) ->
  correct_count (guessesWithCorrectness roundId u rks ps) =
  Z.of_nat (List.length (filter (matches_ranking rks) ps)).
Proof.
  intros Hnd. unfold correct_count, guessesWithCorrectness. f_equal.
  induction ps as [|p ps IH]; simpl; [reflexivity|].
  rewrite is_correct_against_matches by exact Hnd.
  destruct (matches_ranking rks p); simpl; rewrite IH; reflexivity.
Qed.

(** What an accepted [submitGuess] adds to the [guesses] table: the rows
    of [guessesWithCorrectness] against the round's stored ranking. *)
Lemma submitGuess_stores (w : world) (roundId userId : uuid)
      (gs : list placement) :
  faults w = [] ->
  fst (submitGuess roundId userId gs w) = true ->
  guesses (db (snd (submitGuess roundId userId gs w)))
  = (guesses (db w)
     ++ guessesWithCorrectness roundId userId
          (rankings_of_round roundId (db w)) gs)%list.
Proof.
  destruct w as [d fs c t]. simpl. intros ->.
  unfold submitGuess, try_catch, bind, request, report, ret, throw, select.
  simpl. unfold insert_guesses.
  repeat match goal with
         | |- context [if ?b then _ else _] => destruct b; simpl
         end; try discriminate.
  reflexivity.
Qed.

(** ** Relations every step of a computation keeps *)

Section Keeps.
Variable R : world -> world -> Prop.
Hypothesis R_refl : forall w, R w w.
Hypothesis R_trans : forall a b c, R a b -> R b c -> R a c.

Lemma keeps_ret A (a : A) : keeps R (ret a).
Proof. intros w. apply R_refl. Qed.

Lemma keeps_throw A (e : exn) : keeps R (@throw A e).
Proof. intros w. apply R_refl. Qed.

Lemma keeps_bind A B (m : T A) (k : A -> T B) :
  keeps R m -> (forall a, keeps R (k a)) -> keeps R (bind m k).
Proof.
  intros Hm Hk w. unfold bind. specialize (Hm w).
  destruct (m w) as [[a|e] w1]; simpl in *; [|exact Hm].
  eapply R_trans; [exact Hm | apply Hk].
Qed.

Lemma keeps_lift A (m : M A) : keeps R m -> keeps R (lift m).
Proof.
  intros Hm w. unfold lift. specialize (Hm w).
  destruct (m w) as [a w1]. exact Hm.
Qed.

Lemma keeps_try_catch A (body : T A) (handler : exn -> M A) :
  keeps R body -> (forall e, keeps R (handler e)) ->
  keeps R (try_catch body handler).
Proof.
  intros Hb Hh w. unfold try_catch. specialize (Hb w).
  destruct (body w) as [[a|e] w1]; simpl in *; [exact Hb|].
  eapply R_trans; [exact Hb | apply Hh].
Qed.

Lemma keeps_for_of A (xs : list A) (body : A -> T unit) :
  (forall x, keeps R (body x)) -> keeps R (for_of xs body).
Proof.
  intros Hb. induction xs as [|x t IH]; simpl.
  - apply keeps_ret.
  - apply keeps_bind; [apply Hb | intros _; exact IH].
Qed.
End Keeps.

(** Splits a computation into its requests and its logging. *)
Ltac keeps_steps :=
  repeat first
    [ apply keeps_try_catch; try assumption; intros
    | apply keeps_bind; try assumption; intros
    | apply keeps_for_of; try assumption; intros
    | apply keeps_lift
    | apply keeps_ret; assumption
    | apply keeps_throw; assumption
    | match goal with
      | |- keeps _ (match ?x with _ => _ end) => destruct x
      | |- keeps _ (let (_, _) := ?x in _) => destruct x
      | |- keeps _ (let _ := _ in _) => cbv zeta
      end ].

(** A request keeps a relation that looks at the database only, as soon
    as its statement does. *)
Lemma keeps_request (Rd : database -> database -> Prop) A (q : query A) :
  (forall d, Rd d d) -> (forall d, Rd d (snd (q d))) ->
  keeps (fun w w' => Rd (db w) (db w')) (request q).
Proof.
  intros Hrefl Hq w. unfold request.
  destruct (faults w) as [|[|] fs]; simpl.
  - specialize (Hq (db w)). destruct (q (db w)). exact Hq.
  - apply Hrefl.
  - specialize (Hq (db w)). destruct (q (db w)). exact Hq.
Qed.

Lemma request_reliable A (q : query A) : keeps reliable (request q).
Proof.
  intros w Hf. unfold request. rewrite Hf. destruct (q (db w)). exact Hf.
Qed.

Lemma reliable_refl w : reliable w w.
Proof. intros H. exact H. Qed.

Lemma reliable_trans a b c : reliable a b -> reliable b c -> reliable a c.
Proof. unfold reliable. auto. Qed.

Lemma calculateScores_reliable roundId : keeps reliable (calculateScores roundId).
Proof.
  pose proof reliable_refl as Hr. pose proof reliable_trans as Ht.
  unfold calculateScores, apply_score_update.
  keeps_steps; try apply request_reliable.
  intros w Hf. exact Hf.
Qed.

(** ** C6: the status of a game *)

Section GamesEvolve.
Variable step : game_status -> game_status -> Prop.
Hypothesis step_refl : forall s, step s s.
Hypothesis step_trans : forall a b c, step a b -> step b c -> step a c.

Lemma games_evolve_same w w' :
  games (db w') = games (db w) -> games_evolve step w w'.
Proof.
  intros E i g Hg. exists g. rewrite E. auto.
Qed.

Lemma games_evolve_refl w : games_evolve step w w.
Proof. apply games_evolve_same. reflexivity. Qed.

Lemma games_evolve_trans a b c :
  games_evolve step a b -> games_evolve step b c -> games_evolve step a c.
Proof.
  intros Hab Hbc i g Hg.
  destruct (Hab i g Hg) as [g1 [H1 [I1 S1]]].
  destruct (Hbc i g1 H1) as [g2 [H2 [I2 S2]]].
  exists g2. repeat split; [exact H2 | congruence | eauto].
Qed.

(** A statement that leaves [games] alone or adds a row at its end. *)
Lemma request_games_grow A (q : query A) :
  (forall d, exists new, games (snd (q d)) = games d ++ new) ->
  keeps (games_evolve step) (request q).
Proof.
  intros Hq.
  apply (keeps_request (fun d d' => forall i g,
           nth_error (games d) i = Some g ->
           exists g', nth_error (games d') i = Some g'
                      /\ Games.id g' = Games.id g
                      /\ step (Games.status g) (Games.status g'))).
  - intros d i g Hg. exists g. auto.
  - intros d i g Hg. destruct (Hq d) as [new E]. exists g. rewrite E.
    rewrite nth_error_app1 by (apply nth_error_Some; congruence). auto.
Qed.

(** [update_games] with a change of row that keeps the id and moves the
    status along [step]. *)
Lemma request_update_games gameId (f : Games.row -> Games.row) :
  (forall g, Games.id (f g) = Games.id g) ->
  (forall g, step (Games.status g) (Games.status (f g))) ->
  keeps (games_evolve step) (request (update_games gameId f)).
Proof.
  intros Hid Hst.
  apply (keeps_request (fun d d' => forall i g,
           nth_error (games d) i = Some g ->
           exists g', nth_error (games d') i = Some g'
                      /\ Games.id g' = Games.id g
                      /\ step (Games.status g) (Games.status g'))).
  - intros d i g Hg. exists g. auto.
  - intros d i g Hg. simpl. rewrite nth_error_map, Hg. simpl.
    destruct (Games.id g =? gameId)%nat; eauto.
Qed.

Lemma log_games_evolve A (m : M A) :
  (forall w, db (snd (m w)) = db w) -> keeps (games_evolve step) m.
Proof.
  intros H w. apply games_evolve_same. rewrite H. reflexivity.
Qed.
End GamesEvolve.

Lemma forward_refl s : forward s s.
Proof. unfold forward. lia. Qed.

Lemma forward_trans a b c : forward a b -> forward b c -> forward a c.
Proof. unfold forward. lia. Qed.

Lemma not_back_refl s : not_back_to_waiting s s.
Proof. intros H. exact H. Qed.

Lemma not_back_trans a b c :
  not_back_to_waiting a b -> not_back_to_waiting b c -> not_back_to_waiting a c.
Proof. unfold not_back_to_waiting. auto. Qed.

Lemma forward_not_back s s' : forward s s' -> not_back_to_waiting s s'.
Proof.
  unfold forward, not_back_to_waiting. intros H ->.
  destruct s; simpl in H; [reflexivity | lia | lia].
Qed.

(** The statements that never touch an existing row of [games]. *)
Ltac games_grow :=
  intros ?d;
  unfold select, insert_game, insert_game_player, insert_round,
    insert_rankings, insert_guesses, update_reveal_index, update_rounds,
    update_player_score;
  cbv zeta;
  repeat match goal with
         | |- context [if ?b then _ else _] => destruct b
         end;
  simpl;
  first [ exists []; rewrite app_nil_r; reflexivity
        | eexists; reflexivity ].

Ltac games_evolve_steps :=
  keeps_steps;
  first [ apply request_games_grow; [assumption | games_grow]
        | apply log_games_evolve; [assumption | reflexivity]
        | idtac ].

Lemma perform_forward (a : action) :
  is_StartRound a = false -> forall w, games_evolve forward w (perform a w).
Proof.
  pose proof forward_refl as Hr.
  pose proof (@games_evolve_refl forward forward_refl) as Hrefl.
  pose proof (@games_evolve_trans forward forward_trans) as Htrans.
  assert (Hgoal : forall A (m : M A),
            keeps (games_evolve forward) m ->
            forall w, games_evolve forward w (snd (m w)))
    by (intros A m H; exact H).
  destruct a; simpl; intros Hs; try discriminate; intros w; apply Hgoal;
    unfold createGame, joinGame, selectTopic, submitVIPRanking, submitGuess,
      startReveal, revealNext, calculateScores, apply_score_update,
      passVIP, rotateVIP;
    games_evolve_steps;
    (apply request_update_games;
     [ exact Hr | reflexivity
     | intros g; unfold forward; simpl; destruct (Games.status g);
       simpl; lia ]).
Qed.

Lemma startRound_not_back gameId vipId roundNumber :
  keeps (games_evolve not_back_to_waiting) (startRound gameId vipId roundNumber).
Proof.
  pose proof not_back_refl as Hr.
  pose proof (@games_evolve_refl not_back_to_waiting not_back_refl) as Hrefl.
  pose proof (@games_evolve_trans not_back_to_waiting not_back_trans) as Htrans.
  unfold startRound. games_evolve_steps.
  apply request_update_games; [exact Hr | reflexivity |].
  intros g. unfold not_back_to_waiting. simpl. discriminate.
Qed.

(** What [startRound] leaves in the [games] table when its request goes
    through. *)
Lemma startRound_sets_playing gameId vipId roundNumber w :
  faults w = [] ->
  games (db (snd (startRound gameId vipId roundNumber w))) =
  map (fun g => if (Games.id g =? gameId)%nat
                then Games.set_status playing g else g) (games (db w)).
Proof.
  destruct w as [d fs c t]. simpl. intros ->. reflexivity.
Qed.

(** C6, as the code has it.  Under every action, with any of its
    requests failing, every game row stays in place with its id, its
    status never returns to [waiting], and unless the action is
    [startRound] its status does not move backward along
    waiting, playing, finished.  [startRound] sets the status of the
    game it names to [playing] whatever it was. *)
Theorem game_status_never_back_to_waiting (a : action) (w : world)
    (i : nat) (g : Games.row) :
  nth_error (games (db w)) i = Some g ->
  exists g',
    nth_error (games (db (perform a w))) i = Some g'
    /\ Games.id g' = Games.id g
    /\ (Games.status g' = waiting -> Games.status g = waiting)
    /\ (is_StartRound a = false ->
        (rank (Games.status g) <= rank (Games.status g'))%nat)
    /\ (forall vipId roundNumber,
          a = StartRound (Games.id g) vipId roundNumber ->
          faults w = [] -> Games.status g' = playing).
Proof.
  intros Hg.
  assert (Hweak : games_evolve not_back_to_waiting w (perform a w)).
  { destruct (is_StartRound a) eqn:Es.
    - destruct a; try discriminate. apply startRound_not_back.
    - intros j h Hh. destruct (@perform_forward a Es w j h Hh)
        as [h' [H1 [H2 H3]]].
      exists h'. auto using forward_not_back. }
  destruct (Hweak i g Hg) as [g' [Hn [Hid Hnb]]].
  exists g'. repeat split; try assumption.
  - intros Es. destruct (@perform_forward a Es w i g Hg) as [h [H1 [_ H3]]].
    rewrite Hn in H1. injection H1 as <-. exact H3.
  - intros vipId roundNumber -> Hf. simpl in Hn.
    rewrite startRound_sets_playing, nth_error_map, Hg in Hn by exact Hf.
    simpl in Hn. rewrite Nat.eqb_refl in Hn. injection Hn as <-. reflexivity.
Qed.

(** ** Tables under [filter], [map] and [existsb] *)

Lemma filter_nil_existsb {A} (f : A -> bool) (l : list A) :
  existsb f l = false -> filter f l = [].
Proof.
  induction l as [|x t IH]; simpl; [reflexivity|].
  destruct (f x); simpl; [discriminate | exact IH].
Qed.

Lemma filter_update {A} (key : A -> bool) (f : A -> A) (l : list A) :
  (forall x, key (f x) = key x) ->
  filter key (map (fun x => if key x then f x else x) l) = map f (filter key l).
Proof.
  intros Hk. induction l as [|x t IH]; simpl; [reflexivity|].
  destruct (key x) eqn:E.
  - rewrite Hk, E. simpl. f_equal. exact IH.
  - rewrite E. exact IH.
Qed.

Lemma existsb_update {A} (key sel : A -> bool) (f : A -> A) (l : list A) :
  (forall x, sel (f x) = sel x) ->
  existsb sel (map (fun x => if key x then f x else x) l) = existsb sel l.
Proof.
  intros Hs. induction l as [|x t IH]; simpl; [reflexivity|].
  rewrite IH. destruct (key x); [rewrite Hs|]; reflexivity.
Qed.

Lemma In_filter_single {A} (f : A -> bool) (l : list A) (x y : A) :
  filter f l = [x] -> In y l -> f y = true -> y = x.
Proof.
  intros E Hy Hf.
  assert (H : In y (filter f l)) by (apply filter_In; auto).
  rewrite E in H. destruct H as [H|[]]. auto.
Qed.

Lemma findIndex_absent {A} (pred : A -> bool) (l : list A) :
  existsb pred l = false -> findIndex pred l = -1.
Proof.
  induction l as [|x t IH]; simpl; [reflexivity|].
  destruct (pred x); simpl; [discriminate|].
  intros H. rewrite (IH H). reflexivity.
Qed.

Lemma findIndex_range {A} (pred : A -> bool) (l : list A) :
  -1 <= findIndex pred l < Z.of_nat (List.length l).
Proof.
  induction l as [|x t IH]; simpl List.length; simpl findIndex; [lia|].
  destruct (pred x); [lia|].
  destruct (Z.ltb_spec (findIndex pred t) 0); lia.
Qed.

(** ** C8: joining twice *)

(** C8. When [joinGame] has returned a game for a code and a user, a
    second call with the same code and user returns the same game without
    an error and changes nothing, and the game has exactly one player row
    for that user. *)
Theorem joinGame_idempotent (w w1 : world) (code : string)
    (userId game : uuid) :
  faults w = [] ->
  joinGame code userId w = (Some game, w1) ->
  joinGame code userId w1 = (Some game, w1)
  /\ List.length (player_rows game userId (db w1)) = 1%nat.
Proof.
  destruct w as [d fs c t]. simpl. intros ->.
  unfold joinGame, try_catch, bind, request, select, report, ret, throw.
  simpl.
  destruct (map Games.id (games_by_code code d)) as [|g0 [|g1 gs]] eqn:Eg;
    simpl; try discriminate.
  destruct (player_rows g0 userId d) as [|p0 [|p1 ps]] eqn:Ep; simpl.
  - (* not a member yet: the row is inserted *)
    unfold insert_game_player. simpl.
    destruct (existsb _ (games d)) eqn:Efk; simpl; [|discriminate].
    destruct (existsb _ (game_players d)) eqn:Eu; simpl; [discriminate|].
    intros H. injection H as <- <-. simpl.
    unfold games_by_code in *. simpl. rewrite Eg. simpl.
    unfold player_rows in *. simpl. rewrite filter_app, Ep. simpl.
    rewrite !Nat.eqb_refl. simpl. auto.
  - (* already a member *)
    intros H. injection H as <- <-. simpl. rewrite Eg. simpl.
    rewrite Ep. simpl. auto.
  - (* two rows for one user: the insert is refused *)
    unfold insert_game_player. simpl.
    destruct (existsb _ (games d)) eqn:Efk; simpl; [|discriminate].
    destruct (existsb _ (game_players d)) eqn:Eu; simpl; [discriminate|].
    apply filter_nil_existsb in Eu. unfold player_rows in Ep.
    rewrite Eu in Ep. discriminate.
Qed.

Lemma joinGame_idempotent_witness :
  joinGame "ABC123"%string Example.bob Example.bob_in
    = (Some Example.the_game, Example.bob_in)
  /\ List.length (player_rows Example.the_game Example.bob
                              (db Example.bob_in)) = 1%nat.
Proof.
  apply (@joinGame_idempotent Example.created Example.bob_in).
  - reflexivity.
  - vm_compute. reflexivity.
Defined.

(** ** C10: [rotateVIP] at its edges *)

Lemma games_by_id_after_update gameId (f : Games.row -> Games.row) w :
  (forall g, Games.id (f g) = Games.id g) ->
  games_by_id gameId (db (after (update_games gameId f) w)) =
  map f (games_by_id gameId (db w)).
Proof.
  intros Hid. unfold games_by_id. simpl.
  apply (filter_update (fun g => (Games.id g =? gameId)%nat)).
  intros g. rewrite Hid. reflexivity.
Qed.

(** C10, as the code has it.  In a game whose [current_vip_id] is null,
    [rotateVIP] returns false and leaves the world as it was.  When
    [current_vip_id] is set but is no [user_id] of the supplied players,
    the index -1 of the search becomes index 0: with at least one player
    supplied, [rotateVIP] returns true and the first of them is the VIP
    afterwards, nothing else being changed; with no player supplied
    there is no first one, and [rotateVIP] returns false, writes one line
    to the console and leaves the database as it was. *)
Theorem rotateVIP_edge_cases (w : world) (gameId : uuid) (game : Games.row)
    (players : list GamePlayers.row) :
  faults w = [] ->
  games_by_id gameId (db w) = [game] ->
  let w' := snd (rotateVIP gameId players w) in
  (Games.current_vip_id game = None ->
   rotateVIP gameId players w = (false, w))
  /\ (forall vip,
        Games.current_vip_id game = Some vip ->
        ~ In vip (map GamePlayers.user_id players) ->
        match players with
        | first :: _ =>
            fst (rotateVIP gameId players w) = true
            /\ map Games.current_vip_id (games_by_id gameId (db w'))
               = [Some (GamePlayers.user_id first)]
            /\ map Games.status (games_by_id gameId (db w'))
               = [Games.status game]
            /\ w' = after (update_games gameId
                             (Games.set_current_vip_id
                                (Some (GamePlayers.user_id first)))) w
        | [] =>
            fst (rotateVIP gameId players w) = false
            /\ db w' = db w
            /\ console w' = (console w ++ ["Error rotating VIP:"%string])%list
            /\ toasts w' = toasts w
        end).
Proof.
  intros Hf Hg w'. split.
  - destruct w as [d fs c t]. simpl in *. subst fs. intros Hv.
    unfold rotateVIP, try_catch, bind, request, select, ret. simpl.
    rewrite Hg. simpl. rewrite Hv. reflexivity.
  - intros vip Hv Hout. destruct players as [|first rest].
    + subst w'. destruct w as [d fs c t]. simpl in Hf, Hg. subst fs.
      unfold rotateVIP, try_catch, bind, request, select, ret, throw.
      cbn -[findIndex js_rem js_index]. rewrite Hg.
      cbn -[findIndex js_rem js_index]. rewrite Hv. cbn. auto.
    + assert (Hfi : findIndex (fun p => (GamePlayers.user_id p =? vip)%nat)
                              (first :: rest) = -1).
      { apply findIndex_absent, not_true_is_false.
        rewrite existsb_exists. intros [p [Hp E]].
        apply Nat.eqb_eq in E. apply Hout. rewrite <- E. apply in_map, Hp. }
      assert (E : rotateVIP gameId (first :: rest) w
                  = (true, after (update_games gameId
                                    (Games.set_current_vip_id
                                       (Some (GamePlayers.user_id first)))) w)).
      { destruct w as [d fs c t]. simpl in Hf, Hg. subst fs.
        unfold rotateVIP, try_catch, bind, request, select, ret.
        cbn -[findIndex js_rem js_index]. rewrite Hg.
        cbn -[findIndex js_rem js_index]. rewrite Hv, Hfi. reflexivity. }
      subst w'. rewrite E. cbn [fst snd].
      rewrite games_by_id_after_update, Hg by reflexivity.
      repeat split.
Qed.

(** ** C3: one step of the reveal *)

Lemma rounds_by_id_after_update roundId (f : Rounds.row -> Rounds.row) w :
  (forall r, Rounds.id (f r) = Rounds.id r) ->
  rounds_by_id roundId (db (after (update_rounds roundId f) w)) =
  map f (rounds_by_id roundId (db w)).
Proof.
  intros Hid. unfold rounds_by_id. simpl.
  apply (filter_update (fun r => (Rounds.id r =? roundId)%nat)).
  intros r. rewrite Hid. reflexivity.
Qed.

Lemma calculateScores_keeps_rounds roundId w :
  rounds (db (snd (calculateScores roundId w))) = rounds (db w).
Proof.
  set (R := fun w w' : world => rounds (db w') = rounds (db w)).
  assert (Hrefl : forall w, R w w) by reflexivity.
  assert (Htrans : forall a b c, R a b -> R b c -> R a c)
    by (unfold R; congruence).
  assert (Hreq : forall A (q : query A),
            (forall d, rounds (snd (q d)) = rounds d) -> keeps R (request q)).
  { intros A q Hq.
    apply (keeps_request (fun d d' => rounds d' = rounds d));
      [reflexivity | exact Hq]. }
  assert (H : keeps R (calculateScores roundId)).
  { unfold calculateScores, apply_score_update.
    keeps_steps;
      try (apply Hreq; intros d; unfold update_player_score;
           try destruct (int4 _); reflexivity).
    intros w0. reflexivity. }
  apply H.
Qed.

(** C3, as the code has it.  [revealNext] does not read the round: the
    index [i] and the number of items [n] are what its caller passes.
    On a stored round, with every request going through, the call returns
    true and
    - when [i + 1] does not exceed [n], the [reveal_index] of the round
      becomes [i + 1] whatever it was, the status is kept and nothing
      else changes; unless [i + 1] is no [INTEGER], when nothing changes
      at all;
    - when [i + 1] exceeds [n], the round becomes [complete], its
      [reveal_index] stays as stored, and the world is the one
      [calculateScores] leaves when run once on the completed round.
    So when the caller passes the stored index of a round in [revealing]
    and the number of items of its topic, an index of at most [n] stays
    at most [n], goes up by one below [n], and at [n] the round is
    completed instead. *)
Theorem revealNext_advances_or_completes (w : world) (roundId : uuid)
    (round : Rounds.row) (i n : Z) :
  faults w = [] ->
  rounds_by_id roundId (db w) = [round] ->
  let w' := snd (revealNext roundId i n w) in
  let index' := map Rounds.reveal_index (rounds_by_id roundId (db w')) in
  let status' := map Rounds.status (rounds_by_id roundId (db w')) in
  fst (revealNext roundId i n w) = true
  /\ (i + 1 <= n -> int4 (i + 1) = true ->
      index' = [i + 1]
      /\ status' = [Rounds.status round]
      /\ w' = after (update_rounds roundId (Rounds.set_reveal_index (i + 1))) w)
  /\ (i + 1 <= n -> int4 (i + 1) = false -> w' = w)
  /\ (n < i + 1 ->
      index' = [Rounds.reveal_index round]
      /\ status' = [complete]
      /\ w' = snd (calculateScores roundId
                     (after (update_rounds roundId
                               (Rounds.set_status complete)) w)))
  /\ (Rounds.status round = revealing ->
      i = Rounds.reveal_index round ->
      n = item_count (db w) round ->
      int4 i = true ->
      int4 n = true ->
      i <= n ->
      exists index, index' = [index]
        /\ index <= n
        /\ (i < n -> index = i + 1 /\ status' = [revealing])
        /\ (i = n -> index = n /\ status' = [complete])).
Proof.
  intros Hf Hr w' index' status'.
  assert (Hadv : i + 1 <= n -> int4 (i + 1) = true ->
            revealNext roundId i n w =
            (true, after (update_rounds roundId
                            (Rounds.set_reveal_index (i + 1))) w)).
  { intros Hle Hint. destruct w as [d fs c t]. simpl in Hf. subst fs.
    unfold revealNext, try_catch, bind, request, ret, after,
      update_reveal_index.
    cbn -[int4 Z.add]. destruct (Z.gtb_spec (i + 1) n) as [H|H]; [lia|].
    cbn -[int4 Z.add]. rewrite Hint. reflexivity. }
  assert (Href : i + 1 <= n -> int4 (i + 1) = false ->
            revealNext roundId i n w = (true, w)).
  { intros Hle Hint. destruct w as [d fs c t]. simpl in Hf. subst fs.
    unfold revealNext, try_catch, bind, request, ret, update_reveal_index.
    cbn -[int4 Z.add]. destruct (Z.gtb_spec (i + 1) n) as [H|H]; [lia|].
    cbn -[int4 Z.add]. rewrite Hint. reflexivity. }
  assert (Hcom : n < i + 1 ->
            revealNext roundId i n w =
            (true, snd (calculateScores roundId
                          (after (update_rounds roundId
                                    (Rounds.set_status complete)) w)))).
  { intros Hgt. destruct w as [d fs c t]. simpl in Hf. subst fs.
    unfold revealNext, try_catch, bind, request, ret, lift, after.
    cbn -[int4 Z.add calculateScores].
    destruct (Z.gtb_spec (i + 1) n) as [H|H]; [|lia].
    cbn -[int4 Z.add calculateScores].
    destruct (calculateScores roundId _) as [[] w2]. reflexivity. }
  assert (Hadv' : i + 1 <= n -> int4 (i + 1) = true ->
            index' = [i + 1] /\ status' = [Rounds.status round]).
  { intros Hle Hint. subst index' status' w'. rewrite (Hadv Hle Hint).
    cbn [snd]. rewrite rounds_by_id_after_update, Hr by reflexivity.
    split; reflexivity. }
  assert (Hcom' : n < i + 1 ->
            index' = [Rounds.reveal_index round] /\ status' = [complete]).
  { intros Hgt. subst index' status' w'. rewrite (Hcom Hgt). cbn [snd].
    unfold rounds_by_id at 1 2. rewrite calculateScores_keeps_rounds.
    fold (rounds_by_id roundId
            (db (after (update_rounds roundId (Rounds.set_status complete)) w))).
    rewrite rounds_by_id_after_update, Hr by reflexivity.
    split; reflexivity. }
  split; [|split; [|split; [|split]]].
  - destruct (Z.le_gt_cases (i + 1) n) as [Hle|Hgt].
    + destruct (Bool.bool_dec (int4 (i + 1)) true) as [Hint|Hint].
      * rewrite (Hadv Hle Hint). reflexivity.
      * apply not_true_is_false in Hint. rewrite (Href Hle Hint).
        reflexivity.
    + rewrite (Hcom Hgt). reflexivity.
  - intros Hle Hint. destruct (Hadv' Hle Hint) as [H1 H2].
    repeat split; try assumption. subst w'. rewrite (Hadv Hle Hint).
    reflexivity.
  - intros Hle Hint. subst w'. rewrite (Href Hle Hint). reflexivity.
  - intros Hgt. destruct (Hcom' Hgt) as [H1 H2].
    repeat split; try assumption. subst w'. rewrite (Hcom Hgt). reflexivity.
  - intros Hs Hi Hn Hii Hin Hle0.
    unfold int4 in Hii, Hin. apply andb_prop in Hii, Hin.
    destruct Hii as [Hlo _], Hin as [_ Hhi].
    apply Z.leb_le in Hlo, Hhi.
    destruct (Z.le_gt_cases (i + 1) n) as [Hle|Hgt].
    + assert (Hint : int4 (i + 1) = true).
      { unfold int4. apply andb_true_intro. split; apply Z.leb_le; lia. }
      destruct (Hadv' Hle Hint) as [H1 H2]. exists (i + 1).
      rewrite H1, H2, Hs. repeat split; lia.
    + destruct (Hcom' Hgt) as [H1 H2]. exists (Rounds.reveal_index round).
      rewrite H1, H2. repeat split; try lia; intros; lia.
Qed.

Lemma revealNext_advances_or_completes_witness :
  map Rounds.reveal_index
      (rounds_by_id Example.round1
         (db (snd (revealNext Example.round1 1 3 Example.revealed1)))) = [2].
Proof.
  refine (proj1 (proj1 (proj2 (@revealNext_advances_or_completes
                   Example.revealed1 Example.round1
                   (Example.round_row revealing 1) 1 3 eq_refl eq_refl))
                   _ eq_refl)).
  lia.
Defined.

Lemma rotateVIP_edge_cases_witness :
  map Games.current_vip_id
      (games_by_id Example.the_game
         (db (snd (rotateVIP Example.the_game
                     [Example.bob_row; Example.carol_row] Example.joined))))
  = [Some Example.bob].
Proof.
  refine (proj1 (proj2 (proj2 (@rotateVIP_edge_cases Example.joined
                   Example.the_game Example.game_row
                   [Example.bob_row; Example.carol_row] eq_refl eq_refl)
                   Example.alice eq_refl _))).
  vm_compute. intuition discriminate.
Defined.

(** The claim as stated fails when no player is supplied: the VIP, alice,
    is not in the empty list, yet the rotation fails; [rotateVIP] returns
    false and alice is still the VIP. *)
Lemma rotateVIP_fails_without_players :
  let run := rotateVIP Example.the_game [] Example.joined in
  map Games.current_vip_id (games (db Example.joined)) = [Some Example.alice]
  /\ fst run = false
  /\ map Games.current_vip_id (games (db (snd run))) = [Some Example.alice]
  /\ console (snd run)
     = (console Example.joined ++ ["Error rotating VIP:"%string])%list.
Proof. vm_compute. repeat split. Qed.

(** The claim as stated fails when the caller passes other numbers than
    the round's own: on the round of three items whose stored index is 3,
    [revealNext] with index 3 and count 10 stores index 4, past the
    items, and with index 1 and count 3 takes the stored index back to
    2; the round is [revealing] throughout and no scoring is run. *)
Lemma reveal_index_follows_the_caller :
  let past := revealNext Example.round1 3 10 Example.revealed3 in
  let back := revealNext Example.round1 1 3 Example.revealed3 in
  map (fun r => (Rounds.status r, Rounds.reveal_index r,
                 item_count (db Example.revealed3) r))
      (rounds (db Example.revealed3)) = [(revealing, 3, 3)]
  /\ fst past = true
  /\ map (fun r => (Rounds.status r, Rounds.reveal_index r))
         (rounds (db (snd past))) = [(revealing, 4)]
  /\ fst back = true
  /\ map (fun r => (Rounds.status r, Rounds.reveal_index r))
         (rounds (db (snd back))) = [(revealing, 2)]
  /\ game_players (db (snd past)) = game_players (db Example.revealed3)
  /\ game_players (db (snd back)) = game_players (db Example.revealed3).
Proof. vm_compute. repeat split. Qed.

(** ** C4: what [submitVIPRanking] refuses *)

Lemma existsb_none {A} (f : A -> bool) (l : list A) (x : A) :
  existsb f l = false -> In x l -> f x = false.
Proof.
  intros H Hx. apply not_true_is_false. intros Hf.
  assert (E : existsb f l = true) by (apply existsb_exists; eauto).
  congruence.
Qed.

Lemma has_dup_rankings_NoDup roundId (l : list placement) :
  has_dup same_ranking_key
          (map (fun r => Rankings.mk roundId (itemId r) (position r)) l) = false ->
  NoDup (map position l) /\ NoDup (map itemId l).
Proof.
  induction l as [|x t IH]; simpl; intros H.
  - split; constructor.
  - apply orb_false_elim in H. destruct H as [Hx Ht].
    destruct (IH Ht) as [Hp Hi].
    assert (Hsep : forall y, In y t ->
              itemId y <> itemId x /\ position y <> position x).
    { intros y Hy.
      pose proof (existsb_none _ _
        (Rankings.mk roundId (itemId y) (position y)) Hx
        (in_map _ _ _ Hy)) as E.
      unfold same_ranking_key in E. simpl in E.
      rewrite Nat.eqb_refl in E. simpl in E.
      apply orb_false_elim in E. destruct E as [E1 E2].
      apply Nat.eqb_neq in E1. apply Z.eqb_neq in E2. split; congruence. }
    split; constructor; try assumption; rewrite in_map_iff;
      intros [y [E Hy]]; destruct (Hsep y Hy); congruence.
Qed.

(** C4, as the code has it.  A ranking that gives one position twice, or
    one item twice, or names an item that is no topic item at all, is
    refused by the constraints of the [rankings] table:
    [submitVIPRanking] returns false, shows the toast, and leaves the
    database as it was: no ranking row, no change of the round's status. *)
Theorem submitVIPRanking_refuses (w : world) (roundId : uuid)
    (rankings : list placement) :
  faults w = [] ->
  (~ NoDup (map position rankings)
   \/ ~ NoDup (map itemId rankings)
   \/ exists r, In r rankings
                /\ forall i, In i (topic_items (db w)) ->
                             TopicItems.id i <> itemId r) ->
  let w' := snd (submitVIPRanking roundId rankings w) in
  fst (submitVIPRanking roundId rankings w) = false
  /\ db w' = db w
  /\ toasts w' = (toasts w ++ ["Failed to submit ranking"%string])%list.
Proof.
  intros Hf Hbad. destruct w as [d fs c t]. simpl in Hf, Hbad. subst fs.
  unfold submitVIPRanking, try_catch, bind, request, report, ret, throw.
  simpl. unfold insert_rankings.
  set (ks := map (fun r => Rankings.mk roundId (itemId r) (position r))
                 rankings).
  destruct (forallb (ranking_refs_ok d) ks) eqn:Efk; simpl; [|auto].
  destruct (has_dup same_ranking_key ks) eqn:Edup; simpl; [auto|].
  exfalso. destruct (has_dup_rankings_NoDup roundId rankings Edup) as [Hp Hi].
  destruct Hbad as [H|[H|[r [Hr Hunknown]]]]; [contradiction.. |].
  rewrite forallb_forall in Efk.
  specialize (Efk (Rankings.mk roundId (itemId r) (position r))
                  (in_map _ _ _ Hr)).
  unfold ranking_refs_ok in Efk. apply andb_prop in Efk.
  destruct Efk as [_ Ei]. simpl in Ei. apply existsb_exists in Ei.
  destruct Ei as [i [Hi' E]]. apply Nat.eqb_eq in E.
  exact (Hunknown i Hi' E).
Qed.

Lemma submitVIPRanking_refuses_witness :
  fst (submitVIPRanking Example.round1
         [mkplacement Example.itemA 0; mkplacement Example.itemB 0]
         Example.chosen) = false.
Proof.
  refine (proj1 (@submitVIPRanking_refuses Example.chosen Example.round1
                   [mkplacement Example.itemA 0; mkplacement Example.itemB 0]
                   eq_refl _)).
  left. simpl. intros H. inversion H as [|? ? Hin _]; subst.
  apply Hin. left. reflexivity.
Defined.

(** The claim as stated fails on an incomplete ranking: one of the three
    items is ranked, the call returns true, the row is stored and the
    round moves on to [player_guessing]. *)
Lemma incomplete_ranking_accepted :
  let w' := snd (submitVIPRanking Example.round1
                   [mkplacement Example.itemA 0] Example.chosen) in
  item_count (db Example.chosen) (Example.round_row vip_ranking 0) = 3
  /\ fst (submitVIPRanking Example.round1
            [mkplacement Example.itemA 0] Example.chosen) = true
  /\ rankings (db w') = [Rankings.mk Example.round1 Example.itemA 0]
  /\ rounds (db w') = [Example.round_row player_guessing 0].
Proof. vm_compute. auto. Qed.

(** ** C5: [submitGuess] and the status of the round *)

Lemma forallb_ext_eq {A} (f g : A -> bool) (l : list A) :
  (forall x, f x = g x) -> forallb f l = forallb g l.
Proof.
  intros H. induction l as [|x t IH]; simpl; [reflexivity|].
  rewrite H, IH. reflexivity.
Qed.

(** C5, as the code has it.  [submitGuess] does not look at the status of
    the round: whatever status the round is given, the call returns the
    same value and leaves the same guess rows.  When it fails it returns
    false and has stored nothing. *)
Theorem submitGuess_ignores_status (w : world) (roundId userId : uuid)
    (gs : list placement) (s : round_status) :
  faults w = [] ->
  let w_s := after (update_rounds roundId (Rounds.set_status s)) w in
  fst (submitGuess roundId userId gs w_s) = fst (submitGuess roundId userId gs w)
  /\ guesses (db (snd (submitGuess roundId userId gs w_s)))
     = guesses (db (snd (submitGuess roundId userId gs w)))
  /\ (fst (submitGuess roundId userId gs w) = false ->
      db (snd (submitGuess roundId userId gs w)) = db w).
Proof.
  intros Hf. destruct w as [d fs c t]. simpl in Hf. subst fs.
  unfold after, submitGuess, try_catch, bind, request, report, ret, throw,
    select.
  simpl. unfold rankings_of_round, insert_guesses. simpl.
  set (qs := guessesWithCorrectness roundId userId _ gs).
  assert (Erefs : forallb (guess_refs_ok
                    (with_rounds
                       (map (fun r => if (Rounds.id r =? roundId)%nat
                                      then Rounds.set_status s r else r)
                            (rounds d)) d)) qs
                  = forallb (guess_refs_ok d) qs).
  { apply forallb_ext_eq. intros q. unfold guess_refs_ok. simpl.
    rewrite existsb_update by reflexivity. reflexivity. }
  rewrite Erefs.
  destruct (forallb (guess_refs_ok d) qs); simpl; [|auto].
  destruct (has_dup same_guess_key qs
            || existsb (fun q => existsb (same_guess_key q) (guesses d)) qs);
    simpl; [auto|].
  repeat split. discriminate.
Qed.

Lemma submitGuess_ignores_status_witness :
  fst (submitGuess Example.round1 Example.bob Example.bob_order
         (after (update_rounds Example.round1 (Rounds.set_status complete))
                Example.ranked))
  = fst (submitGuess Example.round1 Example.bob Example.bob_order
           Example.ranked).
Proof.
  exact (proj1 (@submitGuess_ignores_status Example.ranked Example.round1
                  Example.bob Example.bob_order complete eq_refl)).
Defined.

(** The claim as stated fails on a round that is being revealed: the
    guess of a player who had none is accepted and stored. *)
Lemma guess_accepted_while_revealing :
  map Rounds.status (rounds_by_id Example.round1 (db Example.revealed1))
    = [revealing]
  /\ guesses_by Example.alice
       (guesses_of_round Example.round1 (db Example.revealed1)) = []
  /\ fst (submitGuess Example.round1 Example.alice Example.vip_order
            Example.revealed1) = true
  /\ List.length
       (guesses_by Example.alice
          (guesses_of_round Example.round1
             (db (snd (submitGuess Example.round1 Example.alice
                         Example.vip_order Example.revealed1))))) = 3%nat.
Proof. vm_compute. auto. Qed.

(** ** C9: the join code *)

Lemma upper_char_base36 (c : ascii) :
  is_base36 c = true -> is_upper_alnum (upper_char c) = true.
Proof.
  destruct c as [b0 b1 b2 b3 b4 b5 b6 b7].
  destruct b0, b1, b2, b3, b4, b5, b6, b7; vm_compute; auto.
Qed.

(** C9, as the code has it.  Let the random number be written in base 36
    with at least six digits after [0.].  Then the join code is six
    characters, each a digit or an upper-case letter.  When [createGame]
    returns a game, the game carries that code, is stored, and no game
    stored before had the code.  When a stored game has the code already,
    [createGame] gives up at once: it returns null, shows the toast, and
    leaves the database as it was. *)
Theorem createGame_join_code (w : world) (digits : string) (userId : uuid)
    (settings : option Settings.t) :
  faults w = [] ->
  string_forall is_base36 digits = true ->
  (6 <= String.length digits)%nat ->
  let r := String "0" (String "." digits) in
  let code := join_code r in
  String.length code = 6%nat
  /\ string_forall is_upper_alnum code = true
  /\ (forall game w',
        createGame r userId settings w = (Some game, w') ->
        Games.code game = code
        /\ In game (games (db w'))
        /\ forall g, In g (games (db w)) -> Games.code g <> code)
  /\ ((exists g, In g (games (db w)) /\ Games.code g = code) ->
      let w' := snd (createGame r userId settings w) in
      fst (createGame r userId settings w) = None
      /\ db w' = db w
      /\ toasts w' = (toasts w ++ ["Failed to create game"%string])%list).
Proof.
  intros Hf Hds Hlen r code.
  assert (Hshape : String.length code = 6%nat
                   /\ string_forall is_upper_alnum code = true).
  { subst code r.
    destruct digits as [|c1 [|c2 [|c3 [|c4 [|c5 [|c6 rest]]]]]];
      simpl in Hlen; try lia.
    simpl in Hds.
    repeat match type of Hds with
           | (_ && _)%bool = true =>
               apply andb_prop in Hds; destruct Hds as [? Hds]
           end.
    unfold join_code, js_substring.
    assert (E0 : String.substring 0 0 rest = EmptyString)
      by (destruct rest; reflexivity).
    cbn [Nat.sub String.substring toUpperCase]. rewrite E0.
    split; [reflexivity|].
    cbn [toUpperCase string_forall].
    rewrite !upper_char_base36 by assumption. reflexivity. }
  destruct Hshape as [H6 Hall]. repeat split; try assumption.
  - (* success *)
    destruct w as [d fs c t]. simpl in Hf. subst fs.
    revert H. fold code.
    unfold createGame, try_catch, bind, request, report, ret, throw, select.
    simpl. fold r. fold code. unfold insert_game. simpl.
    destruct (existsb _ (games d) || existsb _ (games d))%bool; simpl;
      [discriminate|].
    unfold insert_game_player. simpl.
    repeat match goal with
           | |- context [if ?b then _ else _] => destruct b; simpl
           end; try discriminate.
    intros H. injection H as <- <-. reflexivity.
  - destruct w as [d fs c t]. simpl in Hf. subst fs.
    revert H. fold code.
    unfold createGame, try_catch, bind, request, report, ret, throw, select.
    simpl. fold r. fold code. unfold insert_game. simpl.
    destruct (existsb _ (games d) || existsb _ (games d))%bool; simpl;
      [discriminate|].
    unfold insert_game_player. simpl.
    repeat match goal with
           | |- context [if ?b then _ else _] => destruct b; simpl
           end; try discriminate.
    intros H. injection H as <- <-. simpl.
    apply in_or_app. right. left. reflexivity.
  - destruct w as [d fs c t]. simpl in Hf. subst fs.
    revert H. fold code.
    unfold createGame, try_catch, bind, request, report, ret, throw, select.
    simpl. fold r. fold code. unfold insert_game. simpl.
    destruct (existsb (fun g' => String.eqb (Games.code g') code) (games d))
      eqn:Ecode; simpl; [discriminate|].
    intros _ g Hg Hc.
    pose proof (existsb_none _ _ g Ecode Hg) as E. simpl in E.
    apply String.eqb_neq in E. contradiction.
  - destruct H as [g [Hg Hc]].
    destruct w as [d fs c t]. simpl in *. subst fs.
    unfold createGame, try_catch, bind, request, report, ret, throw.
    simpl. fold r. fold code. unfold insert_game. simpl.
    replace (existsb (fun g' => String.eqb (Games.code g') code) (games d))
      with true; [reflexivity|].
    symmetry. apply existsb_exists. exists g. split; [exact Hg|].
    apply String.eqb_eq. exact Hc.
  - destruct H as [g [Hg Hc]].
    destruct w as [d fs c t]. simpl in *. subst fs.
    unfold createGame, try_catch, bind, request, report, ret, throw.
    simpl. fold r. fold code. unfold insert_game. simpl.
    replace (existsb (fun g' => String.eqb (Games.code g') code) (games d))
      with true; [reflexivity|].
    symmetry. apply existsb_exists. exists g. split; [exact Hg|].
    apply String.eqb_eq. exact Hc.
  - destruct H as [g [Hg Hc]].
    destruct w as [d fs c t]. simpl in *. subst fs.
    unfold createGame, try_catch, bind, request, report, ret, throw.
    simpl. fold r. fold code. unfold insert_game. simpl.
    replace (existsb (fun g' => String.eqb (Games.code g') code) (games d))
      with true; [reflexivity|].
    symmetry. apply existsb_exists. exists g. split; [exact Hg|].
    apply String.eqb_eq. exact Hc.
Qed.

(** ** C7: how the score updates reach the players *)

Lemma In_obj_get (o : object) k v :
  NoDup (obj_keys o) -> In (k, v) o -> obj_get o k = Some v.
Proof.
  induction o as [|[a b] t IH]; simpl; intros Hnd Hin; [contradiction|].
  inversion Hnd as [|? ? Ha Hnd']; subst.
  destruct Hin as [E|Hin].
  - injection E as -> ->. rewrite Nat.eqb_refl. reflexivity.
  - destruct (Nat.eqb_spec a k) as [->|_].
    + exfalso. apply Ha. change k with (fst (k, v)). apply in_map, Hin.
    + apply IH; assumption.
Qed.

Lemma scored_or_not_refl su ps : Forall2 (scored_or_not su) ps ps.
Proof. induction ps; constructor; [left; reflexivity | assumption]. Qed.

Lemma scored_or_not_more su su' ps ps' :
  (forall e, In e su -> In e su') ->
  Forall2 (scored_or_not su) ps ps' -> Forall2 (scored_or_not su') ps ps'.
Proof.
  intros Hsub H. induction H as [|p p' l l' Hp _ IH]; constructor; [|exact IH].
  destruct Hp as [->|[d [Hd ->]]]; [left; reflexivity | right; eauto].
Qed.

Lemma Forall2_map_right {A B} (R R' : A -> B -> Prop) (f : B -> B) l l' :
  Forall2 R l l' ->
  (forall a b, R a b -> In b l' -> R' a (f b)) ->
  Forall2 R' l (map f l').
Proof.
  intros H. induction H as [|a b l l' Hab _ IH]; intros Hf; simpl;
    constructor.
  - apply Hf; [exact Hab | left; reflexivity].
  - apply IH. intros a' b' Hr Hin. apply Hf; [exact Hr | right; exact Hin].
Qed.

(** One score update that went through, on a table whose rows of player
    [u] are still untouched. *)
Lemma update_player_score_scored gameId u d done ps0 ps player :
  ~ In u (obj_keys done) ->
  Forall2 (scored_or_not done) ps0 ps ->
  filter (fun p => (GamePlayers.game_id p =? gameId)%nat
                   && (GamePlayers.user_id p =? u)%nat) ps = [player] ->
  Forall2 (scored_or_not (done ++ [(u, d)])) ps0
    (map (fun p => if (GamePlayers.game_id p =? gameId)%nat
                      && (GamePlayers.user_id p =? u)%nat
                   then GamePlayers.set_score (GamePlayers.score player + d) p
                   else p) ps).
Proof.
  intros Hu Hrel Hone.
  eapply Forall2_map_right; [exact Hrel|]. intros p p' Hp Hin.
  destruct ((GamePlayers.game_id p' =? gameId)%nat
            && (GamePlayers.user_id p' =? u)%nat) eqn:Ekey.
  - assert (Epl : p' = player) by (eapply In_filter_single; eauto).
    apply andb_prop in Ekey. destruct Ekey as [_ Eu].
    apply Nat.eqb_eq in Eu.
    destruct Hp as [->|[d0 [Hd0 ->]]].
    + right. exists d. subst player. split; [|reflexivity].
      apply in_or_app. right. left. congruence.
    + exfalso. apply Hu. simpl in Eu. rewrite <- Eu.
      change (GamePlayers.user_id p) with (fst (GamePlayers.user_id p, d0)).
      apply in_map, Hd0.
  - destruct Hp as [->|[d0 [Hd0 ->]]]; [left; reflexivity|].
    right. exists d0. split; [|reflexivity]. apply in_or_app. left. exact Hd0.
Qed.

Lemma apply_score_update_scored gameId u d done ps0 w :
  ~ In u (obj_keys done) ->
  Forall2 (scored_or_not done) ps0 (game_players (db w)) ->
  Forall2 (scored_or_not (done ++ [(u, d)])) ps0
    (game_players (db (snd (apply_score_update gameId (u, d) w)))).
Proof.
  intros Hu Hrel.
  assert (Hsame : Forall2 (scored_or_not (done ++ [(u, d)])) ps0
                          (game_players (db w))).
  { eapply scored_or_not_more; [|exact Hrel].
    intros e He. apply in_or_app. left. exact He. }
  destruct w as [d0 fs c t]. simpl in Hrel, Hsame.
  unfold apply_score_update, bind, request, select, ret.
  destruct fs as [|[|] fs]; simpl; try exact Hsame;
    unfold player_rows;
    destruct (filter _ (game_players d0)) as [|player [|p2 rest]] eqn:Ef;
    simpl; try exact Hsame.
  - unfold update_player_score. destruct (int4 _); simpl;
      [apply update_player_score_scored; assumption | exact Hsame].
  - destruct fs as [|[|] fs']; simpl; try exact Hsame;
      (unfold update_player_score; destruct (int4 _); simpl;
       [apply update_player_score_scored; assumption | exact Hsame]).
Qed.

Lemma score_loop_scored gameId su : forall done ps0 w,
  NoDup (obj_keys (done ++ su)) ->
  Forall2 (scored_or_not done) ps0 (game_players (db w)) ->
  Forall2 (scored_or_not (done ++ su)) ps0
    (game_players (db (snd (for_of su (apply_score_update gameId) w)))).
Proof.
  induction su as [|[u d] su IH]; intros done ps0 w Hnd Hrel.
  - simpl. rewrite app_nil_r. exact Hrel.
  - assert (Hu : ~ In u (obj_keys done)).
    { unfold obj_keys in *. rewrite map_app in Hnd. simpl in Hnd.
      apply NoDup_remove_2 in Hnd. intros Hin. apply Hnd.
      apply in_or_app. left. exact Hin. }
    pose proof (@apply_score_update_scored gameId u d done ps0 w Hu Hrel)
      as Hstep.
    change (for_of ((u, d) :: su) (apply_score_update gameId))
      with (apply_score_update gameId (u, d) ;;
            for_of su (apply_score_update gameId)).
    unfold bind at 1.
    destruct (apply_score_update gameId (u, d) w) as [[[]|e] w1]; simpl in *.
    + replace (done ++ (u, d) :: su)%list with ((done ++ [(u, d)]) ++ su)%list
        by (rewrite <- app_assoc; reflexivity).
      apply IH; [rewrite <- app_assoc; exact Hnd | exact Hstep].
    + eapply scored_or_not_more; [|exact Hstep].
      intros x Hx. apply in_app_or in Hx. apply in_or_app.
      destruct Hx as [Hx|[<-|[]]]; [left; exact Hx | right; left; reflexivity].
Qed.

(** A read either is lost or answers from the database; it changes
    nothing there. *)
Lemma bind_select A B (f : database -> response A) (k : response A -> T B) w :
  exists r w1,
    bind (request (select f)) k w = k r w1
    /\ db w1 = db w
    /\ (r = fail unavailable \/ r = f (db w)).
Proof.
  unfold bind, request, select.
  destruct (faults w) as [|[|] fs]; simpl;
    eexists; eexists; (split; [reflexivity|]); simpl; auto.
Qed.

Lemma bind_then A B (R : world -> world -> Prop) (m : T A) (k : A -> T B) w :
  (forall x, R x x) -> (forall a, keeps R (k a)) ->
  R (snd (m w)) (snd (bind m k w)).
Proof.
  intros Hrefl Hk. unfold bind.
  destruct (m w) as [[a|e] w1]; simpl; [apply Hk | apply Hrefl].
Qed.

Lemma try_catch_db A (body : T A) (handler : exn -> M A)
      (P : database -> Prop) w :
  (forall e w', db (snd (handler e w')) = db w') ->
  P (db (snd (body w))) -> P (db (snd (try_catch body handler w))).
Proof.
  intros Hh Hb. unfold try_catch.
  destruct (body w) as [[a|e] w1]; simpl in *; [exact Hb|].
  rewrite Hh. exact Hb.
Qed.

Lemma same_players_refl w : same_players w w.
Proof. reflexivity. Qed.

Lemma same_players_trans a b c :
  same_players a b -> same_players b c -> same_players a c.
Proof. unfold same_players. congruence. Qed.

Lemma request_same_players A (q : query A) :
  (forall d, game_players (snd (q d)) = game_players d) ->
  keeps same_players (request q).
Proof.
  intros Hq.
  apply (keeps_request (fun d d' => game_players d' = game_players d));
    [reflexivity | exact Hq].
Qed.

Lemma calculateScores_scored (w : world) (roundId : uuid) :
  Forall2 (scored_or_not (round_deltas roundId (db w)))
          (game_players (db w))
          (game_players (db (snd (calculateScores roundId w)))).
Proof.
  pose proof same_players_refl as Hrefl.
  pose proof same_players_trans as Htrans.
  unfold calculateScores.
  apply (@try_catch_db unit _ _
           (fun d => Forall2 (scored_or_not (round_deltas roundId (db w)))
                             (game_players (db w)) (game_players d)));
    [reflexivity|].
  match goal with
  | |- context [bind (request (select ?f)) ?k w] =>
      destruct (bind_select f k w) as (r1 & w1 & E1 & D1 & C1); rewrite E1;
      clear E1
  end.
  destruct C1 as [->| ->]; simpl;
    [rewrite D1; apply scored_or_not_refl|].
  unfold round_deltas.
  destruct (rounds_by_id roundId (db w)) as [|round [|r2 rs]] eqn:Er; simpl;
    try (rewrite D1; apply scored_or_not_refl).
  match goal with
  | |- context [bind (request (select ?f)) ?k w1] =>
      destruct (bind_select f k w1) as (r2 & w2 & E2 & D2 & C2); rewrite E2;
      clear E2
  end.
  rewrite D1 in C2, D2.
  destruct C2 as [->| ->]; simpl;
    [rewrite D2; apply scored_or_not_refl|].
  destruct (games_by_id (Rounds.game_id round) (db w)) as [|game [|g2 gs]]
    eqn:Eg; simpl; try (rewrite D2; apply scored_or_not_refl).
  match goal with
  | |- context [bind (request (select ?f)) ?k w2] =>
      destruct (bind_select f k w2) as (r3 & w3 & E3 & D3 & C3); rewrite E3;
      clear E3
  end.
  rewrite D2 in C3, D3.
  destruct C3 as [->| ->]; simpl;
    [rewrite D3; apply scored_or_not_refl|].
  match goal with
  | |- context [bind ?m ?k w3] =>
      pose proof (@bind_then _ _ same_players m k w3 Hrefl) as Htail
  end.
  unfold same_players at 2 in Htail. rewrite Htail.
  - apply (@score_loop_scored (Rounds.game_id round)
             (scoreUpdates game (guesses_of_round roundId (db w)))
             [] (game_players (db w)) w3).
    + apply scoreUpdates_keys_NoDup.
    + rewrite D3. apply scored_or_not_refl.
  - intros _. keeps_steps; apply request_same_players; reflexivity.
Qed.

Lemma request_returns A (q : query A) w :
  exists r, fst (request q w) = Return r.
Proof.
  unfold request. destruct (faults w) as [|[|] fs];
    try destruct (q (db w)); simpl; eexists; reflexivity.
Qed.

Lemma revealNext_returns_true roundId i n w :
  fst (revealNext roundId i n w) = true.
Proof.
  unfold revealNext, try_catch, bind, lift, ret.
  destruct (i + 1 >? n).
  - destruct (request_returns
                (update_rounds roundId (Rounds.set_status complete)) w)
      as [r Hr].
    destruct (request _ w) as [o w1]. simpl in Hr. subst o.
    destruct (calculateScores roundId w1). reflexivity.
  - destruct (request_returns (update_reveal_index roundId (i + 1)) w)
      as [r Hr].
    destruct (request _ w) as [o w1]. simpl in Hr. subst o. reflexivity.
Qed.

(** C7, as the code has it.  With any of the requests failing: every
    player row after [calculateScores] is the row before, or the row
    before with the player's own delta of the round added once, each row
    on its own account; and [revealNext], which runs [calculateScores],
    returns true all the same. *)
Theorem scores_applied_row_by_row (w : world) (roundId : uuid) (i n : Z) :
  Forall2 (fun p p' =>
             p' = p
             \/ exists d,
                  obj_get (round_deltas roundId (db w)) (GamePlayers.user_id p)
                    = Some d
                  /\ p' = GamePlayers.set_score (GamePlayers.score p + d) p)
          (game_players (db w))
          (game_players (db (snd (calculateScores roundId w))))
  /\ fst (revealNext roundId i n w) = true.
Proof.
  split; [|apply revealNext_returns_true].
  assert (Hnd : NoDup (obj_keys (round_deltas roundId (db w)))).
  { unfold round_deltas.
    destruct (rounds_by_id roundId (db w)) as [|r [|]]; try constructor.
    destruct (games_by_id (Rounds.game_id r) (db w)) as [|g [|]];
      try constructor.
    apply scoreUpdates_keys_NoDup. }
  pose proof (calculateScores_scored w roundId) as H.
  induction H as [|p p' l l' Hp _ IH]; constructor; [|exact IH].
  destruct Hp as [->|[d [Hd ->]]]; [left; reflexivity|].
  right. exists d. split; [|reflexivity]. apply In_obj_get; assumption.
Qed.

(** The claim as stated fails when the write of one score is lost: bob
    has his 100 points, carol's penalty of 50 is missing, and the caller
    is told nothing: [revealNext] returns true and neither the console
    nor a toast reports the failure. *)
Lemma lost_write_scores_some_players_only :
  let run := revealNext Example.round1 3 3 Example.flaky in
  round_deltas Example.round1 (db Example.flaky)
    = [(Example.bob, 100); (Example.carol, -50)]
  /\ map GamePlayers.score (game_players (db Example.flaky)) = [0; 0; 0]
  /\ map GamePlayers.score (game_players (db (snd run))) = [0; 100; 0]
  /\ fst run = true
  /\ console (snd run) = []
  /\ toasts (snd run) = [].
Proof. vm_compute. repeat split. Qed.

(** ** C2: the win check, and the rotation of the VIP *)

Lemma request_reliable_eq A (q : query A) w :
  faults w = [] -> request q w = (Return (fst (q (db w))), after q w).
Proof.
  intros Hf. unfold request, after. rewrite Hf.
  destruct (q (db w)). reflexivity.
Qed.

Lemma after_select A (f : database -> response A) w :
  after (select f) w = w.
Proof. destruct w. reflexivity. Qed.

Lemma bind_select_reliable A B (f : database -> response A)
      (k : response A -> T B) w :
  faults w = [] -> bind (request (select f)) k w = k (f (db w)) w.
Proof.
  intros Hf. unfold bind. rewrite request_reliable_eq by exact Hf.
  rewrite after_select. reflexivity.
Qed.

Lemma apply_score_update_returns gameId entry w :
  fst (apply_score_update gameId entry w) = Return tt.
Proof.
  destruct entry as [u d]. unfold apply_score_update, bind at 1.
  destruct (request_returns
              (select (fun d0 => single (player_rows gameId u d0))) w)
    as [r Hr].
  destruct (request _ w) as [o w1]. simpl in Hr. subst o.
  destruct (data r); [|reflexivity].
  unfold bind, ret.
  match goal with
  | |- context [request ?q w1] =>
      destruct (request_returns q w1) as [r' Hr'];
      destruct (request q w1) as [o' w2]
  end.
  simpl in Hr'. subst o'. reflexivity.
Qed.

Lemma score_loop_returns gameId su w :
  fst (for_of su (apply_score_update gameId) w) = Return tt.
Proof.
  revert w. induction su as [|e su IH]; intros w; [reflexivity|].
  simpl for_of. unfold bind.
  pose proof (apply_score_update_returns gameId e w) as He.
  destruct (apply_score_update gameId e w) as [o w1]. simpl in He. subst o.
  apply IH.
Qed.

Lemma same_games_refl w : same_games w w.
Proof. reflexivity. Qed.

Lemma same_games_trans a b c :
  same_games a b -> same_games b c -> same_games a c.
Proof. unfold same_games. congruence. Qed.

Lemma score_loop_same_games gameId su :
  keeps same_games (for_of su (apply_score_update gameId)).
Proof.
  pose proof same_games_refl as Hrefl. pose proof same_games_trans as Htrans.
  unfold apply_score_update. keeps_steps;
    apply (keeps_request (fun d d' => games d' = games d));
    try reflexivity;
    intros d0; unfold update_player_score; destruct (int4 _); reflexivity.
Qed.

Lemma score_loop_reliable gameId su :
  keeps reliable (for_of su (apply_score_update gameId)).
Proof.
  pose proof reliable_refl as Hrefl. pose proof reliable_trans as Htrans.
  unfold apply_score_update. keeps_steps; apply request_reliable.
Qed.

(** The next VIP when the current one is among the supplied players. *)
Lemma rotateVIP_next (w : world) (gameId : uuid) (game : Games.row)
      (players : list GamePlayers.row) (vip : uuid) (next : GamePlayers.row) :
  faults w = [] ->
  games_by_id gameId (db w) = [game] ->
  Games.current_vip_id game = Some vip ->
  let i := findIndex (fun p => (GamePlayers.user_id p =? vip)%nat) players in
  0 <= i ->
  nth_error players (Z.to_nat ((i + 1) mod Z.of_nat (List.length players)))
    = Some next ->
  rotateVIP gameId players w
  = (true, after (update_games gameId
                    (Games.set_current_vip_id (Some (GamePlayers.user_id next))))
                 w).
Proof.
  intros Hf Hg Hv i Hi Hnext.
  pose proof (findIndex_range
                (fun p => (GamePlayers.user_id p =? vip)%nat) players) as Hr.
  fold i in Hr.
  unfold rotateVIP, try_catch.
  rewrite bind_select_reliable by exact Hf.
  rewrite Hg. cbn [single ok data]. rewrite Hv. fold i.
  unfold js_rem, js_index.
  destruct (Z.eqb_spec (Z.of_nat (List.length players)) 0) as [E|_]; [lia|].
  rewrite Z.rem_mod_nonneg by lia.
  destruct (Z.ltb_spec ((i + 1) mod Z.of_nat (List.length players)) 0)
    as [Hneg|_].
  { pose proof (Z.mod_pos_bound (i + 1) (Z.of_nat (List.length players))).
    lia. }
  rewrite Hnext. unfold bind.
  rewrite request_reliable_eq by exact Hf. reflexivity.
Qed.

(** [calculateScores] in a world where every request goes through, on a
    round and a game that are there: the loop, then the win check. *)
Lemma calculateScores_reliable_eq (w : world) (roundId : uuid)
      (round : Rounds.row) (game : Games.row) :
  faults w = [] ->
  rounds_by_id roundId (db w) = [round] ->
  games_by_id (Rounds.game_id round) (db w) = [game] ->
  Games.target_score game <> 0 ->
  let gameId := Rounds.game_id round in
  let w2 := snd (for_of (scoreUpdates game (guesses_of_round roundId (db w)))
                        (apply_score_update gameId) w) in
  calculateScores roundId w
  = (tt, if existsb (fun p => GamePlayers.score p >=? Games.target_score game)
                    (players_of_game gameId (db w2))
         then after (update_games gameId (Games.set_status finished)) w2
         else w2).
Proof.
  intros Hf Hr Hg Ht gameId w2. subst gameId.
  set (gameId := Rounds.game_id round) in *.
  unfold calculateScores, try_catch.
  rewrite bind_select_reliable by exact Hf. rewrite Hr. cbn [single ok data].
  fold gameId.
  rewrite bind_select_reliable by exact Hf. rewrite Hg.
  cbn [single ok data].
  rewrite bind_select_reliable by exact Hf. cbn [ok data].
  unfold bind at 1.
  pose proof (score_loop_returns gameId
                (scoreUpdates game (guesses_of_round roundId (db w))) w) as Hret.
  pose proof (score_loop_same_games gameId
                (scoreUpdates game (guesses_of_round roundId (db w))) w) as Hgames.
  pose proof (score_loop_reliable gameId
                (scoreUpdates game (guesses_of_round roundId (db w))) w Hf) as Hf2.
  fold w2 in Hgames, Hf2. subst w2.
  destruct (for_of _ _ w) as [o w2]. simpl in Hret, Hgames, Hf2 |- *. subst o.
  rewrite bind_select_reliable by exact Hf2.
  rewrite bind_select_reliable by exact Hf2.
  unfold games_by_id in *. unfold same_games in Hgames. rewrite Hgames, Hg.
  cbn [single ok data targetScore_of].
  destruct (Z.eqb_spec (Games.target_score game) 0) as [E|_]; [contradiction|].
  destruct (existsb _ (players_of_game gameId (db w2))); [|reflexivity].
  unfold bind. rewrite request_reliable_eq by exact Hf2. reflexivity.
Qed.

(** C2, as the code has it.  Let every request go through, on a round and
    a game that are stored, with a target score other than 0.  After
    [calculateScores] the game is [finished] if some player of the game
    has a score of at least [target_score], and else has the status it
    had; its VIP is the one it had in both cases.  The VIP moves only
    when [rotateVIP] is called, finished or not: with the VIP at index
    [i] of the supplied players, the player at index [i + 1], taken
    modulo their number, becomes the VIP. *)
Theorem win_check_then_rotation (w : world) (roundId : uuid)
    (round : Rounds.row) (game : Games.row) :
  faults w = [] ->
  rounds_by_id roundId (db w) = [round] ->
  games_by_id (Rounds.game_id round) (db w) = [game] ->
  Games.target_score game <> 0 ->
  let gameId := Rounds.game_id round in
  let w' := snd (calculateScores roundId w) in
  let reached :=
    existsb (fun p => GamePlayers.score p >=? Games.target_score game)
            (players_of_game gameId (db w')) in
  let game' := if reached then Games.set_status finished game else game in
  games_by_id gameId (db w') = [game']
  /\ Games.current_vip_id game' = Games.current_vip_id game
  /\ map Games.status (games_by_id gameId (db w'))
     = [if reached then finished else Games.status game]
  /\ map Games.current_vip_id (games_by_id gameId (db w'))
     = [Games.current_vip_id game]
  /\ forall players vip next,
       Games.current_vip_id game = Some vip ->
       let i := findIndex (fun p => (GamePlayers.user_id p =? vip)%nat)
                          players in
       0 <= i ->
       nth_error players
                 (Z.to_nat ((i + 1) mod Z.of_nat (List.length players)))
         = Some next ->
       let w'' := snd (rotateVIP gameId players w') in
       fst (rotateVIP gameId players w') = true
       /\ games_by_id gameId (db w'')
          = [Games.set_current_vip_id (Some (GamePlayers.user_id next)) game']
       /\ map Games.current_vip_id (games_by_id gameId (db w''))
          = [Some (GamePlayers.user_id next)].
Proof.
  intros Hf Hr Hg Ht gameId w' reached game'.
  assert (Hf' : faults w' = []) by (apply calculateScores_reliable, Hf).
  assert (Hvip : Games.current_vip_id game' = Games.current_vip_id game)
    by (subst game'; destruct reached; reflexivity).
  assert (Hg' : games_by_id gameId (db w') = [game']).
  { subst game' reached w'.
    rewrite (@calculateScores_reliable_eq w roundId round game Hf Hr Hg Ht).
    fold gameId.
    cbn [snd].
    pose proof (score_loop_same_games gameId
                  (scoreUpdates game (guesses_of_round roundId (db w))) w)
      as Hgames.
    set (w2 := snd (for_of _ _ w)) in *.
    assert (Hg2 : games_by_id gameId (db w2) = [game]).
    { unfold games_by_id in *. unfold same_games in Hgames.
      rewrite Hgames. exact Hg. }
    destruct (existsb _ (players_of_game gameId (db w2))) eqn:E.
    - rewrite games_by_id_after_update, Hg2 by reflexivity.
      unfold players_of_game in *. cbn [after with_db db update_games snd
        with_games game_players]. rewrite E. reflexivity.
    - rewrite E. exact Hg2. }
  split; [exact Hg'|]. split; [exact Hvip|].
  split; [rewrite Hg'; subst game'; destruct reached; reflexivity|].
  split; [rewrite Hg'; cbn [map]; rewrite Hvip; reflexivity|].
  intros players vip next Hv i Hi Hnext w''. subst w''.
  rewrite Hv in Hvip.
  rewrite (@rotateVIP_next w' gameId game' players vip next
             Hf' Hg' Hvip Hi Hnext).
  split; [reflexivity|]. cbn [snd].
  rewrite games_by_id_after_update, Hg' by reflexivity.
  split; reflexivity.
Qed.

(** ** The properties on the game played through *)

Lemma win_check_then_rotation_witness :
  games_by_id Example.the_game
              (db (snd (calculateScores Example.round1 Example.guessed)))
  = [Games.set_status playing Example.game_row].
Proof.
  refine (proj1 (@win_check_then_rotation Example.guessed Example.round1
                   (Example.round_row player_guessing 0)
                   (Games.set_status playing Example.game_row)
                   eq_refl eq_refl eq_refl _)).
  simpl. discriminate.
Defined.

(** The claim as stated fails on the round played through: nobody has
    reached the target, the game is still [playing], and the VIP is
    alice as before, not bob who joined next. *)
Lemma round_result_leaves_the_vip :
  map Games.current_vip_id (games (db Example.revealed3))
    = [Some Example.alice]
  /\ map Rounds.status (rounds (db Example.scored)) = [complete]
  /\ map (fun p => (GamePlayers.user_id p, GamePlayers.score p))
         (players_of_game Example.the_game (db Example.scored))
     = [(Example.alice, 0); (Example.bob, 100); (Example.carol, -50)]
  /\ map (fun g => (Games.status g, Games.target_score g,
                    Games.current_vip_id g))
         (games (db Example.scored))
     = [(playing, 300, Some Example.alice)].
Proof. vm_compute. repeat split. Qed.

Lemma game_status_never_back_to_waiting_witness :
  exists g',
    nth_error (games (db (perform (StartRound Example.the_game Example.alice 1)
                                  Example.joined))) 0 = Some g'
    /\ Games.status g' = playing.
Proof.
  destruct (@game_status_never_back_to_waiting
              (StartRound Example.the_game Example.alice 1)
              Example.joined 0 Example.game_row eq_refl)
    as [g' [Hn [_ [_ [_ Hp]]]]].
  exists g'. split; [exact Hn|].
  exact (Hp Example.alice 1 eq_refl eq_refl).
Defined.

(** The claim as stated fails on the game that bob has won: it is
    [finished], and [startRound] takes it back to [playing]. *)
Lemma finished_game_back_to_playing :
  map Games.status (games (db Example.won)) = [finished]
  /\ map Games.status
         (games (db (perform (StartRound Example.the_game Example.alice 2)
                             Example.won)))
     = [playing].
Proof. vm_compute. split; reflexivity. Qed.

Lemma createGame_join_code_witness :
  String.length (join_code "0.abc123xyz") = 6%nat.
Proof.
  refine (proj1 (@createGame_join_code Example.start "abc123xyz"
                   Example.alice None eq_refl eq_refl _)).
  simpl. lia.
Defined.

(** The claim as stated fails when the code is taken: the one code drawn
    is ABC123, which the stored game has; [createGame] returns null with
    no game added, and draws no second code. *)
Lemma createGame_gives_up_on_collision :
  let run := createGame "0.abc123zzz" Example.bob None Example.created in
  join_code "0.abc123zzz" = "ABC123"%string
  /\ map Games.code (games (db Example.created)) = ["ABC123"%string]
  /\ fst run = None
  /\ db (snd run) = db Example.created
  /\ toasts (snd run) = ["Failed to create game"%string].
Proof. vm_compute. repeat split. Qed.

(** ** The scoring of a round when every request goes through *)

Lemma calculateScores_reliable_gen (w : world) (roundId : uuid)
      (round : Rounds.row) (game : Games.row) :
  faults w = [] ->
  rounds_by_id roundId (db w) = [round] ->
  games_by_id (Rounds.game_id round) (db w) = [game] ->
  let gameId := Rounds.game_id round in
  let w2 := snd (for_of (scoreUpdates game (guesses_of_round roundId (db w)))
                        (apply_score_update gameId) w) in
  calculateScores roundId w
  = (tt, if existsb (fun p => GamePlayers.score p
                              >=? targetScore_of (Some game))
                    (players_of_game gameId (db w2))
         then after (update_games gameId (Games.set_status finished)) w2
         else w2).
Proof.
  intros Hf Hr Hg gameId w2. subst gameId.
  set (gameId := Rounds.game_id round) in *.
  unfold calculateScores, try_catch.
  rewrite bind_select_reliable by exact Hf. rewrite Hr. cbn [single ok data].
  fold gameId.
  rewrite bind_select_reliable by exact Hf. rewrite Hg.
  cbn [single ok data].
  rewrite bind_select_reliable by exact Hf. cbn [ok data].
  unfold bind at 1.
  pose proof (score_loop_returns gameId
                (scoreUpdates game (guesses_of_round roundId (db w))) w) as Hret.
  pose proof (score_loop_same_games gameId
                (scoreUpdates game (guesses_of_round roundId (db w))) w) as Hgames.
  pose proof (score_loop_reliable gameId
                (scoreUpdates game (guesses_of_round roundId (db w))) w Hf) as Hf2.
  fold w2 in Hgames, Hf2. subst w2.
  destruct (for_of _ _ w) as [o w2]. simpl in Hret, Hgames, Hf2 |- *. subst o.
  rewrite bind_select_reliable by exact Hf2.
  rewrite bind_select_reliable by exact Hf2.
  unfold games_by_id in *. unfold same_games in Hgames. rewrite Hgames, Hg.
  cbn [single ok data].
  destruct (existsb _ (players_of_game gameId (db w2))); [|reflexivity].
  unfold bind. rewrite request_reliable_eq by exact Hf2. reflexivity.
Qed.

Lemma credit_entry_ids gameId ps (e : uuid * Z) :
  map (fun p => (GamePlayers.game_id p, GamePlayers.user_id p))
      (credit_entry gameId ps e)
  = map (fun p => (GamePlayers.game_id p, GamePlayers.user_id p)) ps.
Proof.
  unfold credit_entry. rewrite map_map. apply map_ext. intros p.
  destruct ((GamePlayers.game_id p =? gameId)%nat
            && (GamePlayers.user_id p =? fst e)%nat
            && int4 (GamePlayers.score p + snd e)); reflexivity.
Qed.

(** The users of a game, read off the pairs (game, user) of the rows. *)
Lemma users_of_game_from_ids gameId (ps : list GamePlayers.row) :
  map GamePlayers.user_id
      (filter (fun p => (GamePlayers.game_id p =? gameId)%nat) ps)
  = map snd (filter (fun k => (fst k =? gameId)%nat)
               (map (fun p => (GamePlayers.game_id p, GamePlayers.user_id p))
                    ps)).
Proof.
  induction ps as [|p ps IH]; simpl; [reflexivity|].
  destruct (GamePlayers.game_id p =? gameId)%nat; simpl; congruence.
Qed.

Lemma credit_entry_users gameId g ps (e : uuid * Z) :
  map GamePlayers.user_id
      (filter (fun p => (GamePlayers.game_id p =? g)%nat)
              (credit_entry gameId ps e))
  = map GamePlayers.user_id
        (filter (fun p => (GamePlayers.game_id p =? g)%nat) ps).
Proof.
  rewrite !users_of_game_from_ids, credit_entry_ids. reflexivity.
Qed.

(** With one row per user in a game, at most one row answers to a
    game and a user. *)
Lemma one_row_per_user gameId u (ps : list GamePlayers.row) p1 p2 rest :
  NoDup (map GamePlayers.user_id
             (filter (fun p => (GamePlayers.game_id p =? gameId)%nat) ps)) ->
  filter (fun p => (GamePlayers.game_id p =? gameId)%nat
                   && (GamePlayers.user_id p =? u)%nat) ps
  <> p1 :: p2 :: rest.
Proof.
  induction ps as [|p ps IH]; simpl; intros Hnd E; [discriminate|].
  destruct (GamePlayers.game_id p =? gameId)%nat eqn:Eg; simpl in *.
  - inversion Hnd as [|? ? Hp Hnd']; subst.
    destruct (GamePlayers.user_id p =? u)%nat eqn:Eu; [|exact (IH Hnd' E)].
    injection E as -> E. apply Nat.eqb_eq in Eu. apply Hp.
    assert (Hin : In p2 (filter (fun p => (GamePlayers.game_id p =? gameId)%nat
                                   && (GamePlayers.user_id p =? u)%nat) ps))
      by (rewrite E; left; reflexivity).
    apply filter_In in Hin. destruct Hin as [Hin Hk].
    apply andb_prop in Hk. destruct Hk as [Hk1 Hk2].
    apply Nat.eqb_eq in Hk2. rewrite Eu, <- Hk2.
    apply in_map, filter_In. auto.
  - exact (IH Hnd E).
Qed.

Lemma credit_entry_none gameId ps (e : uuid * Z) :
  filter (fun p => (GamePlayers.game_id p =? gameId)%nat
                   && (GamePlayers.user_id p =? fst e)%nat) ps = [] ->
  credit_entry gameId ps e = ps.
Proof.
  intros H. unfold credit_entry.
  rewrite <- (map_id ps) at 2. apply map_ext_in. intros p Hp. cbv beta.
  destruct ((GamePlayers.game_id p =? gameId)%nat
            && (GamePlayers.user_id p =? fst e)%nat) eqn:E; [|reflexivity].
  assert (Hin : In p (filter (fun p => (GamePlayers.game_id p =? gameId)%nat
                                && (GamePlayers.user_id p =? fst e)%nat) ps))
    by (apply filter_In; auto).
  rewrite H in Hin. contradiction.
Qed.

Lemma apply_score_update_reliable gameId e w :
  faults w = [] ->
  NoDup (map GamePlayers.user_id (players_of_game gameId (db w))) ->
  game_players (db (snd (apply_score_update gameId e w)))
    = credit_entry gameId (game_players (db w)) e
  /\ faults (snd (apply_score_update gameId e w)) = [].
Proof.
  intros Hf Hnd. destruct e as [u d].
  unfold apply_score_update.
  rewrite bind_select_reliable by exact Hf.
  destruct (player_rows gameId u (db w)) as [|player [|p2 rest]] eqn:Ef;
    unfold player_rows, players_of_game in *.
  - cbn [single data fail]. unfold ret. cbn [snd].
    rewrite credit_entry_none by exact Ef. auto.
  - cbn [single data ok]. unfold bind, ret.
    rewrite request_reliable_eq by exact Hf. cbn [snd fst].
    split; [|destruct w; exact Hf].
    unfold after, credit_entry, update_player_score.
    destruct (int4 (GamePlayers.score player + d)) eqn:Ei;
      cbn [snd fst with_db db game_players with_game_players].
    + apply map_ext_in. intros p Hp. cbv beta.
      destruct ((GamePlayers.game_id p =? gameId)%nat
                && (GamePlayers.user_id p =? u)%nat) eqn:E; [|reflexivity].
      rewrite (@In_filter_single _ _ _ _ p Ef Hp E). rewrite Ei. reflexivity.
    + rewrite <- (map_id (game_players (db w))) at 1.
      apply map_ext_in. intros p Hp. cbv beta.
      destruct ((GamePlayers.game_id p =? gameId)%nat
                && (GamePlayers.user_id p =? u)%nat) eqn:E; [|reflexivity].
      rewrite (@In_filter_single _ _ _ _ p Ef Hp E). rewrite Ei. reflexivity.
  - exfalso. exact (@one_row_per_user _ _ _ _ _ _ Hnd Ef).
Qed.

Lemma score_loop_credits gameId su : forall w,
  faults w = [] ->
  NoDup (map GamePlayers.user_id (players_of_game gameId (db w))) ->
  game_players (db (snd (for_of su (apply_score_update gameId) w)))
  = fold_left (credit_entry gameId) su (game_players (db w)).
Proof.
  induction su as [|e su IH]; intros w Hf Hnd; [reflexivity|].
  change (for_of (e :: su) (apply_score_update gameId))
    with (apply_score_update gameId e ;;
          for_of su (apply_score_update gameId)).
  unfold bind at 1.
  destruct (@apply_score_update_reliable gameId e w Hf Hnd) as [Hps Hf1].
  pose proof (apply_score_update_returns gameId e w) as Hret.
  destruct (apply_score_update gameId e w) as [o w1].
  simpl in Hps, Hf1, Hret. subst o. cbn [fold_left]. rewrite <- Hps.
  apply IH; [exact Hf1|].
  unfold players_of_game in *. rewrite Hps, credit_entry_users. exact Hnd.
Qed.

Lemma credited_nil gameId p : credited gameId [] p = p.
Proof.
  unfold credited. destruct (GamePlayers.game_id p =? gameId)%nat; reflexivity.
Qed.

Lemma fold_credit_entry gameId su : forall ps,
  NoDup (obj_keys su) ->
  fold_left (credit_entry gameId) su ps = map (credited gameId su) ps.
Proof.
  induction su as [|[u d] su IH]; intros ps Hnd.
  - simpl. rewrite <- (map_id ps) at 1. apply map_ext. intros p.
    symmetry. apply credited_nil.
  - inversion Hnd as [|? ? Hu Hnd']; subst. cbn [fold_left].
    rewrite IH by exact Hnd'. unfold credit_entry. rewrite map_map.
    apply map_ext. intros p. cbv beta. unfold credited. cbn [fst snd obj_get].
    rewrite (Nat.eqb_sym u (GamePlayers.user_id p)).
    assert (Hnone : obj_get su u = None).
    { destruct (obj_get su u) eqn:E; [|reflexivity].
      exfalso. apply Hu. apply obj_get_In_keys. congruence. }
    destruct (GamePlayers.game_id p =? gameId)%nat eqn:Eg;
      destruct (GamePlayers.user_id p =? u)%nat eqn:Eu; cbn [andb];
      rewrite ?Eg; try reflexivity.
    apply Nat.eqb_eq in Eu.
    destruct (int4 (GamePlayers.score p + d));
      cbn [GamePlayers.game_id GamePlayers.user_id GamePlayers.set_score];
      rewrite Eg, Eu, Hnone; reflexivity.
Qed.

(** The player rows after a scoring that went through. *)
Lemma calculateScores_players (w : world) (roundId : uuid)
      (round : Rounds.row) (game : Games.row) :
  faults w = [] ->
  rounds_by_id roundId (db w) = [round] ->
  games_by_id (Rounds.game_id round) (db w) = [game] ->
  NoDup (map GamePlayers.user_id
             (players_of_game (Rounds.game_id round) (db w))) ->
  game_players (db (snd (calculateScores roundId w)))
  = map (credited (Rounds.game_id round)
                  (scoreUpdates game (guesses_of_round roundId (db w))))
        (game_players (db w)).
Proof.
  intros Hf Hr Hg Hnd.
  rewrite (@calculateScores_reliable_gen w roundId round game Hf Hr Hg).
  cbn [snd].
  rewrite <- fold_credit_entry by apply scoreUpdates_keys_NoDup.
  rewrite <- score_loop_credits by assumption.
  destruct (existsb _ _); reflexivity.
Qed.

(** ** C1: from the guess to the score *)

Lemma guesses_by_own roundId u rks gs :
  guesses_by u (filter (fun q => (Guesses.round_id q =? roundId)%nat)
                       (guessesWithCorrectness roundId u rks gs))
  = guessesWithCorrectness roundId u rks gs.
Proof.
  unfold guesses_by, guessesWithCorrectness.
  induction gs as [|g gs IH]; simpl; [reflexivity|].
  rewrite !Nat.eqb_refl. simpl. rewrite Nat.eqb_refl. f_equal. exact IH.
Qed.

Lemma round_deltas_stored roundId d round game :
  rounds_by_id roundId d = [round] ->
  games_by_id (Rounds.game_id round) d = [game] ->
  round_deltas roundId d = scoreUpdates game (guesses_of_round roundId d).
Proof. intros Hr Hg. unfold round_deltas. rewrite Hr, Hg. reflexivity. Qed.

Lemma player_rows_credited gameId su u ps :
  filter (fun p => (GamePlayers.game_id p =? gameId)%nat
                   && (GamePlayers.user_id p =? u)%nat)
         (map (credited gameId su) ps)
  = map (credited gameId su)
        (filter (fun p => (GamePlayers.game_id p =? gameId)%nat
                          && (GamePlayers.user_id p =? u)%nat) ps).
Proof.
  induction ps as [|p ps IH]; simpl; [reflexivity|].
  assert (E : (GamePlayers.game_id (credited gameId su p) =? gameId)%nat
              && (GamePlayers.user_id (credited gameId su p) =? u)%nat
              = (GamePlayers.game_id p =? gameId)%nat
                && (GamePlayers.user_id p =? u)%nat).
  { unfold credited. destruct (GamePlayers.game_id p =? gameId)%nat eqn:Eg;
      [|rewrite Eg; reflexivity].
    destruct (obj_get su (GamePlayers.user_id p)); [|rewrite Eg; reflexivity].
    destruct (int4 _); simpl; rewrite Eg; reflexivity. }
  rewrite E. destruct ((GamePlayers.game_id p =? gameId)%nat
                       && (GamePlayers.user_id p =? u)%nat); simpl; congruence.
Qed.

(** C1, as the code has it.  The flag of a guess is set by [submitGuess],
    against the ranking stored at that moment, and is what
    [calculateScores] counts later.  Let player [u], who has no guess of
    the round yet, submit the guesses [gs] while the round has the
    ranking [rks] (one row per item), and let the round be scored in a
    later world where these are still the guesses of [u].  With [n] the
    number of the guesses and [k] the number of those that name the
    position [rks] gives to their item, the delta of [u] is
    [k * points_per_correct], plus [bonus_all_correct] when [k = n], else
    plus [penalty_all_wrong] when [k = 0], else nothing more; it is added
    to the stored score of [u] unless the sum is no [INTEGER].  A player
    without a guess has no entry, and the score stays as it is. *)
Theorem score_delta_of_round (w w2 : world) (roundId u : uuid)
    (gs : list placement) (round : Rounds.row) (game : Games.row)
    (p : GamePlayers.row) :
  faults w = [] ->
  NoDup (map Rankings.item_id (rankings_of_round roundId (db w))) ->
  guesses_by u (guesses_of_round roundId (db w)) = [] ->
  fst (submitGuess roundId u gs w) = true ->
  faults w2 = [] ->
  guesses_by u (guesses_of_round roundId (db w2))
  = guesses_by u (guesses_of_round roundId
                    (db (snd (submitGuess roundId u gs w)))) ->
  rounds_by_id roundId (db w2) = [round] ->
  games_by_id (Rounds.game_id round) (db w2) = [game] ->
  NoDup (map GamePlayers.user_id
             (players_of_game (Rounds.game_id round) (db w2))) ->
  player_rows (Rounds.game_id round) u (db w2) = [p] ->
  let rks := rankings_of_round roundId (db w) in
  let n := Z.of_nat (List.length gs) in
  let k := Z.of_nat (List.length (filter (matches_ranking rks) gs)) in
  let delta := k * Games.points_per_correct game + all_or_nothing game k n in
  let w3 := snd (calculateScores roundId w2) in
  obj_get (round_deltas roundId (db w2)) u
  = (if n =? 0 then None else Some delta)
  /\ map GamePlayers.score (player_rows (Rounds.game_id round) u (db w3))
     = [if (n =? 0) || negb (int4 (GamePlayers.score p + delta))
        then GamePlayers.score p
        else GamePlayers.score p + delta]
  /\ forall v,
       guesses_by v (guesses_of_round roundId (db w2)) = [] ->
       obj_get (round_deltas roundId (db w2)) v = None
       /\ player_rows (Rounds.game_id round) v (db w3)
          = player_rows (Rounds.game_id round) v (db w2).
Proof.
  intros Hf Hnd Hnew Hok Hf2 Hmine Hr Hg Hpl Hp rks n k delta w3.
  set (gameId := Rounds.game_id round) in *.
  set (su := scoreUpdates game (guesses_of_round roundId (db w2))).
  assert (Hrows : guesses_by u (guesses_of_round roundId (db w2))
                  = guessesWithCorrectness roundId u rks gs).
  { rewrite Hmine. unfold guesses_of_round.
    rewrite (@submitGuess_stores w roundId u gs Hf Hok), filter_app.
    unfold guesses_by in *. rewrite filter_app.
    unfold guesses_of_round in Hnew. rewrite Hnew. cbn [app].
    apply guesses_by_own. }
  assert (Hsu : obj_get su u = if n =? 0 then None else Some delta).
  { subst su. rewrite scoreUpdates_get, adjustment_all_or_nothing, Hrows.
    rewrite correct_count_stored by exact Hnd. fold k.
    assert (Hlen : List.length (guessesWithCorrectness roundId u rks gs)
                   = List.length gs)
      by (unfold guessesWithCorrectness; apply length_map).
    rewrite Hlen. fold n. fold delta. subst n.
    destruct gs as [|g gs']; [reflexivity|].
    cbn [guessesWithCorrectness map].
    destruct (Z.eqb_spec (Z.of_nat (List.length (g :: gs'))) 0) as [H0|_];
      [simpl in H0; lia | reflexivity]. }
  assert (Hdeltas : round_deltas roundId (db w2) = su)
    by exact (@round_deltas_stored roundId (db w2) round game Hr Hg).
  assert (Hafter : forall v,
            player_rows gameId v (db w3)
            = map (credited gameId su) (player_rows gameId v (db w2))).
  { intros v. unfold player_rows, w3.
    rewrite (@calculateScores_players w2 roundId round game Hf2 Hr Hg Hpl).
    apply player_rows_credited. }
  assert (Hkey : GamePlayers.game_id p = gameId /\ GamePlayers.user_id p = u).
  { assert (Hin : In p (player_rows gameId u (db w2)))
      by (rewrite Hp; left; reflexivity).
    unfold player_rows in Hin. apply filter_In in Hin.
    destruct Hin as [_ Hk]. apply andb_prop in Hk. destruct Hk as [H1 H2].
    apply Nat.eqb_eq in H1, H2. auto. }
  destruct Hkey as [Hpg Hpu].
  split; [rewrite Hdeltas; exact Hsu|]. split.
  - rewrite Hafter, Hp. cbn [map]. unfold credited.
    rewrite Hpg, Nat.eqb_refl, Hpu, Hsu.
    destruct (n =? 0); [reflexivity|]. cbn [orb].
    destruct (int4 (GamePlayers.score p + delta)); reflexivity.
  - intros v Hv.
    assert (Hnone : obj_get su v = None)
      by (subst su; rewrite scoreUpdates_get, Hv; reflexivity).
    split; [rewrite Hdeltas; exact Hnone|].
    rewrite Hafter. rewrite <- (map_id (player_rows gameId v (db w2))) at 2.
    apply map_ext_in. intros q Hq. unfold player_rows in Hq.
    apply filter_In in Hq. destruct Hq as [_ Hk]. apply andb_prop in Hk.
    destruct Hk as [H1 H2]. apply Nat.eqb_eq in H2.
    unfold credited. rewrite H1, H2, Hnone. reflexivity.
Qed.

Lemma score_delta_of_round_witness :
  map GamePlayers.score
      (player_rows Example.the_game Example.bob
         (db (snd (calculateScores Example.round1 Example.revealed3))))
  = [100].
Proof.
  assert (Hitems : NoDup (map Rankings.item_id
                            (rankings_of_round Example.round1
                                               (db Example.ranked)))).
  { vm_compute. repeat constructor; simpl; intuition discriminate. }
  assert (Hplayers : NoDup (map GamePlayers.user_id
                              (players_of_game
                                 (Rounds.game_id (Example.round_row revealing 3))
                                 (db Example.revealed3)))).
  { vm_compute. repeat constructor; simpl; intuition discriminate. }
  refine (eq_trans
            (proj1 (proj2 (@score_delta_of_round
               Example.ranked Example.revealed3 Example.round1 Example.bob
               Example.bob_order (Example.round_row revealing 3)
               (Games.set_status playing Example.game_row) Example.bob_row
               eq_refl Hitems eq_refl eq_refl eq_refl eq_refl eq_refl eq_refl
               Hplayers eq_refl))) _).
  vm_compute. reflexivity.
Defined.

(** The claim as stated fails for a guess sent before the ranking: bob
    names for every item the position the VIP gives it, but his guess is
    stored while the round has no ranking, so every flag is false; the
    ranking that follows does not change the flags, and the scoring takes
    the penalty of 50 from bob where the claim has 3 * 100 + 200. *)
Lemma guess_before_ranking_scores_penalty :
  let early := submitGuess Example.round1 Example.bob Example.vip_order
                           Example.chosen in
  let ranked := submitVIPRanking Example.round1 Example.vip_order
                                 (snd early) in
  let w' := snd (calculateScores Example.round1 (snd ranked)) in
  rankings_of_round Example.round1 (db Example.chosen) = []
  /\ fst early = true
  /\ fst ranked = true
  /\ forallb (matches_ranking
                (rankings_of_round Example.round1 (db (snd ranked))))
             Example.vip_order = true
  /\ map Guesses.is_correct (guesses (db (snd ranked)))
     = [Some false; Some false; Some false]
  /\ round_deltas Example.round1 (db (snd ranked)) = [(Example.bob, -50)]
  /\ map GamePlayers.score
         (player_rows Example.the_game Example.bob (db (snd ranked))) = [0]
  /\ map GamePlayers.score
         (player_rows Example.the_game Example.bob (db w')) = [-50].
Proof. vm_compute. repeat split. Qed.

(** * Further properties of the hook and the screens *)

(** ** What no action does to the stored rows *)

Lemma perform_keeps (Rd : database -> database -> Prop) :
  (forall A (m : M A), keeps (fun w w' => Rd (db w) (db w')) m ->
                       forall w, Rd (db w) (db (snd (m w)))).
Proof. intros A m H w. apply H. Qed.

(** Unfolds the statements of the hook down to the tables they write. *)
Ltac unfold_queries :=
  unfold select, insert_game, insert_game_player, insert_round,
    insert_rankings, insert_guesses, update_reveal_index, update_rounds,
    update_player_score, update_games;
  cbv zeta;
  repeat match goal with
         | |- context [if ?b then _ else _] => destruct b
         end;
  cbn [snd fst db games game_players rounds rankings guesses topic_items
       topics profiles next_uuid with_games with_game_players with_rounds
       with_rankings with_guesses with_next_uuid].

(** Takes a relation on the database through every request and every
    handler of an action; [solve_query] shows that one statement keeps
    it, [Hrefl] that it is reflexive. *)
Ltac through_action Hrefl solve_query :=
  unfold createGame, joinGame, startRound, selectTopic, submitVIPRanking,
    submitGuess, startReveal, revealNext, calculateScores,
    apply_score_update, passVIP, rotateVIP;
  keeps_steps;
  first [ apply keeps_request; [exact Hrefl | intros ?d; solve_query]
        | intros ?w; apply Hrefl ].

Lemma history_kept_refl d : history_kept d d.
Proof. split; exists []; rewrite app_nil_r; reflexivity. Qed.

Lemma history_kept_trans a b c :
  history_kept a b -> history_kept b c -> history_kept a c.
Proof.
  intros [[k1 H1] [q1 G1]] [[k2 H2] [q2 G2]]. split.
  - exists (k1 ++ k2)%list. rewrite H2, H1, app_assoc. reflexivity.
  - exists (q1 ++ q2)%list. rewrite G2, G1, app_assoc. reflexivity.
Qed.

(** X1. Rankings and guesses are only ever added: under every action,
    with any of its requests failing, the rows stored before are still
    there, unchanged and in place, followed by the new ones. *)
Theorem rankings_and_guesses_only_grow (a : action) (w : world) :
  exists ks qs,
    rankings (db (perform a w)) = (rankings (db w) ++ ks)%list
    /\ guesses (db (perform a w)) = (guesses (db w) ++ qs)%list.
Proof.
  assert (H : history_kept (db w) (db (perform a w))).
  { pose proof (fun w : world => history_kept_refl (db w)) as Hr.
    pose proof (fun a b c : world =>
                  @history_kept_trans (db a) (db b) (db c)) as Ht.
    destruct a; simpl; apply (@perform_keeps history_kept);
      through_action history_kept_refl
        ltac:(unfold_queries; first [ apply history_kept_refl
                                    | split; eexists;
                                      first [ reflexivity
                                            | symmetry; apply app_nil_r ] ]). }
  destruct H as [[ks Hk] [qs Hq]]. eauto.
Qed.

Lemma reference_kept_refl d : reference_kept d d.
Proof. repeat split. Qed.

Lemma reference_kept_trans a b c :
  reference_kept a b -> reference_kept b c -> reference_kept a c.
Proof. unfold reference_kept. intuition congruence. Qed.

(** X2. No action writes the topics, the topic items or the profiles. *)
Theorem reference_tables_untouched (a : action) (w : world) :
  topic_items (db (perform a w)) = topic_items (db w)
  /\ topics (db (perform a w)) = topics (db w)
  /\ profiles (db (perform a w)) = profiles (db w).
Proof.
  pose proof (fun w : world => reference_kept_refl (db w)) as Hr.
  pose proof (fun a b c : world =>
                @reference_kept_trans (db a) (db b) (db c)) as Ht.
  destruct a; simpl; apply (@perform_keeps reference_kept);
    through_action reference_kept_refl
      ltac:(unfold_queries; repeat split).
Qed.

Section RowsEvolve.
Variable A : Type.
Variable same : A -> A -> Prop.
Hypothesis same_refl : forall x, same x x.
Hypothesis same_trans : forall x y z, same x y -> same y z -> same x z.

Lemma rows_evolve_refl (l : list A) : rows_evolve same l l.
Proof. intros i x H. eauto. Qed.

Lemma rows_evolve_trans (l1 l2 l3 : list A) :
  rows_evolve same l1 l2 -> rows_evolve same l2 l3 -> rows_evolve same l1 l3.
Proof.
  intros H12 H23 i x Hx.
  destruct (H12 i x Hx) as [y [Hy Sxy]].
  destruct (H23 i y Hy) as [z [Hz Syz]]. eauto.
Qed.

Lemma rows_evolve_app (l new : list A) : rows_evolve same l (l ++ new).
Proof.
  intros i x Hx. exists x. split; [|apply same_refl].
  rewrite nth_error_app1 by (apply nth_error_Some; congruence). exact Hx.
Qed.

Lemma rows_evolve_map (f : A -> A) (l : list A) :
  (forall x, same x (f x)) -> rows_evolve same l (map f l).
Proof.
  intros Hf i x Hx. exists (f x). rewrite nth_error_map, Hx. auto.
Qed.
End RowsEvolve.

Lemma same_game_setup_refl g : same_game_setup g g.
Proof. repeat split. Qed.

Lemma same_game_setup_trans a b c :
  same_game_setup a b -> same_game_setup b c -> same_game_setup a c.
Proof. unfold same_game_setup. intuition congruence. Qed.

Lemma same_round_identity_refl r : same_round_identity r r.
Proof. repeat split. Qed.

Lemma same_round_identity_trans a b c :
  same_round_identity a b -> same_round_identity b c ->
  same_round_identity a c.
Proof. unfold same_round_identity. intuition congruence. Qed.

Lemma same_player_identity_refl p : same_player_identity p p.
Proof. repeat split. Qed.

Lemma same_player_identity_trans a b c :
  same_player_identity a b -> same_player_identity b c ->
  same_player_identity a c.
Proof. unfold same_player_identity. intuition congruence. Qed.

(** A table after one statement: as it was, with rows added, or with
    some rows rewritten by a change that [same] allows. *)
Ltac rows_after same_refl :=
  unfold_queries;
  first [ apply rows_evolve_refl; exact same_refl
        | apply rows_evolve_app; exact same_refl
        | apply rows_evolve_map; intros ?x;
          repeat match goal with
                 | |- context [if ?b then _ else _] => destruct b
                 end;
          repeat split ].

(** X3. Under every action, with any of its requests failing, a stored
    game keeps its place in the table, its id, its join code, its creator
    and its four scoring settings: only its status and its VIP are ever
    written. *)
Theorem game_setup_never_changes (a : action) (w : world) :
  rows_evolve same_game_setup (games (db w)) (games (db (perform a w))).
Proof.
  pose proof (fun d : database =>
                @rows_evolve_refl _ same_game_setup same_game_setup_refl
                                  (games d)) as Hrd.
  pose proof (fun w : world => Hrd (db w)) as Hr.
  pose proof (fun a b c : world =>
                @rows_evolve_trans _ same_game_setup same_game_setup_trans
                  (games (db a)) (games (db b)) (games (db c))) as Ht.
  destruct a; simpl; apply (@perform_keeps games_setup_kept);
    through_action Hrd ltac:(unfold games_setup_kept;
                             rows_after same_game_setup_refl).
Qed.

(** X4. Under every action, with any of its requests failing, a stored
    round keeps its place, its id, its game, its number, its topic and
    its VIP: only its status and its reveal index are ever written, and
    no round is removed. *)
Theorem round_identity_never_changes (a : action) (w : world) :
  rows_evolve same_round_identity (rounds (db w)) (rounds (db (perform a w))).
Proof.
  pose proof (fun d : database =>
                @rows_evolve_refl _ same_round_identity
                                  same_round_identity_refl (rounds d)) as Hrd.
  pose proof (fun w : world => Hrd (db w)) as Hr.
  pose proof (fun a b c : world =>
                @rows_evolve_trans _ same_round_identity
                  same_round_identity_trans
                  (rounds (db a)) (rounds (db b)) (rounds (db c))) as Ht.
  destruct a; simpl; apply (@perform_keeps rounds_kept);
    through_action Hrd ltac:(unfold rounds_kept;
                             rows_after same_round_identity_refl).
Qed.

Lemma players_frozen_refl d : players_frozen d d.
Proof. exists []. rewrite app_nil_r. reflexivity. Qed.

Lemma players_frozen_trans a b c :
  players_frozen a b -> players_frozen b c -> players_frozen a c.
Proof.
  intros [n1 H1] [n2 H2]. exists (n1 ++ n2)%list.
  rewrite H2, H1, app_assoc. reflexivity.
Qed.

(** X5. Under every action, with any of its requests failing, a stored
    player row keeps its place, its game, its user and its name, and no
    row is removed; and unless the action is [revealNext], the rows
    stored before are exactly as they were: a score is written by the
    scoring of a round only. *)
Theorem player_rows_persist (a : action) (w : world) :
  rows_evolve same_player_identity
              (game_players (db w)) (game_players (db (perform a w)))
  /\ (is_RevealNext a = false ->
      exists new,
        game_players (db (perform a w)) = (game_players (db w) ++ new)%list).
Proof.
  split.
  - pose proof (fun d : database =>
                  @rows_evolve_refl _ same_player_identity
                    same_player_identity_refl (game_players d)) as Hrd.
    pose proof (fun w : world => Hrd (db w)) as Hr.
    pose proof (fun a b c : world =>
                  @rows_evolve_trans _ same_player_identity
                    same_player_identity_trans (game_players (db a))
                    (game_players (db b)) (game_players (db c))) as Ht.
    destruct a; simpl; apply (@perform_keeps players_kept);
      through_action Hrd ltac:(unfold players_kept;
                               rows_after same_player_identity_refl).
  - pose proof (fun w : world => players_frozen_refl (db w)) as Hr.
    pose proof (fun a b c : world =>
                  @players_frozen_trans (db a) (db b) (db c)) as Ht.
    destruct a; simpl; intros Hnot; try discriminate;
      apply (@perform_keeps players_frozen);
      through_action players_frozen_refl
        ltac:(unfold players_frozen; unfold_queries; eexists;
              first [ reflexivity | symmetry; apply app_nil_r ]).
Qed.

(** ** The scoring on the whole player table *)

(** X6. When every request goes through, on a stored round of a stored
    game that has one row per user, [calculateScores] leaves the player
    table as it was except that every row of the game whose player has
    an entry in [scoreUpdates] has that delta added to its score, when
    the sum is an [INTEGER]; a sum out of that range is refused by the
    database and the row keeps its score.  Rows of other games and of
    players without a guess are untouched. *)
Theorem scoring_credits_each_player (w : world) (roundId : uuid)
    (round : Rounds.row) (game : Games.row) :
  faults w = [] ->
  rounds_by_id roundId (db w) = [round] ->
  games_by_id (Rounds.game_id round) (db w) = [game] ->
  NoDup (map GamePlayers.user_id
             (players_of_game (Rounds.game_id round) (db w))) ->
  let su := scoreUpdates game (guesses_of_round roundId (db w)) in
  let w' := snd (calculateScores roundId w) in
  game_players (db w')
  = map (fun p =>
           if (GamePlayers.game_id p =? Rounds.game_id round)%nat
           then match obj_get su (GamePlayers.user_id p) with
                | Some d =>
                    if int4 (GamePlayers.score p + d)
                    then GamePlayers.set_score (GamePlayers.score p + d) p
                    else p
                | None => p
                end
           else p)
        (game_players (db w))
  /\ map GamePlayers.score (game_players (db w'))
     = map (fun p =>
              if (GamePlayers.game_id p =? Rounds.game_id round)%nat
              then match obj_get su (GamePlayers.user_id p) with
                   | Some d =>
                       if int4 (GamePlayers.score p + d)
                       then GamePlayers.score p + d
                       else GamePlayers.score p
                   | None => GamePlayers.score p
                   end
              else GamePlayers.score p)
           (game_players (db w)).
Proof.
  intros Hf Hr Hg Hnd su w'.
  pose proof (@calculateScores_players w roundId round game Hf Hr Hg Hnd) as H.
  fold su in H. fold w' in H. split; [exact H|].
  rewrite H, map_map. apply map_ext. intros p. unfold credited.
  destruct (GamePlayers.game_id p =? Rounds.game_id round)%nat; [|reflexivity].
  destruct (obj_get su (GamePlayers.user_id p)); [|reflexivity].
  destruct (int4 _); reflexivity.
Qed.

Lemma scoring_credits_each_player_witness :
  map GamePlayers.score
      (game_players (db (snd (calculateScores Example.round1 Example.guessed))))
  = [0; 100; -50].
Proof.
  assert (Hnd : NoDup (map GamePlayers.user_id
                         (players_of_game
                            (Rounds.game_id (Example.round_row player_guessing 0))
                            (db Example.guessed)))).
  { vm_compute. repeat constructor; simpl; intuition discriminate. }
  refine (eq_trans
            (proj2 (@scoring_credits_each_player Example.guessed
                      Example.round1 (Example.round_row player_guessing 0)
                      (Games.set_status playing Example.game_row)
                      eq_refl eq_refl eq_refl Hnd)) _).
  vm_compute. reflexivity.
Defined.

Lemma calculateScores_keeps_guesses roundId w :
  guesses (db (snd (calculateScores roundId w))) = guesses (db w).
Proof.
  set (R := fun w w' : world => guesses (db w') = guesses (db w)).
  assert (Hrefl : forall w, R w w) by reflexivity.
  assert (Htrans : forall a b c, R a b -> R b c -> R a c)
    by (unfold R; congruence).
  assert (H : keeps R (calculateScores roundId)).
  { unfold calculateScores, apply_score_update.
    keeps_steps;
      try (apply (keeps_request (fun d d' => guesses d' = guesses d));
           try reflexivity;
           intros d; unfold update_player_score; destruct (int4 _);
           reflexivity).
    intros w0. reflexivity. }
  apply H.
Qed.

Lemma credited_users gameId su g (ps : list GamePlayers.row) :
  map GamePlayers.user_id
      (filter (fun p => (GamePlayers.game_id p =? g)%nat)
              (map (credited gameId su) ps))
  = map GamePlayers.user_id
        (filter (fun p => (GamePlayers.game_id p =? g)%nat) ps).
Proof.
  rewrite !users_of_game_from_ids. f_equal. f_equal.
  rewrite map_map. apply map_ext. intros p. unfold credited.
  destruct (GamePlayers.game_id p =? gameId)%nat; [|reflexivity].
  destruct (obj_get su (GamePlayers.user_id p)); [|reflexivity].
  destruct (int4 _); reflexivity.
Qed.

(** The game row after a scoring that went through. *)
Lemma win_check_gen (w : world) (roundId : uuid)
      (round : Rounds.row) (game : Games.row) :
  faults w = [] ->
  rounds_by_id roundId (db w) = [round] ->
  games_by_id (Rounds.game_id round) (db w) = [game] ->
  let w' := snd (calculateScores roundId w) in
  games_by_id (Rounds.game_id round) (db w')
  = [if existsb (fun p => GamePlayers.score p >=? targetScore_of (Some game))
                (players_of_game (Rounds.game_id round) (db w'))
     then Games.set_status finished game else game].
Proof.
  intros Hf Hr Hg w'. subst w'.
  rewrite (@calculateScores_reliable_gen w roundId round game Hf Hr Hg).
  cbn [snd].
  set (gameId := Rounds.game_id round) in *.
  pose proof (score_loop_same_games gameId
                (scoreUpdates game (guesses_of_round roundId (db w))) w)
    as Hgames.
  set (w2 := snd (for_of _ _ w)) in *.
  assert (Hg2 : games_by_id gameId (db w2) = [game]).
  { unfold games_by_id in *. unfold same_games in Hgames.
    rewrite Hgames. exact Hg. }
  destruct (existsb _ (players_of_game gameId (db w2))) eqn:E.
  - rewrite games_by_id_after_update, Hg2 by reflexivity.
    unfold players_of_game in *. cbn [after with_db db update_games snd
      with_games game_players]. rewrite E. reflexivity.
  - rewrite E. exact Hg2.
Qed.

(** X7. Nothing keeps a round from being scored twice: when every
    request goes through, a second [calculateScores] of the same round
    works out the same deltas and applies them to the table the first
    one left; so a row whose score stays an [INTEGER] both times has its
    delta added twice. *)
Theorem scoring_twice_credits_twice (w : world) (roundId : uuid)
    (round : Rounds.row) (game : Games.row) :
  faults w = [] ->
  rounds_by_id roundId (db w) = [round] ->
  games_by_id (Rounds.game_id round) (db w) = [game] ->
  NoDup (map GamePlayers.user_id
             (players_of_game (Rounds.game_id round) (db w))) ->
  let su := scoreUpdates game (guesses_of_round roundId (db w)) in
  let once := snd (calculateScores roundId w) in
  let twice := snd (calculateScores roundId once) in
  game_players (db once)
    = map (credited (Rounds.game_id round) su) (game_players (db w))
  /\ game_players (db twice)
     = map (credited (Rounds.game_id round) su) (game_players (db once))
  /\ forall i p d,
       nth_error (game_players (db w)) i = Some p ->
       GamePlayers.game_id p = Rounds.game_id round ->
       obj_get su (GamePlayers.user_id p) = Some d ->
       int4 (GamePlayers.score p + d) = true ->
       int4 (GamePlayers.score p + d + d) = true ->
       option_map GamePlayers.score (nth_error (game_players (db once)) i)
       = Some (GamePlayers.score p + d)
       /\ option_map GamePlayers.score (nth_error (game_players (db twice)) i)
          = Some (GamePlayers.score p + d + d).
Proof.
  intros Hf Hr Hg Hnd su once twice.
  assert (H1 : game_players (db once)
               = map (credited (Rounds.game_id round) su)
                     (game_players (db w)))
    by exact (@calculateScores_players w roundId round game Hf Hr Hg Hnd).
  assert (H2 : game_players (db twice)
               = map (credited (Rounds.game_id round) su)
                     (game_players (db once))).
  { assert (Hf1 : faults once = []) by (apply calculateScores_reliable, Hf).
    assert (Hr1 : rounds_by_id roundId (db once) = [round]).
    { unfold rounds_by_id, once. rewrite calculateScores_keeps_rounds.
      exact Hr. }
    pose proof (@win_check_gen w roundId round game Hf Hr Hg) as Hg1.
    cbv zeta in Hg1. fold once in Hg1.
    assert (Hnd1 : NoDup (map GamePlayers.user_id
                            (players_of_game (Rounds.game_id round)
                                             (db once)))).
    { unfold players_of_game in *. rewrite H1, credited_users. exact Hnd. }
    assert (Hq : guesses_of_round roundId (db once)
                 = guesses_of_round roundId (db w)).
    { unfold guesses_of_round, once. rewrite calculateScores_keeps_guesses.
      reflexivity. }
    subst twice.
    rewrite (@calculateScores_players once roundId round _ Hf1 Hr1 Hg1 Hnd1).
    rewrite Hq. fold su.
    destruct (existsb _ _); reflexivity. }
  split; [exact H1|]. split; [exact H2|].
  intros i p d Hp Hgame Hd Hi1 Hi2.
  assert (E1 : credited (Rounds.game_id round) su p
               = GamePlayers.set_score (GamePlayers.score p + d) p).
  { unfold credited. rewrite Hgame, Nat.eqb_refl, Hd, Hi1. reflexivity. }
  assert (E2 : credited (Rounds.game_id round) su
                 (GamePlayers.set_score (GamePlayers.score p + d) p)
               = GamePlayers.set_score (GamePlayers.score p + d + d)
                   (GamePlayers.set_score (GamePlayers.score p + d) p)).
  { unfold credited.
    cbn [GamePlayers.set_score GamePlayers.game_id GamePlayers.user_id
         GamePlayers.score].
    rewrite Hgame, Nat.eqb_refl, Hd, Hi2. reflexivity. }
  rewrite H2, H1, map_map, !nth_error_map, Hp. cbn [option_map].
  rewrite E1, E2. split; reflexivity.
Qed.

Lemma scoring_twice_credits_twice_witness :
  map GamePlayers.score
      (game_players
         (db (snd (calculateScores Example.round1
                     (snd (calculateScores Example.round1 Example.guessed))))))
  = [0; 200; -100].
Proof.
  assert (Hnd : NoDup (map GamePlayers.user_id
                         (players_of_game
                            (Rounds.game_id (Example.round_row player_guessing 0))
                            (db Example.guessed)))).
  { vm_compute. repeat constructor; simpl; intuition discriminate. }
  rewrite (proj1 (proj2 (@scoring_twice_credits_twice Example.guessed
                    Example.round1
                    (Example.round_row player_guessing 0)
                    (Games.set_status playing Example.game_row)
                    eq_refl eq_refl eq_refl Hnd))).
  vm_compute. reflexivity.
Defined.

(** X8. A target score of 0 is read as 1000: when every request goes
    through, the scoring of a round of a game whose [target_score] is 0
    sets the game to [finished] when some player of the game has 1000
    points or more, and leaves the game as it was otherwise. *)
Theorem target_zero_is_read_as_1000 (w : world) (roundId : uuid)
    (round : Rounds.row) (game : Games.row) :
  faults w = [] ->
  rounds_by_id roundId (db w) = [round] ->
  games_by_id (Rounds.game_id round) (db w) = [game] ->
  Games.target_score game = 0 ->
  let w' := snd (calculateScores roundId w) in
  games_by_id (Rounds.game_id round) (db w')
  = [if existsb (fun p => GamePlayers.score p >=? 1000)
                (players_of_game (Rounds.game_id round) (db w'))
     then Games.set_status finished game else game].
Proof.
  intros Hf Hr Hg Ht w'.
  pose proof (@win_check_gen w roundId round game Hf Hr Hg) as H.
  cbv zeta in H. fold w' in H. unfold targetScore_of in H.
  rewrite Ht in H. exact H.
Qed.

Lemma target_zero_is_read_as_1000_witness :
  games_by_id Example.the_game
    (db (snd (calculateScores Example.round1 ZeroTarget.guessed)))
  = [ZeroTarget.game_row].
Proof.
  refine (eq_trans
            (@target_zero_is_read_as_1000 ZeroTarget.guessed Example.round1
               (Example.round_row player_guessing 0) ZeroTarget.game_row
               eq_refl eq_refl eq_refl eq_refl) _).
  vm_compute. reflexivity.
Defined.

(** X9. [calculateScores] of a round id that no round has changes
    nothing in the database and writes one line to the console, with any
    of its requests failing; nothing is thrown on to the caller. *)
Theorem scoring_unknown_round (w : world) (roundId : uuid) :
  rounds_by_id roundId (db w) = [] ->
  db (snd (calculateScores roundId w)) = db w
  /\ console (snd (calculateScores roundId w))
     = (console w ++ ["Error calculating scores:"%string])%list
  /\ toasts (snd (calculateScores roundId w)) = toasts w.
Proof.
  intros Hr. destruct w as [d fs c t]. simpl in Hr.
  unfold calculateScores, try_catch, bind, request, select, throw,
    console_error.
  destruct fs as [|[|] fs]; simpl; rewrite ?Hr; simpl; auto.
Qed.

Lemma scoring_unknown_round_witness :
  db (snd (calculateScores Example.round1 Example.joined)) = db Example.joined.
Proof.
  exact (proj1 (@scoring_unknown_round Example.joined Example.round1 eq_refl)).
Defined.

(** ** Guesses and rankings against what is stored *)

Lemma find_none_absent {A} (f : A -> bool) (l : list A) :
  (forall x, In x l -> f x = false) -> find f l = None.
Proof.
  induction l as [|x t IH]; simpl; intros H; [reflexivity|].
  rewrite (H x) by (left; reflexivity). apply IH.
  intros y Hy. apply H. right. exact Hy.
Qed.

(** X10. A guess for an item that the stored ranking of the round does
    not rank is stored as incorrect, whatever position it names; so every
    guess sent before the VIP has ranked is stored as incorrect. *)
Theorem guess_on_unranked_item_is_wrong (w : world) (roundId userId : uuid)
    (gs : list placement) (p : placement) :
  faults w = [] ->
  fst (submitGuess roundId userId gs w) = true ->
  In p gs ->
  (forall k, In k (rankings_of_round roundId (db w)) ->
             Rankings.item_id k <> itemId p) ->
  In (Guesses.mk roundId userId (itemId p) (position p) (Some false))
     (guesses (db (snd (submitGuess roundId userId gs w)))).
Proof.
  intros Hf Hok Hp Hnone.
  rewrite submitGuess_stores by assumption.
  apply in_or_app. right. unfold guessesWithCorrectness.
  apply in_map_iff. exists p. split; [|exact Hp].
  unfold is_correct_against. rewrite find_none_absent; [reflexivity|].
  intros k Hk. apply Nat.eqb_neq. apply Hnone, Hk.
Qed.

Lemma guess_on_unranked_item_is_wrong_witness :
  In (Guesses.mk Example.round1 Example.bob Example.itemA 0 (Some false))
     (guesses (db (snd (submitGuess Example.round1 Example.bob
                          Example.vip_order Example.chosen)))).
Proof.
  refine (@guess_on_unranked_item_is_wrong Example.chosen Example.round1
            Example.bob Example.vip_order (mkplacement Example.itemA 0)
            eq_refl eq_refl _ _).
  - left. reflexivity.
  - vm_compute. intros k [].
Defined.

(** X11. Once a player has a guess stored for a round, any further
    submission of that player for the round that names the same item or
    the same position again is refused as a whole: [submitGuess] returns
    false, shows the toast, and the database is as it was. *)
Theorem second_guess_refused (w : world) (roundId userId : uuid)
    (gs : list placement) (q : Guesses.row) (p : placement) :
  faults w = [] ->
  In q (guesses (db w)) ->
  Guesses.round_id q = roundId ->
  Guesses.user_id q = userId ->
  In p gs ->
  itemId p = Guesses.item_id q \/ position p = Guesses.position q ->
  let w' := snd (submitGuess roundId userId gs w) in
  fst (submitGuess roundId userId gs w) = false
  /\ db w' = db w
  /\ toasts w' = (toasts w ++ ["Failed to submit guess"%string])%list.
Proof.
  intros Hf Hq Hr Hu Hp Hsame.
  destruct w as [d fs c t]. simpl in Hf, Hq. subst fs.
  unfold submitGuess, try_catch, bind, request, report, ret, throw, select.
  simpl. unfold insert_guesses.
  set (qs := guessesWithCorrectness roundId userId _ gs).
  destruct (forallb (guess_refs_ok d) qs); simpl; [|auto].
  assert (E : existsb (fun x => existsb (same_guess_key x) (guesses d)) qs
              = true).
  { apply existsb_exists.
    exists (Guesses.mk roundId userId (itemId p) (position p)
              (Some (is_correct_against (rankings_of_round roundId d) p))).
    split.
    - unfold qs, guessesWithCorrectness. apply in_map_iff. eauto.
    - apply existsb_exists. exists q. split; [exact Hq|].
      unfold same_guess_key. simpl. rewrite Hr, Hu, !Nat.eqb_refl. simpl.
      destruct Hsame as [->| ->];
        rewrite ?Nat.eqb_refl, ?Z.eqb_refl, ?orb_true_r; reflexivity. }
  rewrite E, orb_true_r. simpl. auto.
Qed.

Lemma second_guess_refused_witness :
  fst (submitGuess Example.round1 Example.bob Example.bob_order
         Example.guessed) = false.
Proof.
  refine (proj1 (@second_guess_refused Example.guessed Example.round1
                   Example.bob Example.bob_order
                   (Guesses.mk Example.round1 Example.bob Example.itemA 0
                               (Some true))
                   (mkplacement Example.itemA 0)
                   eq_refl _ eq_refl eq_refl _ _)).
  - vm_compute. left. reflexivity.
  - left. reflexivity.
  - left. reflexivity.
Defined.

(** X12. Once a round has a ranking row, any further ranking for the round
    that names a ranked item or a taken position again is refused as a
    whole: [submitVIPRanking] returns false, shows the toast, and the
    database, with the ranking stored first, is as it was. *)
Theorem second_ranking_refused (w : world) (roundId : uuid)
    (rks : list placement) (k : Rankings.row) (r : placement) :
  faults w = [] ->
  In k (rankings (db w)) ->
  Rankings.round_id k = roundId ->
  In r rks ->
  itemId r = Rankings.item_id k \/ position r = Rankings.position k ->
  let w' := snd (submitVIPRanking roundId rks w) in
  fst (submitVIPRanking roundId rks w) = false
  /\ db w' = db w
  /\ toasts w' = (toasts w ++ ["Failed to submit ranking"%string])%list.
Proof.
  intros Hf Hk Hr Hin Hsame.
  destruct w as [d fs c t]. simpl in Hf, Hk. subst fs.
  unfold submitVIPRanking, try_catch, bind, request, report, ret, throw.
  simpl. unfold insert_rankings.
  set (ks := map (fun x => Rankings.mk roundId (itemId x) (position x)) rks).
  destruct (forallb (ranking_refs_ok d) ks); simpl; [|auto].
  assert (E : existsb (fun x => existsb (same_ranking_key x) (rankings d)) ks
              = true).
  { apply existsb_exists.
    exists (Rankings.mk roundId (itemId r) (position r)). split.
    - unfold ks. apply in_map_iff. eauto.
    - apply existsb_exists. exists k. split; [exact Hk|].
      unfold same_ranking_key. simpl. rewrite Hr, Nat.eqb_refl. simpl.
      destruct Hsame as [->| ->];
        rewrite ?Nat.eqb_refl, ?Z.eqb_refl, ?orb_true_r; reflexivity. }
  rewrite E, orb_true_r. simpl. auto.
Qed.

Lemma second_ranking_refused_witness :
  fst (submitVIPRanking Example.round1
         [mkplacement Example.itemA 2; mkplacement Example.itemC 0]
         Example.ranked) = false.
Proof.
  refine (proj1 (@second_ranking_refused Example.ranked Example.round1
                   [mkplacement Example.itemA 2; mkplacement Example.itemC 0]
                   (Rankings.mk Example.round1 Example.itemA 0)
                   (mkplacement Example.itemA 2)
                   eq_refl _ eq_refl _ _)).
  - vm_compute. left. reflexivity.
  - left. reflexivity.
  - left. reflexivity.
Defined.

(** X13. An accepted ranking is stored whole, in the order given, after
    the rows stored before, and its round is set to [player_guessing]
    whatever status it had; nothing else is written. *)
Theorem accepted_ranking_is_stored (w : world) (roundId : uuid)
    (rks : list placement) :
  faults w = [] ->
  fst (submitVIPRanking roundId rks w) = true ->
  db (snd (submitVIPRanking roundId rks w))
  = with_rounds
      (map (fun r => if (Rounds.id r =? roundId)%nat
                     then Rounds.set_status player_guessing r else r)
           (rounds (db w)))
      (with_rankings
         (rankings (db w)
          ++ map (fun r => Rankings.mk roundId (itemId r) (position r)) rks)
         (db w)).
Proof.
  destruct w as [d fs c t]. simpl. intros ->.
  unfold submitVIPRanking, try_catch, bind, request, report, ret, throw.
  simpl. unfold insert_rankings.
  repeat match goal with
         | |- context [if ?b then _ else _] => destruct b; simpl
         end; try discriminate.
  reflexivity.
Qed.

Lemma accepted_ranking_is_stored_witness :
  rankings (db Example.ranked) = Example.vip_rows
  /\ rounds (db Example.ranked) = [Example.round_row player_guessing 0].
Proof.
  unfold Example.ranked.
  rewrite (@accepted_ranking_is_stored Example.chosen Example.round1
             Example.vip_order eq_refl eq_refl).
  vm_compute. split; reflexivity.
Defined.

(** ** Rounds, games and members as the actions make them *)

(** X14. When [selectTopic] returns a round, the round is new: it has a
    fresh id, the game, topic, VIP and number given, status
    [vip_ranking] and reveal index 0, and is stored after the rounds
    stored before; the game and the topic exist, and the game had no round
    of that number. *)
Theorem selectTopic_creates_round (w : world) (gameId topicId vipId : uuid)
    (n : Z) (r : Rounds.row) :
  faults w = [] ->
  fst (selectTopic gameId topicId vipId n w) = Some r ->
  r = Rounds.mk (next_uuid (db w)) gameId n topicId vipId vip_ranking 0
  /\ rounds (db (snd (selectTopic gameId topicId vipId n w)))
     = (rounds (db w) ++ [r])%list
  /\ games_by_id gameId (db w) <> []
  /\ In topicId (topics (db w))
  /\ (forall r0, In r0 (rounds (db w)) -> Rounds.game_id r0 = gameId ->
                 Rounds.round_number r0 <> n)
  /\ (forall r0, In r0 (rounds (db w)) -> Rounds.id r0 <> Rounds.id r).
Proof.
  destruct w as [d fs c t]. simpl. intros ->.
  unfold selectTopic, try_catch, bind, request, report, ret, throw.
  simpl. unfold insert_round. simpl.
  destruct (existsb (fun g => (Games.id g =? gameId)%nat) (games d))
    eqn:Eg; simpl; [|discriminate].
  destruct (existsb (Nat.eqb topicId) (topics d)) eqn:Et; simpl;
    [|discriminate].
  destruct (existsb (fun r' => (Rounds.game_id r' =? gameId)%nat
                               && (Rounds.round_number r' =? n)) (rounds d))
    eqn:En; simpl; [discriminate|].
  destruct (existsb (fun r' => (Rounds.id r' =? next_uuid d)%nat) (rounds d))
    eqn:Ei; simpl; [discriminate|].
  intros H. injection H as <-. repeat split.
  - unfold games_by_id. simpl. intros E.
    apply existsb_exists in Eg. destruct Eg as [g [Hg Hid]].
    assert (Hin : In g (filter (fun g => (Games.id g =? gameId)%nat) (games d)))
      by (apply filter_In; auto).
    rewrite E in Hin. contradiction.
  - apply existsb_exists in Et. destruct Et as [x [Hx E]].
    apply Nat.eqb_eq in E. subst x. exact Hx.
  - intros r0 Hr0 Hgame Hnum.
    pose proof (existsb_none _ _ r0 En Hr0) as E. simpl in E.
    rewrite Hgame, Hnum, Nat.eqb_refl, Z.eqb_refl in E. discriminate.
  - intros r0 Hr0 Hid.
    pose proof (existsb_none _ _ r0 Ei Hr0) as E. simpl in E.
    simpl in Hid. rewrite Hid, Nat.eqb_refl in E. discriminate.
Qed.

Lemma selectTopic_creates_round_witness :
  rounds (db Example.chosen) = [Example.round_row vip_ranking 0].
Proof.
  refine (eq_trans
            (proj1 (proj2 (@selectTopic_creates_round Example.started
                             Example.the_game Example.topic Example.alice 1
                             (Example.round_row vip_ranking 0)
                             eq_refl eq_refl))) _).
  vm_compute. reflexivity.
Defined.

(** X15. [selectTopic] is refused when the game is not stored, when the
    topic is not stored, or when the game has a round of that number
    already: it returns null, shows the toast, and the database is as it
    was. *)
Theorem selectTopic_refused (w : world) (gameId topicId vipId : uuid)
    (n : Z) :
  faults w = [] ->
  (games_by_id gameId (db w) = []
   \/ ~ In topicId (topics (db w))
   \/ exists r0, In r0 (rounds (db w)) /\ Rounds.game_id r0 = gameId
                 /\ Rounds.round_number r0 = n) ->
  let w' := snd (selectTopic gameId topicId vipId n w) in
  fst (selectTopic gameId topicId vipId n w) = None
  /\ db w' = db w
  /\ toasts w' = (toasts w ++ ["Failed to select topic"%string])%list.
Proof.
  intros Hf Hbad. destruct w as [d fs c t]. simpl in Hf, Hbad. subst fs.
  unfold selectTopic, try_catch, bind, request, report, ret, throw.
  simpl. unfold insert_round. simpl.
  destruct (existsb (fun g => (Games.id g =? gameId)%nat) (games d))
    eqn:Eg; simpl; [|auto].
  destruct (existsb (Nat.eqb topicId) (topics d)) eqn:Et; simpl; [|auto].
  destruct (existsb (fun r' => (Rounds.game_id r' =? gameId)%nat
                               && (Rounds.round_number r' =? n)) (rounds d))
    eqn:En; simpl; [auto|].
  exfalso. destruct Hbad as [H|[H|[r0 [Hr0 [Hgame Hnum]]]]].
  - unfold games_by_id in H. apply existsb_exists in Eg.
    destruct Eg as [g [Hg Hid]].
    assert (Hin : In g (filter (fun g => (Games.id g =? gameId)%nat) (games d)))
      by (apply filter_In; auto).
    rewrite H in Hin. contradiction.
  - apply H. apply existsb_exists in Et. destruct Et as [x [Hx E]].
    apply Nat.eqb_eq in E. subst x. exact Hx.
  - pose proof (existsb_none _ _ r0 En Hr0) as E. simpl in E.
    rewrite Hgame, Hnum, Nat.eqb_refl, Z.eqb_refl in E. discriminate.
Qed.

Lemma selectTopic_refused_witness :
  fst (selectTopic Example.the_game Example.topic Example.bob 1
                   Example.scored) = None.
Proof.
  refine (proj1 (@selectTopic_refused Example.scored Example.the_game
                   Example.topic Example.bob 1 eq_refl _)).
  right. right. exists (Example.round_row complete 3).
  vm_compute. auto.
Defined.

(** X16. When [createGame] returns a game, the game has a fresh id, the
    code drawn, the creator as creator and as VIP, status [waiting] and
    the settings given or else 1000, 100, 200 and -50; and the creator is
    a player of it with score 0, stored after the player rows stored
    before. *)
Theorem createGame_enrols_creator (w w' : world) (r : string) (userId : uuid)
    (settings : option Settings.t) (game : Games.row) :
  faults w = [] ->
  createGame r userId settings w = (Some game, w') ->
  game = Games.mk (next_uuid (db w)) (join_code r) userId (Some userId) waiting
                  (setting Settings.target_score settings 1000)
                  (setting Settings.points_per_correct settings 100)
                  (setting Settings.bonus_all_correct settings 200)
                  (setting Settings.penalty_all_wrong settings (-50))
  /\ games (db w') = (games (db w) ++ [game])%list
  /\ (exists name,
        game_players (db w')
        = (game_players (db w)
           ++ [GamePlayers.mk (Games.id game) userId name 0])%list)
  /\ (forall g0, In g0 (games (db w)) ->
                 Games.id g0 <> Games.id game
                 /\ Games.code g0 <> Games.code game).
Proof.
  destruct w as [d fs c t]. simpl. intros ->.
  unfold createGame, try_catch, bind, request, report, ret, throw, select.
  simpl. unfold insert_game. simpl.
  destruct (existsb _ (games d) || existsb _ (games d))%bool eqn:Enew; simpl;
    [discriminate|].
  apply orb_false_elim in Enew. destruct Enew as [Ecode Eid].
  unfold insert_game_player. simpl.
  repeat match goal with
         | |- context [if ?b then _ else _] => destruct b; simpl
         end; try discriminate.
  intros H. injection H as <- <-. simpl.
  split; [reflexivity|]. split; [reflexivity|]. split; [eauto|].
  intros g0 Hg0. split.
  - intros Hid. pose proof (existsb_none _ _ g0 Eid Hg0) as E. simpl in E.
    rewrite Hid, Nat.eqb_refl in E. discriminate.
  - intros Hc. pose proof (existsb_none _ _ g0 Ecode Hg0) as E. simpl in E.
    rewrite Hc, String.eqb_refl in E. discriminate.
Qed.

Lemma createGame_enrols_creator_witness :
  game_players (db Example.created)
  = [GamePlayers.mk Example.the_game Example.alice "alice" 0].
Proof.
  destruct (@createGame_enrols_creator Example.start Example.created
              "0.abc123xyz" Example.alice (Some Example.config)
              (Games.mk Example.the_game "ABC123" Example.alice
                        (Some Example.alice) waiting 300 100 200 (-50))
              eq_refl eq_refl) as [_ [_ [[name H] _]]].
  vm_compute. reflexivity.
Defined.



(** X18. A user who joins a game by its code and is no player of it yet
    becomes its last player in join order, with score 0; the status of
    the game is not looked at. *)
Theorem joinGame_adds_last_player (w : world) (code : string)
    (userId : uuid) (game : Games.row) :
  faults w = [] ->
  games_by_code code (db w) = [game] ->
  player_rows (Games.id game) userId (db w) = [] ->
  fst (joinGame code userId w) = Some (Games.id game)
  /\ exists name,
       game_players (db (snd (joinGame code userId w)))
       = (game_players (db w)
          ++ [GamePlayers.mk (Games.id game) userId name 0])%list.
Proof.
  destruct w as [d fs c t]. simpl. intros -> Hg Hp.
  assert (Hin : In game (games d)).
  { assert (H : In game (games_by_code code d)) by (rewrite Hg; left; auto).
    apply filter_In in H. tauto. }
  assert (Efk : existsb (fun g => (Games.id g =? Games.id game)%nat) (games d)
                = true).
  { apply existsb_exists. exists game. split; [exact Hin|].
    apply Nat.eqb_refl. }
  assert (Eu : existsb (fun p' => (GamePlayers.game_id p' =? Games.id game)%nat
                          && (GamePlayers.user_id p' =? userId)%nat)
                       (game_players d) = false).
  { apply not_true_is_false. rewrite existsb_exists. intros [p [Hp1 Hp2]].
    assert (H : In p (player_rows (Games.id game) userId d))
      by (apply filter_In; auto).
    rewrite Hp in H. contradiction. }
  unfold joinGame, try_catch, bind, request, report, ret, throw, select.
  simpl. rewrite Hg. simpl. rewrite Hp. simpl.
  unfold insert_game_player. simpl. rewrite Efk, Eu. simpl. eauto.
Qed.

Lemma joinGame_adds_last_player_witness :
  fst (joinGame "ABC123" Example.bob Example.created) = Some Example.the_game.
Proof.
  exact (proj1 (@joinGame_adds_last_player Example.created "ABC123"
                  Example.bob
                  (Games.mk Example.the_game "ABC123" Example.alice
                            (Some Example.alice) waiting 300 100 200 (-50))
                  eq_refl eq_refl eq_refl)).
Defined.

(** ** The rotation of the VIP *)

(** X19. [rotateVIP] for a game that is not stored returns false and
    leaves the world as it was, without a line on the console; for a
    stored game with a VIP and an empty list of players it returns false,
    writes one line to the console, and leaves the database as it was. *)
Theorem rotateVIP_without_game_or_players (w : world) (gameId : uuid)
    (players : list GamePlayers.row) :
  faults w = [] ->
  (games_by_id gameId (db w) = [] -> rotateVIP gameId players w = (false, w))
  /\ (forall game vip,
        games_by_id gameId (db w) = [game] ->
        Games.current_vip_id game = Some vip ->
        rotateVIP gameId [] w
        = (false, mkworld (db w) (faults w)
                          (console w ++ ["Error rotating VIP:"%string])
                          (toasts w))).
Proof.
  intros Hf. split.
  - intros Hg. unfold rotateVIP, try_catch.
    rewrite bind_select_reliable by exact Hf. rewrite Hg.
    destruct w. reflexivity.
  - intros game vip Hg Hv. unfold rotateVIP, try_catch.
    rewrite bind_select_reliable by exact Hf. rewrite Hg.
    cbn [single ok data]. rewrite Hv. reflexivity.
Qed.

Lemma rotateVIP_without_game_or_players_witness :
  fst (rotateVIP Example.the_game [] Example.joined) = false
  /\ console (snd (rotateVIP Example.the_game [] Example.joined))
     = ["Error rotating VIP:"%string].
Proof.
  rewrite (proj2 (@rotateVIP_without_game_or_players Example.joined
                    Example.the_game [] eq_refl)
                 Example.game_row Example.alice eq_refl eq_refl).
  split; reflexivity.
Defined.

Lemma findIndex_nth (players : list GamePlayers.row) : forall i p,
  NoDup (map GamePlayers.user_id players) ->
  nth_error players i = Some p ->
  findIndex (fun x => (GamePlayers.user_id x =? GamePlayers.user_id p)%nat)
            players = Z.of_nat i.
Proof.
  induction players as [|x t IH]; intros i p Hnd Hi.
  - destruct i; discriminate.
  - simpl in Hnd. inversion Hnd as [|? ? Hx Hnd']; subst.
    destruct i as [|i]; simpl in Hi.
    + injection Hi as ->. simpl. rewrite Nat.eqb_refl. reflexivity.
    + cbn [findIndex].
      destruct (Nat.eqb_spec (GamePlayers.user_id x) (GamePlayers.user_id p))
        as [E|_].
      * exfalso. apply Hx. rewrite E. apply in_map.
        eapply nth_error_In. exact Hi.
      * rewrite (IH i p Hnd' Hi).
        destruct (Z.ltb_spec (Z.of_nat i) 0); lia.
Qed.

(** One rotation, by the index of the VIP among players with distinct
    user ids. *)
Lemma rotateVIP_step (w : world) (gameId : uuid) (game : Games.row)
      (players : list GamePlayers.row) (i : nat) (p : GamePlayers.row) :
  faults w = [] ->
  games_by_id gameId (db w) = [game] ->
  NoDup (map GamePlayers.user_id players) ->
  nth_error players i = Some p ->
  Games.current_vip_id game = Some (GamePlayers.user_id p) ->
  exists q,
    nth_error players ((i + 1) mod List.length players) = Some q
    /\ faults (snd (rotateVIP gameId players w)) = []
    /\ games_by_id gameId (db (snd (rotateVIP gameId players w)))
       = [Games.set_current_vip_id (Some (GamePlayers.user_id q)) game].
Proof.
  intros Hf Hg Hnd Hi Hv.
  assert (Hlen : (i < List.length players)%nat)
    by (apply nth_error_Some; congruence).
  assert (Hlt : ((i + 1) mod List.length players < List.length players)%nat)
    by (apply Nat.mod_upper_bound; lia).
  destruct (nth_error players ((i + 1) mod List.length players)) as [q|] eqn:Eq;
    [|apply nth_error_None in Eq; lia].
  exists q. split; [reflexivity|].
  assert (Eidx : Z.to_nat ((Z.of_nat i + 1) mod Z.of_nat (List.length players))
                 = ((i + 1) mod List.length players)%nat).
  { replace (Z.of_nat i + 1) with (Z.of_nat (i + 1)) by lia.
    rewrite <- Nat2Z.inj_mod. apply Nat2Z.id. }
  pose proof (@rotateVIP_next w gameId game players (GamePlayers.user_id p) q
                Hf Hg Hv) as Hrot.
  cbv zeta in Hrot. rewrite (@findIndex_nth players i p Hnd Hi), Eidx in Hrot.
  rewrite (Hrot ltac:(lia) Eq). cbn [snd]. split.
  - destruct w. exact Hf.
  - rewrite games_by_id_after_update, Hg by reflexivity. reflexivity.
Qed.

Lemma rotate_times_index (players : list GamePlayers.row) (gameId : uuid) :
  NoDup (map GamePlayers.user_id players) ->
  forall k w game i p,
    faults w = [] ->
    games_by_id gameId (db w) = [game] ->
    nth_error players i = Some p ->
    Games.current_vip_id game = Some (GamePlayers.user_id p) ->
    exists q,
      nth_error players ((i + k) mod List.length players) = Some q
      /\ map Games.current_vip_id
             (games_by_id gameId (db (rotate_times k gameId players w)))
         = [Some (GamePlayers.user_id q)].
Proof.
  intros Hnd. induction k as [|k IH]; intros w game i p Hf Hg Hi Hv.
  - assert (Hlen : (i < List.length players)%nat)
      by (apply nth_error_Some; congruence).
    exists p. rewrite Nat.add_0_r, Nat.mod_small by exact Hlen.
    split; [exact Hi|]. simpl. rewrite Hg. simpl. rewrite Hv. reflexivity.
  - destruct (@rotateVIP_step w gameId game players i p Hf Hg Hnd Hi Hv)
      as [q [Hq [Hf1 Hg1]]].
    destruct (IH (snd (rotateVIP gameId players w))
                 (Games.set_current_vip_id (Some (GamePlayers.user_id q)) game)
                 ((i + 1) mod List.length players)%nat q Hf1 Hg1 Hq eq_refl)
      as [q' [Hq' Hvip]].
    exists q'. split; [|exact Hvip].
    rewrite Nat.Div0.add_mod_idemp_l in Hq'.
    replace (i + S k)%nat with (i + 1 + k)%nat by lia. exact Hq'.
Qed.

(** X20. Rotation goes round the ring of the supplied players: with
    distinct players and the VIP at index [i], after [k] calls of
    [rotateVIP] the VIP is the player at index [i + k] modulo their
    number; so after as many calls as there are players the VIP is the
    one it was. *)
Theorem rotation_is_a_ring (w : world) (gameId : uuid) (game : Games.row)
    (players : list GamePlayers.row) (i : nat) (p : GamePlayers.row) :
  faults w = [] ->
  games_by_id gameId (db w) = [game] ->
  NoDup (map GamePlayers.user_id players) ->
  nth_error players i = Some p ->
  Games.current_vip_id game = Some (GamePlayers.user_id p) ->
  (forall k, exists q,
      nth_error players ((i + k) mod List.length players) = Some q
      /\ map Games.current_vip_id
             (games_by_id gameId (db (rotate_times k gameId players w)))
         = [Some (GamePlayers.user_id q)])
  /\ map Games.current_vip_id
         (games_by_id gameId
            (db (rotate_times (List.length players) gameId players w)))
     = [Some (GamePlayers.user_id p)].
Proof.
  intros Hf Hg Hnd Hi Hv. split.
  - intros k. exact (@rotate_times_index players gameId Hnd k w game i p
                       Hf Hg Hi Hv).
  - destruct (@rotate_times_index players gameId Hnd (List.length players)
                w game i p Hf Hg Hi Hv) as [q [Hq Hvip]].
    assert (Hlen : (i < List.length players)%nat)
      by (apply nth_error_Some; congruence).
    replace ((i + List.length players) mod List.length players)%nat
      with i in Hq.
    + rewrite Hi in Hq. injection Hq as <-. exact Hvip.
    + rewrite <- (Nat.mul_1_l (List.length players)) at 1.
      rewrite Nat.Div0.mod_add. symmetry. apply Nat.mod_small. exact Hlen.
Qed.

Lemma rotation_is_a_ring_witness :
  map Games.current_vip_id
      (games_by_id Example.the_game
         (db (rotate_times 3 Example.the_game
                (game_players (db Example.joined)) Example.joined)))
  = [Some Example.alice].
Proof.
  assert (Hnd : NoDup (map GamePlayers.user_id
                         (game_players (db Example.joined)))).
  { vm_compute. repeat constructor; simpl; intuition discriminate. }
  exact (proj2 (@rotation_is_a_ring Example.joined Example.the_game
                  Example.game_row (game_players (db Example.joined)) 0
                  (GamePlayers.mk Example.the_game Example.alice "alice" 0)
                  eq_refl eq_refl Hnd eq_refl eq_refl)).
Defined.

(** ** A failed call *)

(** X21. When every request goes through, a call that fails has written
    nothing: whenever [joinGame] or [selectTopic] returns null, or
    [startRound], [submitVIPRanking], [submitGuess], [startReveal],
    [revealNext], [rotateVIP] or [passVIP] returns false, the database is
    as it was before the call.  ([createGame] is the exception.) *)
Theorem failed_call_writes_nothing (a : action) (w : world) :
  faults w = [] ->
  is_CreateGame a = false ->
  failed a w = true ->
  db (perform a w) = db w.
Proof.
  intros Hf Hc Hfail. destruct w as [d fs c t]. simpl in Hf. subst fs.
  (* [createGame] is excluded; [startRound] and [startReveal] never fail *)
  destruct a; try discriminate; unfold failed, perform in Hfail |- *;
    revert Hfail;
    match goal with
    | |- context [fst ?run] => destruct run as [res w1] eqn:E
    end;
    cbn [fst snd]; revert E.
  - (* joinGame *)
    unfold joinGame, try_catch, bind, request, report, ret, throw, select.
    simpl.
    destruct (map Games.id (games_by_code code d)) as [|g0 [|g1 gs]]; simpl;
      try (intros E; inversion E; subst; cbn [db]; reflexivity).
    destruct (player_rows g0 userId d) as [|p0 [|p1 ps]]; simpl;
      unfold insert_game_player; simpl;
      repeat match goal with
             | |- context [if ?b then _ else _] => destruct b; simpl
             end;
      intros E; inversion E; subst; simpl; try discriminate; reflexivity.
  - (* selectTopic *)
    unfold selectTopic, try_catch, bind, request, report, ret, throw.
    simpl. unfold insert_round. simpl.
    repeat match goal with
           | |- context [if ?b then _ else _] => destruct b; simpl
           end;
      intros E; inversion E; subst; simpl; try discriminate; reflexivity.
  - (* submitVIPRanking *)
    unfold submitVIPRanking, try_catch, bind, request, report, ret, throw.
    simpl. unfold insert_rankings.
    repeat match goal with
           | |- context [if ?b then _ else _] => destruct b; simpl
           end;
      intros E; inversion E; subst; simpl; try discriminate; reflexivity.
  - (* submitGuess *)
    unfold submitGuess, try_catch, bind, request, report, ret, throw, select.
    simpl. unfold insert_guesses.
    repeat match goal with
           | |- context [if ?b then _ else _] => destruct b; simpl
           end;
      intros E; inversion E; subst; simpl; try discriminate; reflexivity.
  - (* revealNext never fails *)
    intros E.
    pose proof (revealNext_returns_true roundId currentIndex totalItems
                  (mkworld d [] c t)) as Ht.
    rewrite E in Ht. simpl in Ht. subst res. discriminate.
  - (* rotateVIP *)
    unfold rotateVIP, try_catch, bind, request, ret, throw, select. simpl.
    destruct (games_by_id gameId d) as [|g [|g1 gs]]; simpl;
      try (intros E; inversion E; subst; cbn [db]; reflexivity).
    destruct (Games.current_vip_id g); simpl;
      [|intros E; inversion E; subst; cbn [db]; reflexivity].
    destruct (js_index players _); simpl;
      intros E; inversion E; subst; simpl; try discriminate; reflexivity.
  - (* passVIP *)
    unfold passVIP, rotateVIP, try_catch, bind, request, ret, throw, select.
    simpl.
    destruct (games_by_id gameId d) as [|g [|g1 gs]]; simpl;
      try (intros E; inversion E; subst; cbn [db]; reflexivity).
    destruct (Games.current_vip_id g); simpl;
      [|intros E; inversion E; subst; cbn [db]; reflexivity].
    destruct (js_index players _); simpl;
      intros E; inversion E; subst; simpl; try discriminate; reflexivity.
Qed.

Lemma failed_call_writes_nothing_witness :
  db (perform (JoinGame "NOCODE" Example.bob) Example.created)
  = db Example.created.
Proof.
  exact (@failed_call_writes_nothing (JoinGame "NOCODE" Example.bob)
           Example.created eq_refl eq_refl eq_refl).
Defined.

(** X22. [submitVIPRanking] is not all or nothing: when the insert of an
    acceptable, non-empty ranking goes through and the update of the
    round is lost, it returns false and shows the toast, the ranking is
    stored and the round has the status it had; and sending the same
    ranking again, with every request going through, is refused, so this
    call cannot move the round on any more. *)
Theorem lost_status_update_strands_ranking (w : world) (roundId : uuid)
    (first : placement) (more : list placement) :
  faults w = [false; true] ->
  error (fst (insert_rankings
                (map (fun r => Rankings.mk roundId (itemId r) (position r))
                     (first :: more))
                (db w))) = None ->
  let rks := first :: more in
  let w' := snd (submitVIPRanking roundId rks w) in
  fst (submitVIPRanking roundId rks w) = false
  /\ rankings (db w')
     = (rankings (db w)
        ++ map (fun r => Rankings.mk roundId (itemId r) (position r)) rks)%list
  /\ rounds (db w') = rounds (db w)
  /\ faults w' = []
  /\ fst (submitVIPRanking roundId rks w') = false.
Proof.
  intros Hf Hins rks w'. subst rks w'.
  destruct w as [d fs c t]. cbn [faults db] in Hf, Hins. subst fs.
  remember (map (fun r => Rankings.mk roundId (itemId r) (position r))
                (first :: more)) as ks eqn:Eks.
  assert (Hfirst : In (Rankings.mk roundId (itemId first) (position first)) ks)
    by (rewrite Eks; left; reflexivity).
  assert (E : submitVIPRanking roundId (first :: more)
                               (mkworld d [false; true] c t)
              = (false,
                 mkworld (with_rankings (rankings d ++ ks) d)
                         [] (c ++ ["Error submitting VIP ranking:"%string])
                         (t ++ ["Failed to submit ranking"%string]))).
  { revert Hins.
    unfold submitVIPRanking, try_catch, bind, request, report, ret, throw.
    cbn [faults db console toasts]. rewrite <- Eks. unfold insert_rankings.
    destruct (forallb (ranking_refs_ok d) ks); cbn; [|discriminate].
    destruct (has_dup same_ranking_key ks
              || existsb (fun k => existsb (same_ranking_key k) (rankings d))
                         ks)%bool; cbn; [discriminate|].
    reflexivity. }
  rewrite E. cbn [fst snd db faults rankings rounds with_rankings].
  repeat split.
  unfold submitVIPRanking, try_catch, bind, request, report, ret, throw.
  cbn [faults db console toasts]. rewrite <- Eks. unfold insert_rankings.
  destruct (forallb _ ks); cbn; [|reflexivity].
  assert (Edup : existsb
                   (fun k => existsb (same_ranking_key k) (rankings d ++ ks))
                   ks = true).
  { apply existsb_exists.
    exists (Rankings.mk roundId (itemId first) (position first)).
    split; [exact Hfirst|].
    apply existsb_exists.
    exists (Rankings.mk roundId (itemId first) (position first)). split.
    - apply in_or_app. right. exact Hfirst.
    - unfold same_ranking_key. simpl. rewrite !Nat.eqb_refl. reflexivity. }
  rewrite Edup, orb_true_r. reflexivity.
Qed.

Lemma lost_status_update_strands_ranking_witness :
  let lossy := mkworld (db Example.chosen) [false; true] [] [] in
  fst (submitVIPRanking Example.round1 Example.vip_order lossy) = false
  /\ map Rounds.status
         (rounds (db (snd (submitVIPRanking Example.round1 Example.vip_order
                             lossy)))) = [vip_ranking].
Proof.
  destruct (@lost_status_update_strands_ranking
              (mkworld (db Example.chosen) [false; true] [] [])
              Example.round1 (mkplacement Example.itemA 0)
              [mkplacement Example.itemB 1; mkplacement Example.itemC 2]
              eq_refl eq_refl) as [H1 [_ [H3 _]]].
  split; [exact H1|]. cbv zeta in H3. unfold Example.vip_order.
  rewrite H3. vm_compute. reflexivity.
Defined.

(** ** Sorting by a score, highest first *)

Section SortDescending.
Variable A : Type.
Variable key : A -> Z.

Let cmp (a b : A) : Z := key b - key a.

Lemma insert_sorted_perm (x : A) (l : list A) :
  Permutation (insert_sorted cmp x l) (x :: l).
Proof.
  induction l as [|y t IH]; simpl; [apply Permutation_refl|].
  destruct (cmp x y <=? 0); [apply Permutation_refl|].
  apply perm_trans with (y :: x :: t); [|apply perm_swap].
  apply perm_skip, IH.
Qed.

Lemma js_sort_perm (l : list A) : Permutation (js_sort cmp l) l.
Proof.
  induction l as [|x t IH]; simpl; [apply perm_nil|].
  apply perm_trans with (x :: js_sort cmp t); [apply insert_sorted_perm|].
  apply perm_skip, IH.
Qed.

Lemma insert_sorted_descending (x : A) (l : list A) :
  StronglySorted (fun a b => key b <= key a) l ->
  StronglySorted (fun a b => key b <= key a) (insert_sorted cmp x l).
Proof.
  induction l as [|y t IH]; simpl; intros Hs.
  - constructor; constructor.
  - inversion Hs as [|? ? Ht Hy]; subst.
    destruct (Z.leb_spec (cmp x y) 0) as [Hle|Hgt]; unfold cmp in *.
    + constructor; [exact Hs|]. constructor; [lia|].
      eapply Forall_impl; [|exact Hy]. intros z Hz. simpl in Hz. lia.
    + constructor; [apply IH, Ht|].
      eapply Permutation_Forall;
        [apply Permutation_sym, insert_sorted_perm|].
      constructor; [lia | exact Hy].
Qed.

Lemma js_sort_descending (l : list A) :
  StronglySorted (fun a b => key b <= key a) (js_sort cmp l).
Proof.
  induction l as [|x t IH]; simpl; [constructor|].
  apply insert_sorted_descending, IH.
Qed.

(** The first of the sorted rows has the highest key; there is none
    only when nothing was sorted. *)
Lemma js_sort_head (l : list A) :
  match js_sort cmp l with
  | [] => l = []
  | top :: _ => In top l /\ forall x, In x l -> key x <= key top
  end.
Proof.
  pose proof (js_sort_perm l) as Hp. pose proof (js_sort_descending l) as Hs.
  destruct (js_sort cmp l) as [|top rest].
  - apply Permutation_nil. exact Hp.
  - split.
    + eapply Permutation_in; [exact Hp | left; reflexivity].
    + intros x Hx. inversion Hs as [|? ? _ Hall]; subst.
      apply Permutation_sym in Hp.
      pose proof (Permutation_in x Hp Hx) as [->|Hin]; [lia|].
      rewrite Forall_forall in Hall. apply Hall, Hin.
Qed.
End SortDescending.

Lemma existsb_perm {A} (f : A -> bool) (l l' : list A) :
  Permutation l l' -> existsb f l = existsb f l'.
Proof.
  intros Hp. destruct (existsb f l') eqn:E.
  - apply existsb_exists in E. destruct E as [x [Hx Hf]].
    apply existsb_exists. exists x. split; [|exact Hf].
    eapply Permutation_in; [apply Permutation_sym, Hp | exact Hx].
  - apply not_true_is_false. intros E'. apply existsb_exists in E'.
    destruct E' as [x [Hx Hf]].
    assert (E2 : existsb f l' = true).
    { apply existsb_exists. exists x. split; [|exact Hf].
      eapply Permutation_in; [exact Hp | exact Hx]. }
    congruence.
Qed.

Lemma existsb_of_map {A B} (f : B -> bool) (g : A -> B) (l : list A) :
  existsb f (map g l) = existsb (fun x => f (g x)) l.
Proof.
  induction l as [|x t IH]; simpl; [reflexivity|]. rewrite IH. reflexivity.
Qed.

(** ** The round scoreboard *)

(** X23. The round scoreboard lists every player once, the highest
    cumulative score first, in descending order of score; and what it
    shows as the points of the round is, for every player, the cumulative
    score itself, with a previous score of 0. *)
Theorem scoreboard_is_ranked (players : list Player.t) :
  let board := Scoreboard.calculateRoundPoints players in
  Permutation
    (map (fun r => (Scoreboard.id r, Scoreboard.username r,
                    Scoreboard.score r)) board)
    (map (fun p => (Player.id p, Player.username p, Player.score p)) players)
  /\ StronglySorted (fun a b => Scoreboard.score b <= Scoreboard.score a)
                    board
  /\ Forall (fun r => Scoreboard.roundPoints r = Scoreboard.score r
                      /\ Scoreboard.previousScore r = 0) board.
Proof.
  intros board. subst board. unfold Scoreboard.calculateRoundPoints.
  set (rows := map _ players).
  pose proof (js_sort_perm Scoreboard.score rows) as Hp. cbv zeta in Hp.
  repeat split.
  - eapply perm_trans; [apply Permutation_map, Hp|].
    unfold rows. rewrite map_map. apply Permutation_refl.
  - apply (js_sort_descending Scoreboard.score rows).
  - eapply Permutation_Forall; [apply Permutation_sym, Hp|].
    unfold rows. apply Forall_forall. intros r Hr.
    apply in_map_iff in Hr. destruct Hr as [p [<- _]]. split; reflexivity.
Qed.

Lemma checkForWinner_scores (game : Games.row) (players : list Player.t) :
  Scoreboard.checkForWinner (Some game)
                            (Scoreboard.calculateRoundPoints players)
  = existsb (fun s => s >=? Games.target_score game)
            (map Player.score players).
Proof.
  unfold Scoreboard.checkForWinner, Scoreboard.calculateRoundPoints.
  set (rows := map _ players).
  pose proof (js_sort_perm Scoreboard.score rows) as Hp. cbv zeta in Hp.
  rewrite (existsb_perm _ Hp). subst rows. clear Hp.
  induction players as [|p t IH]; simpl; [reflexivity|].
  rewrite IH. reflexivity.
Qed.

(** X24. For a target score other than 0 the scoreboard and the game
    agree: after a scoring that went through, of a game not finished
    before, the scoreboard computed from the players of the game
    announces a winner exactly when the game has been set to [finished]. *)
Theorem scoreboard_winner_means_finished (w : world) (roundId : uuid)
    (round : Rounds.row) (game : Games.row) (players : list Player.t) :
  faults w = [] ->
  rounds_by_id roundId (db w) = [round] ->
  games_by_id (Rounds.game_id round) (db w) = [game] ->
  Games.target_score game <> 0 ->
  Games.status game <> finished ->
  let w' := snd (calculateScores roundId w) in
  map Player.score players
  = map GamePlayers.score (players_of_game (Rounds.game_id round) (db w')) ->
  exists game',
    games_by_id (Rounds.game_id round) (db w') = [game']
    /\ (Scoreboard.checkForWinner (Some game')
          (Scoreboard.calculateRoundPoints players) = true
        <-> Games.status game' = finished).
Proof.
  intros Hf Hr Hg Ht Hs w' Hps.
  pose proof (@win_check_gen w roundId round game Hf Hr Hg) as H.
  cbv zeta in H. fold w' in H.
  assert (Etarget : targetScore_of (Some game) = Games.target_score game).
  { unfold targetScore_of.
    destruct (Z.eqb_spec (Games.target_score game) 0); [contradiction|].
    reflexivity. }
  rewrite Etarget in H.
  eexists. split; [exact H|].
  rewrite checkForWinner_scores, Hps.
  assert (Escore : existsb (fun s => s >=? Games.target_score game)
                     (map GamePlayers.score
                        (players_of_game (Rounds.game_id round) (db w')))
                   = existsb (fun p => GamePlayers.score p
                                       >=? Games.target_score game)
                       (players_of_game (Rounds.game_id round) (db w'))).
  { apply existsb_of_map. }
  destruct (existsb (fun p => GamePlayers.score p >=? Games.target_score game)
              (players_of_game (Rounds.game_id round) (db w'))) eqn:E;
    cbn [Games.target_score Games.set_status];
    rewrite Escore; split; intros H1; try reflexivity; try discriminate.
  contradiction.
Qed.

Lemma scoreboard_winner_means_finished_witness :
  exists game',
    games_by_id Example.the_game
      (db (snd (calculateScores Example.round1 Example.guessed))) = [game']
    /\ (Scoreboard.checkForWinner (Some game')
          (Scoreboard.calculateRoundPoints
             [Player.mk 7%nat Example.alice "alice" 0;
              Player.mk 8%nat Example.bob "bob" 100;
              Player.mk 9%nat Example.carol "carol" (-50)]) = true
        <-> Games.status game' = finished).
Proof.
  refine (@scoreboard_winner_means_finished Example.guessed Example.round1
            (Example.round_row player_guessing 0)
            (Games.set_status playing Example.game_row)
            [Player.mk 7%nat Example.alice "alice" 0;
             Player.mk 8%nat Example.bob "bob" 100;
             Player.mk 9%nat Example.carol "carol" (-50)]
            eq_refl eq_refl eq_refl _ _ _).
  - simpl. discriminate.
  - simpl. discriminate.
  - vm_compute. reflexivity.
Defined.

(** ** The latest round of a game *)

(** X25. When its request goes through, [fetchCurrentRound] of a game
    gives the stored round of that game with the greatest round number,
    and null when the game has no round; what the state held before does
    not matter. *)
Theorem fetchCurrentRound_gives_latest (w : world) (gameId : uuid)
    (currentRound : option Rounds.row) :
  faults w = [] ->
  exists res,
    fetchCurrentRound (Some gameId) currentRound w = (Return res, w)
    /\ match res with
       | None => forall r, In r (rounds (db w)) -> Rounds.game_id r <> gameId
       | Some top =>
           In top (rounds (db w))
           /\ Rounds.game_id top = gameId
           /\ forall r, In r (rounds (db w)) -> Rounds.game_id r = gameId ->
                        Rounds.round_number r <= Rounds.round_number top
       end.
Proof.
  intros Hf. unfold fetchCurrentRound.
  rewrite bind_select_reliable by exact Hf. unfold latest_round.
  set (mine := filter (fun r => (Rounds.game_id r =? gameId)%nat)
                      (rounds (db w))).
  pose proof (js_sort_head Rounds.round_number mine) as Hhead.
  cbv zeta in Hhead.
  destruct (js_sort _ mine) as [|top rest].
  - exists None. split; [reflexivity|].
    intros r Hr E.
    assert (Hin : In r mine)
      by (apply filter_In; split; [exact Hr | apply Nat.eqb_eq, E]).
    rewrite Hhead in Hin. contradiction.
  - exists (Some top). split; [reflexivity|].
    destruct Hhead as [Hin Hmax]. apply filter_In in Hin.
    destruct Hin as [Hin E]. apply Nat.eqb_eq in E. repeat split; auto.
    intros r Hr Er. apply Hmax. apply filter_In.
    split; [exact Hr | apply Nat.eqb_eq, Er].
Qed.

Lemma fetchCurrentRound_gives_latest_witness :
  fst (fetchCurrentRound (Some Example.the_game) None Example.revealed1)
  = Return (Some (Example.round_row revealing 1)).
Proof.
  destruct (@fetchCurrentRound_gives_latest Example.revealed1
              Example.the_game None eq_refl) as [res [E _]].
  vm_compute. reflexivity.
Defined.

(** ** The counters of the guessing screen *)

Lemma nodup_all_same (u : uuid) (l : list uuid) :
  l <> [] -> (forall x, In x l -> x = u) ->
  List.length (nodup Nat.eq_dec l) = 1%nat.
Proof.
  induction l as [|x t IH]; intros Hne Hall; [contradiction|].
  simpl. destruct (in_dec Nat.eq_dec x t) as [Hin|Hout].
  - apply IH; [intros ->; contradiction | intros y Hy; apply Hall; right; auto].
  - destruct t as [|y t']; [reflexivity|].
    exfalso. apply Hout. left.
    rewrite (Hall x) by (left; reflexivity).
    apply Hall. right. left. reflexivity.
Qed.

Lemma nodup_app_new (u : uuid) (l l' : list uuid) :
  ~ In u l -> l' <> [] -> (forall x, In x l' -> x = u) ->
  List.length (nodup Nat.eq_dec (l ++ l'))
  = S (List.length (nodup Nat.eq_dec l)).
Proof.
  intros Hu Hne Hall. induction l as [|x t IH]; simpl.
  - apply nodup_all_same with (u := u); assumption.
  - assert (Hxu : x <> u) by (intros ->; apply Hu; left; reflexivity).
    assert (Ht : ~ In u t) by (intros H; apply Hu; right; exact H).
    destruct (in_dec Nat.eq_dec x (t ++ l')) as [Hin|Hout];
      destruct (in_dec Nat.eq_dec x t) as [Hin'|Hout']; simpl.
    + apply IH, Ht.
    + exfalso. apply in_app_or in Hin. destruct Hin as [H|H];
        [contradiction | apply Hxu, Hall, H].
    + exfalso. apply Hout, in_or_app. left. exact Hin'.
    + f_equal. apply IH, Ht.
Qed.

(** X26. After an accepted, non-empty guess of a player the guessing
    screen shows that player as having submitted; and if it was the
    player's first guess of the round, the number of players who have
    submitted has gone up by exactly one. *)
Theorem accepted_guess_is_counted (w : world) (round : Rounds.row)
    (u : uuid) (gs : list placement) (st : submission_status) :
  faults w = [] ->
  gs <> [] ->
  fst (submitGuess (Rounds.id round) u gs w) = true ->
  let w' := snd (submitGuess (Rounds.id round) u gs w) in
  let before := fst (checkSubmissionStatus (Some round) (Some u) st w) in
  let after := fst (checkSubmissionStatus (Some round) (Some u) st w') in
  hasSubmitted after = true
  /\ (hasSubmitted before = false ->
      submittedCount after = S (submittedCount before)).
Proof.
  intros Hf Hne Hok w' before after.
  assert (Hf' : faults w' = []).
  { subst w'. clear - Hf. destruct w as [d fs c t]. simpl in Hf. subst fs.
    unfold submitGuess, try_catch, bind, request, report, ret, throw, select.
    simpl. unfold insert_guesses.
    repeat match goal with
           | |- context [if ?b then _ else _] => destruct b; simpl
           end; reflexivity. }
  assert (Hq : map Guesses.user_id (guesses_of_round (Rounds.id round) (db w'))
               = (map Guesses.user_id
                      (guesses_of_round (Rounds.id round) (db w))
                  ++ map (fun _ => u) gs)%list).
  { unfold guesses_of_round. subst w'.
    rewrite submitGuess_stores by assumption.
    rewrite filter_app, map_app. f_equal.
    unfold guessesWithCorrectness. clear.
    induction gs as [|g t IH]; simpl; [reflexivity|].
    rewrite Nat.eqb_refl. simpl. f_equal. exact IH. }
  assert (Eafter : after
                   = mksubmission
                       (existsb (Nat.eqb u)
                          (map Guesses.user_id
                             (guesses_of_round (Rounds.id round) (db w'))))
                       (List.length
                          (nodup Nat.eq_dec
                             (map Guesses.user_id
                                (guesses_of_round (Rounds.id round) (db w')))))).
  { subst after. unfold checkSubmissionStatus, try_catch.
    rewrite bind_select_reliable by exact Hf'. reflexivity. }
  assert (Ebefore : before
                    = mksubmission
                        (existsb (Nat.eqb u)
                           (map Guesses.user_id
                              (guesses_of_round (Rounds.id round) (db w))))
                        (List.length
                           (nodup Nat.eq_dec
                              (map Guesses.user_id
                                 (guesses_of_round (Rounds.id round) (db w)))))).
  { subst before. unfold checkSubmissionStatus, try_catch.
    rewrite bind_select_reliable by exact Hf. reflexivity. }
  rewrite Eafter, Ebefore. cbn [hasSubmitted submittedCount]. rewrite Hq.
  assert (Hall : forall x, In x (map (fun _ : placement => u) gs) -> x = u).
  { intros x Hx. apply in_map_iff in Hx. destruct Hx as [_ [<- _]].
    reflexivity. }
  assert (Hne' : map (fun _ : placement => u) gs <> [])
    by (destruct gs; [contradiction | discriminate]).
  split.
  - rewrite existsb_app. apply orb_true_iff. right.
    destruct gs as [|g t]; [contradiction|]. simpl.
    rewrite Nat.eqb_refl. reflexivity.
  - intros Hnot. apply nodup_app_new with (u := u); try assumption.
    intros Hin.
    assert (E : existsb (Nat.eqb u)
                  (map Guesses.user_id
                     (guesses_of_round (Rounds.id round) (db w))) = true).
    { apply existsb_exists. exists u. split; [exact Hin|].
      apply Nat.eqb_refl. }
    congruence.
Qed.

Lemma accepted_guess_is_counted_witness :
  submittedCount
    (fst (checkSubmissionStatus (Some (Example.round_row player_guessing 0))
            (Some Example.bob) (mksubmission false 0)
            (snd (submitGuess Example.round1 Example.bob Example.bob_order
                    Example.ranked))))
  = 1%nat.
Proof.
  refine (eq_trans
            (proj2 (@accepted_guess_is_counted Example.ranked
                      (Example.round_row player_guessing 0) Example.bob
                      Example.bob_order (mksubmission false 0)
                      eq_refl ltac:(discriminate) eq_refl)
                   eq_refl) _).
  vm_compute. reflexivity.
Defined.

(** ** Who is the VIP, who is the creator *)

(** X27. [isVIP] and [isCreator] of the game context hold exactly when
    the user signed in is the VIP, or the creator, of the game loaded, or
    when no game is loaded and nobody is signed in; in particular a
    loaded game without a VIP makes nobody the VIP, and for the game
    that [createGame] returns they hold for the creator and for nobody
    else. *)
Theorem isVIP_isCreator (game : option Games.row) (user : option uuid) :
  (isVIP game user = true
   <-> (game = None /\ user = None)
       \/ exists g u, game = Some g /\ user = Some u
                      /\ Games.current_vip_id g = Some u)
  /\ (isCreator game user = true
      <-> (game = None /\ user = None)
          \/ exists g u, game = Some g /\ user = Some u
                         /\ Games.creator_id g = u)
  /\ (forall w w' r userId settings g,
        faults w = [] ->
        createGame r userId settings w = (Some g, w') ->
        game = Some g ->
        isVIP game user = isCreator game user
        /\ (isVIP game user = true <-> user = Some userId)).
Proof.
  split; [|split].
  - unfold isVIP. destruct game as [g|], user as [u|]; simpl.
    + destruct (Games.current_vip_id g) as [v|] eqn:Ev; simpl.
      * split.
        -- intros E. apply Nat.eqb_eq in E. subst v. right. eauto.
        -- intros [[H _]|[g' [u' [Hg [Hu Hv]]]]]; [discriminate|].
           injection Hg as <-. injection Hu as <-.
           rewrite Ev in Hv. injection Hv as ->. apply Nat.eqb_refl.
      * split; [discriminate|].
        intros [[H _]|[g' [u' [Hg [Hu Hv]]]]]; [discriminate|].
        injection Hg as <-. rewrite Ev in Hv. discriminate.
    + destruct (Games.current_vip_id g); simpl;
        (split; [discriminate|]);
        intros [[H _]|[g' [u' [_ [Hu _]]]]]; discriminate.
    + split; [discriminate|].
      intros [[_ H]|[g' [u' [Hg _]]]]; discriminate.
    + split; [auto | reflexivity].
  - unfold isCreator. destruct game as [g|], user as [u|]; simpl.
    + split.
      * intros E. apply Nat.eqb_eq in E. right. eauto.
      * intros [[H _]|[g' [u' [Hg [Hu Hc]]]]]; [discriminate|].
        injection Hg as <-. injection Hu as <-. subst u. apply Nat.eqb_refl.
    + split; [discriminate|].
      intros [[H _]|[g' [u' [_ [Hu _]]]]]; discriminate.
    + split; [discriminate|].
      intros [[_ H]|[g' [u' [Hg _]]]]; discriminate.
    + split; [auto | reflexivity].
  - intros w w' r userId settings g Hf Hc ->.
    assert (Hg : Games.current_vip_id g = Some userId
                 /\ Games.creator_id g = userId).
    { destruct w as [d fs c t]. simpl in Hf. subst fs. revert Hc.
      unfold createGame, try_catch, bind, request, report, ret, throw, select.
      simpl. unfold insert_game. simpl.
      destruct (existsb _ (games d) || existsb _ (games d))%bool; simpl;
        [discriminate|].
      unfold insert_game_player. simpl.
      repeat match goal with
             | |- context [if ?b then _ else _] => destruct b; simpl
             end; try discriminate.
      intros H. injection H as <- _. split; reflexivity. }
    destruct Hg as [Hv Hcr]. unfold isVIP, isCreator. rewrite Hv, Hcr.
    split; [reflexivity|].
    destruct user as [u|]; simpl.
    + split.
      * intros E. apply Nat.eqb_eq in E. congruence.
      * intros E. injection E as ->. apply Nat.eqb_refl.
    + split; discriminate.
Qed.

(** ** The cards of the reveal screen *)

(** X28. The reveal screen never lists a guess that was stored as correct
    on the card of the ranking row it matches: such a guess has the
    position of the row, and the card lists the guesses whose position
    is one more. *)
Theorem correct_guess_not_on_its_card (roundId userId : uuid)
    (rks : list Rankings.row) (gs : list placement)
    (r : Rankings.row) (g : Guesses.row) (shown : list Guesses.row) :
  NoDup (map Rankings.item_id rks) ->
  In r rks ->
  In g (guessesWithCorrectness roundId userId rks gs) ->
  Guesses.item_id g = Rankings.item_id r ->
  Guesses.is_correct g = Some true ->
  Guesses.position g = Rankings.position r
  /\ ~ In g (positionGuesses r shown).
Proof.
  intros Hnd Hr Hg Hitem Hok.
  unfold guessesWithCorrectness in Hg. apply in_map_iff in Hg.
  destruct Hg as [p [<- Hp]]. simpl in Hitem, Hok |- *.
  injection Hok as Hok.
  rewrite is_correct_against_matches in Hok by exact Hnd.
  unfold matches_ranking in Hok. apply existsb_exists in Hok.
  destruct Hok as [k [Hk Hm]]. apply andb_prop in Hm.
  destruct Hm as [Hi Hpos]. apply Nat.eqb_eq in Hi. apply Z.eqb_eq in Hpos.
  assert (Ekr : k = r).
  { clear - Hnd Hk Hr Hi Hitem. induction rks as [|x t IH]; [contradiction|].
    simpl in Hnd. inversion Hnd as [|? ? Hx Hnd']; subst.
    destruct Hk as [->|Hk], Hr as [->|Hr]; auto.
    - exfalso. apply Hx. rewrite Hi, Hitem. apply in_map, Hr.
    - exfalso. apply Hx. rewrite <- Hitem, <- Hi. apply in_map, Hk. }
  subst k. split; [symmetry; exact Hpos|].
  unfold positionGuesses. intros Hin. apply filter_In in Hin.
  destruct Hin as [_ E]. simpl in E. apply Z.eqb_eq in E. lia.
Qed.

Lemma correct_guess_not_on_its_card_witness :
  ~ In (Guesses.mk Example.round1 Example.bob Example.itemA 0 (Some true))
       (positionGuesses (Rankings.mk Example.round1 Example.itemA 0)
                        (guesses (db Example.guessed))).
Proof.
  refine (proj2 (@correct_guess_not_on_its_card Example.round1 Example.bob
                   Example.vip_rows Example.bob_order
                   (Rankings.mk Example.round1 Example.itemA 0)
                   (Guesses.mk Example.round1 Example.bob Example.itemA 0
                               (Some true))
                   (guesses (db Example.guessed)) _ _ _ eq_refl eq_refl)).
  - simpl. repeat constructor; simpl; intuition discriminate.
  - left. reflexivity.
  - left. reflexivity.
Defined.
